(** * Trigger evaluation and chain state machine of Kontextlager

    A shallow embedding of [src/services/chainState.ts] (the chain state
    machine) and [src/services/triggers.ts] (the activation coordinator and
    the trigger evaluators), with the types of [src/types/chain.ts].

    Modelling conventions.
    - Both modules keep their state in module-level objects ([sessionState],
      [state]); here they are fields of one explicit [World], threaded through
      every function.  A function of the source returning [void] is a
      [World -> World]; one returning a value returns a pair.
    - JavaScript numbers (milliseconds, degrees, counts) are integers of [Z];
      [%] is [Z.rem], the remainder that takes the sign of the dividend.
    - [Map<string, _>] is [gmap string _], [Set<string>] is [gset string].
    - The host's [setTimeout] queue, clock and [localStorage] entry are the
      [Host] part of the world.  [Date.now()] is constant during one
      synchronous call; time moves with [advance], a pending timer runs with
      [runTimer] once it is due.  The delay of a timer goes through the
      host's conversion to a signed 32-bit integer ([hostDelay]).
    - Observers are opaque callbacks that do not call back into the two
      services.  The callbacks of [onTriggerActivation] are told apart by a
      number, and every call they receive is recorded in [activations]; the
      calls received by the callbacks of [onStatusChange] (each of them gets
      the same ones) are recorded in [statusEvents]. *)

From stdpp Require Import base strings gmap list.
From Stdlib Require Import ZArith Lia Sorted.
From Stdlib Require QArith.

Local Open Scope Z_scope.

(** ** Types ([src/types/chain.ts] and the fields of [MediaObject] read by the
    two services) *)

Inductive TriggerStatus := idle | armed | triggered | completed.

#[global] Instance TriggerStatus_eq_dec : EqDecision TriggerStatus.
Proof. solve_decision. Defined.

Inductive ConditionType := afterTrigger | allOf | anyOf | timerCondition | never.

Record ChainCondition := {
  cond_type : ConditionType;
  triggerId : option string;
  triggerIds : option (list string);
  delayMs : option Z
}.

Inductive TriggerType :=
  gps | qr | shake | tilt | compass | touch | hold | timer | proximity
| dice | spinner | ai.

#[global] Instance TriggerType_eq_dec : EqDecision TriggerType.
Proof. solve_decision. Defined.

(** The parameter bag [params : Record<string, unknown>], with the keys the
    evaluators read, each at the type its [as] cast gives it. *)
Record TriggerParams := {
  radius : option Z;
  code : option string;
  threshold : option Z;
  direction : option string;
  angle : option Z;
  heading : option Z;
  tolerance : option Z;
  duration : option Z;
  delay : option Z;
  minDevices : option Z
}.

Record Trigger := { type : TriggerType; params : TriggerParams }.

Record Location := { lat : Z; lng : Z }.

(** [MediaObject] with the optional fields of [ChainedMediaObject]; an
    absent ([undefined] or [null]) field is [None]. *)
Record MediaObject := {
  id : string;
  active : bool;
  location : Location;
  trigger : Trigger;
  armCondition : option ChainCondition;
  repeatable : option bool;
  resetTimeout : option Z
}.

(** The closures handed to [setTimeout], one constructor per call site. *)
Inductive Callback :=
| StatusChangeTimer (triggerId : string) (newStatus : TriggerStatus)
| ArmEvaluationTimer (triggerId : string)
| DeactivateTimer (objectId : string)
| TimerTrigger (obj : MediaObject).

(** The value stored under [STORAGE_KEY]. *)
Record Snapshot := {
  snap_triggerStatus : gmap string TriggerStatus;
  snap_statusChangedAt : gmap string Z;
  snap_timestamp : Z
}.

(** [sessionState] of chainState.ts (the [chains] table is not read by the
    state machine and is left out). *)
Record ChainSessionState := {
  triggerStatus : gmap string TriggerStatus;
  statusChangedAt : gmap string Z;
  pendingTimers : gmap string positive;
  objects : list MediaObject
}.

(** [state] of triggers.ts.  [listeners] is a [Set] iterated in insertion
    order: a list without duplicates. *)
Record TriggerState := {
  activeObjects : gset string;
  dismissedObjects : gset string;
  listeners : list nat;
  touchStartTime : option Z;
  timerTimeouts : gmap string positive
}.

Record Host := {
  now : Z;
  nextTimerId : positive;
  timers : gmap positive (Z * Callback);
  localStorage : option Snapshot;
  storageWritable : bool;
  statusEvents : list (string * TriggerStatus * option TriggerStatus);
  activations : list (nat * MediaObject)
}.

Record World := {
  sessionState : ChainSessionState;
  state : TriggerState;
  host : Host
}.

(** ** Field updates *)

Definition with_session (f : ChainSessionState → ChainSessionState) (w : World) : World :=
  {| sessionState := f (sessionState w); state := state w; host := host w |}.

Definition with_state (f : TriggerState → TriggerState) (w : World) : World :=
  {| sessionState := sessionState w; state := f (state w); host := host w |}.

Definition with_host (f : Host → Host) (w : World) : World :=
  {| sessionState := sessionState w; state := state w; host := f (host w) |}.

Definition set_triggerStatus (m : gmap string TriggerStatus) (s : ChainSessionState) :=
  {| triggerStatus := m; statusChangedAt := statusChangedAt s;
     pendingTimers := pendingTimers s; objects := objects s |}.

Definition set_statusChangedAt (m : gmap string Z) (s : ChainSessionState) :=
  {| triggerStatus := triggerStatus s; statusChangedAt := m;
     pendingTimers := pendingTimers s; objects := objects s |}.

Definition set_pendingTimers (m : gmap string positive) (s : ChainSessionState) :=
  {| triggerStatus := triggerStatus s; statusChangedAt := statusChangedAt s;
     pendingTimers := m; objects := objects s |}.

Definition set_objects (l : list MediaObject) (s : ChainSessionState) :=
  {| triggerStatus := triggerStatus s; statusChangedAt := statusChangedAt s;
     pendingTimers := pendingTimers s; objects := l |}.

Definition set_activeObjects (a : gset string) (s : TriggerState) :=
  {| activeObjects := a; dismissedObjects := dismissedObjects s;
     listeners := listeners s; touchStartTime := touchStartTime s;
     timerTimeouts := timerTimeouts s |}.

Definition set_dismissedObjects (d : gset string) (s : TriggerState) :=
  {| activeObjects := activeObjects s; dismissedObjects := d;
     listeners := listeners s; touchStartTime := touchStartTime s;
     timerTimeouts := timerTimeouts s |}.

Definition set_listeners (l : list nat) (s : TriggerState) :=
  {| activeObjects := activeObjects s; dismissedObjects := dismissedObjects s;
     listeners := l; touchStartTime := touchStartTime s;
     timerTimeouts := timerTimeouts s |}.

Definition set_touchStartTime (t : option Z) (s : TriggerState) :=
  {| activeObjects := activeObjects s; dismissedObjects := dismissedObjects s;
     listeners := listeners s; touchStartTime := t;
     timerTimeouts := timerTimeouts s |}.

Definition set_timerTimeouts (m : gmap string positive) (s : TriggerState) :=
  {| activeObjects := activeObjects s; dismissedObjects := dismissedObjects s;
     listeners := listeners s; touchStartTime := touchStartTime s;
     timerTimeouts := m |}.

Definition set_now (t : Z) (h : Host) :=
  {| now := t; nextTimerId := nextTimerId h; timers := timers h;
     localStorage := localStorage h; storageWritable := storageWritable h;
     statusEvents := statusEvents h; activations := activations h |}.

Definition set_timers (n : positive) (q : gmap positive (Z * Callback)) (h : Host) :=
  {| now := now h; nextTimerId := n; timers := q;
     localStorage := localStorage h; storageWritable := storageWritable h;
     statusEvents := statusEvents h; activations := activations h |}.

Definition set_localStorage (s : option Snapshot) (h : Host) :=
  {| now := now h; nextTimerId := nextTimerId h; timers := timers h;
     localStorage := s; storageWritable := storageWritable h;
     statusEvents := statusEvents h; activations := activations h |}.

Definition set_statusEvents (l : list (string * TriggerStatus * option TriggerStatus)) (h : Host) :=
  {| now := now h; nextTimerId := nextTimerId h; timers := timers h;
     localStorage := localStorage h; storageWritable := storageWritable h;
     statusEvents := l; activations := activations h |}.

Definition set_activations (l : list (nat * MediaObject)) (h : Host) :=
  {| now := now h; nextTimerId := nextTimerId h; timers := timers h;
     localStorage := localStorage h; storageWritable := storageWritable h;
     statusEvents := statusEvents h; activations := l |}.

(** ** The host: timers and storage *)

(** The host reads the delay of [setTimeout] as a signed 32-bit integer (a
    WebIDL [long]): the number is reduced modulo 2^32 into the range from
    -2^31 to 2^31 - 1, and a negative result counts as 0.  So a delay below
    2^31 ms (about 24.8 days) is kept, and one from 2^31 up to 2^32 ms makes
    the callback due at once. *)
Definition toInt32 (n : Z) : Z := (n + 2147483648) `mod` 4294967296 - 2147483648.

Definition hostDelay (delay : Z) : Z := Z.max 0 (toInt32 delay).

(** [window.setTimeout(cb, delay)]: a fresh handle; the callback becomes due
    [hostDelay delay] ms from now. *)
Definition setTimeout (cb : Callback) (delay : Z) (w : World) : positive * World :=
  let h := host w in
  (nextTimerId h,
   with_host (set_timers (Pos.succ (nextTimerId h))
                (<[nextTimerId h := (now h + hostDelay delay, cb)]> (timers h))) w).

Definition clearTimeout (t : positive) (w : World) : World :=
  with_host (λ h, set_timers (nextTimerId h) (delete t (timers h)) h) w.

(** The clock moves forward between two turns of the event loop. *)
Definition advance (dt : Z) (w : World) : World :=
  with_host (λ h, set_now (now h + Z.max 0 dt) h) w.

(** ** chainState.ts *)

(** [notifyStatusChange]: every status listener receives the same call. *)
Definition notifyStatusChange (triggerId : string) (status : TriggerStatus)
    (previous : option TriggerStatus) (w : World) : World :=
  with_host (λ h, set_statusEvents (statusEvents h ++ [(triggerId, status, previous)]) h) w.

Definition getTriggerStatus (triggerId : string) (w : World) : TriggerStatus :=
  default idle (triggerStatus (sessionState w) !! triggerId).

Definition setTriggerStatus (triggerId : string) (status : TriggerStatus) (w : World) : World :=
  let previousStatus := triggerStatus (sessionState w) !! triggerId in
  if decide (previousStatus = Some status) then w
  else
    let w1 := with_session (λ s, set_triggerStatus (<[triggerId := status]> (triggerStatus s)) s) w in
    let w2 := with_session (λ s, set_statusChangedAt (<[triggerId := now (host w1)]> (statusChangedAt s)) s) w1 in
    notifyStatusChange triggerId status previousStatus w2.

(** [persistSessionState]: the write is inside a [try] whose [catch] is
    empty; when the storage refuses the write nothing changes. *)
Definition persistSessionState (w : World) : World :=
  if storageWritable (host w) then
    with_host (set_localStorage (Some
      {| snap_triggerStatus := triggerStatus (sessionState w);
         snap_statusChangedAt := statusChangedAt (sessionState w);
         snap_timestamp := now (host w) |})) w
  else w.

Definition scheduleStatusChange (triggerId : string) (newStatus : TriggerStatus)
    (delayMs : Z) (w : World) : World :=
  let w1 := match pendingTimers (sessionState w) !! triggerId with
            | Some existingTimer => clearTimeout existingTimer w
            | None => w
            end in
  let '(timerId, w2) := setTimeout (StatusChangeTimer triggerId newStatus) delayMs w1 in
  with_session (λ s, set_pendingTimers (<[triggerId := timerId]> (pendingTimers s)) s) w2.

Definition armKey (triggerId : string) : string := "arm-" +:+ triggerId.

Definition scheduleArmEvaluation (triggerId : string) (delayMs : Z) (w : World) : World :=
  match pendingTimers (sessionState w) !! armKey triggerId with
  | Some _ => w
  | None =>
    let '(timerId, w1) := setTimeout (ArmEvaluationTimer triggerId) delayMs w in
    with_session (λ s, set_pendingTimers (<[armKey triggerId := timerId]> (pendingTimers s)) s) w1
  end.

(** [s === 'completed' || s === 'triggered'] on the result of [Map.get]. *)
Definition reached (s : option TriggerStatus) : bool :=
  match s with
  | Some completed | Some triggered => true
  | _ => false
  end.

(** [evaluateArmCondition] returns its verdict and, in the delayed
    [afterTrigger] case, schedules the re-evaluation.  [!triggerId] holds
    of an absent and of an empty id, [if (delayMs)] fails for an absent
    and for a zero delay, and [get(triggerId) || 0] reads a missing
    timestamp as 0.  The [default] branch of the [switch] is unreachable
    at type [ChainCondition]. *)
Definition evaluateArmCondition (trigger : MediaObject) (w : World) : bool * World :=
  match armCondition trigger with
  | None => (true, w)
  | Some c =>
    match cond_type c with
    | never => (false, w)
    | afterTrigger =>
      match triggerId c with
      | None => (true, w)
      | Some tid =>
        if decide (tid = "") then (true, w)
        else if negb (reached (triggerStatus (sessionState w) !! tid)) then (false, w)
        else
          match delayMs c with
          | None => (true, w)
          | Some d =>
            if decide (d = 0) then (true, w)
            else
              let changedAt := default 0 (statusChangedAt (sessionState w) !! tid) in
              if decide (now (host w) - changedAt < d) then
                (false, scheduleArmEvaluation (id trigger) (d - (now (host w) - changedAt)) w)
              else (true, w)
          end
      end
    | allOf =>
      (forallb (λ i, reached (triggerStatus (sessionState w) !! i)) (default [] (triggerIds c)), w)
    | anyOf =>
      (existsb (λ i, reached (triggerStatus (sessionState w) !! i)) (default [] (triggerIds c)), w)
    | timerCondition => (true, w)
    end
  end.

(** One iteration of the [for ... of] loop of [updateDependentTriggers]. *)
Definition updateDependent (changedTriggerId : string) (trigger : MediaObject) (w : World) : World :=
  if decide (id trigger = changedTriggerId) then w
  else if decide (getTriggerStatus (id trigger) w = idle) then
    let '(ok, w1) := evaluateArmCondition trigger w in
    if ok then setTriggerStatus (id trigger) armed w1 else w1
  else w.

Fixpoint updateDependentTriggers (changedTriggerId : string)
    (allTriggers : list MediaObject) (w : World) : World :=
  match allTriggers with
  | [] => w
  | trigger :: rest =>
    updateDependentTriggers changedTriggerId rest (updateDependent changedTriggerId trigger w)
  end.

(** [allTriggers || sessionState.objects]: an array, even an empty one, is
    truthy; only an omitted argument falls back to the session's objects. *)
Definition processTriggerActivation (trigger : MediaObject)
    (allTriggers : option (list MediaObject)) (w : World) : bool * World :=
  let currentStatus := getTriggerStatus (id trigger) w in
  if decide (currentStatus = armed) then
    let w1 := setTriggerStatus (id trigger) triggered w in
    let w2 := updateDependentTriggers (id trigger)
                (default (objects (sessionState w1)) allTriggers) w1 in
    (true, persistSessionState w2)
  else (false, w).

Definition findObject (triggerId : string) (w : World) : option MediaObject :=
  List.find (λ o, bool_decide (id o = triggerId)) (objects (sessionState w)).

(** The [if (obj?.repeatable) ... else ...] of [completeTrigger]: a repeatable
    object goes back to [armed], after [resetTimeout ?? 30000] ms or at once
    when that is not positive; any other object, and an id for which no
    object is known, is [completed]. *)
Definition resetOrComplete (triggerId : string) (obj : option MediaObject) (w : World) : World :=
  match obj with
  | Some o =>
    if decide (repeatable o = Some true) then
      let timeout := default 30000 (resetTimeout o) in
      if decide (timeout > 0) then scheduleStatusChange triggerId armed timeout w
      else setTriggerStatus triggerId armed w
    else setTriggerStatus triggerId completed w
  | None => setTriggerStatus triggerId completed w
  end.

Definition completeTrigger (triggerId : string) (trigger : option MediaObject)
    (allTriggers : option (list MediaObject)) (w : World) : World :=
  let currentStatus := getTriggerStatus triggerId w in
  if decide (currentStatus = triggered) then
    let obj := match trigger with Some o => Some o | None => findObject triggerId w end in
    let triggers := default (objects (sessionState w)) allTriggers in
    let w1 := resetOrComplete triggerId obj w in
    persistSessionState (updateDependentTriggers triggerId triggers w1)
  else w.

(** [pendingTimers.forEach((id) => clearTimeout(id))], then [clear()]. *)
Definition clearAllTimers (w : World) : World :=
  let w1 := map_fold (λ _ t acc, clearTimeout t acc) w (pendingTimers (sessionState w)) in
  with_session (set_pendingTimers ∅) w1.

(** [restoreSessionState]: the stored value is a snapshot or nothing (a
    value that does not parse ends in the [catch], like an absent one); a
    snapshot older than 24 hours is removed. *)
Definition restoreSessionState (w : World) : bool * World :=
  match localStorage (host w) with
  | None => (false, w)
  | Some data =>
    if decide (now (host w) - snap_timestamp data > 24 * 60 * 60 * 1000) then
      (false, with_host (set_localStorage None) w)
    else
      (true, with_session (λ s, set_statusChangedAt (snap_statusChangedAt data)
                                  (set_triggerStatus (snap_triggerStatus data) s)) w)
  end.

(** The body of the cold-start loop of [initializeSession]; it writes the
    status table directly, without [setTriggerStatus]. *)
Definition initialStatus (trigger : MediaObject) (w : World) : World :=
  let '(ok, w1) := evaluateArmCondition trigger w in
  with_session (λ s, set_triggerStatus
    (<[id trigger := if ok then armed else idle]> (triggerStatus s)) s) w1.

Definition initializeSession (triggers : list MediaObject) (w : World) : World :=
  let w1 := with_session (λ s, set_objects triggers
              (set_statusChangedAt ∅ (set_triggerStatus ∅ s))) w in
  let w2 := clearAllTimers w1 in
  let '(restored, w3) := restoreSessionState w2 in
  if restored then w3
  else fold_left (λ acc trigger, initialStatus trigger acc) triggers w3.

Definition clearSessionState (w : World) : World :=
  let w1 := with_session (λ s, set_objects []
              (set_statusChangedAt ∅ (set_triggerStatus ∅ s))) w in
  with_host (set_localStorage None) (clearAllTimers w1).

(** ** triggers.ts *)

(** [onTriggerActivation(callback)] and the unsubscribe closure it returns;
    [Set.add] of a member changes nothing. *)
Definition onTriggerActivation (callback : nat) (w : World) : World :=
  if decide (callback ∈ listeners (state w)) then w
  else with_state (λ s, set_listeners (listeners s ++ [callback]) s) w.

Definition unsubscribe (callback : nat) (w : World) : World :=
  with_state (λ s, set_listeners (filter (λ cb, cb ≠ callback) (listeners s)) s) w.

(** [state.listeners.forEach((cb) => cb(object))] *)
Definition invokeListeners (object : MediaObject) (w : World) : World :=
  with_host (λ h, set_activations
    (activations h ++ map (λ cb, (cb, object)) (listeners (state w))) h) w.

(** [notifyActivation]: the chain state machine is consulted only for an
    object that carries an arm condition. *)
Definition notifyActivation (object : MediaObject)
    (allObjects : option (list MediaObject)) (w : World) : World :=
  if decide (id object ∈ activeObjects (state w)) then w
  else
    let '(proceed, w1) :=
      match armCondition object with
      | Some _ =>
        if decide (getTriggerStatus (id object) w = armed)
        then processTriggerActivation object allObjects w
        else (false, w)
      | None => (true, w)
      end in
    if proceed then
      let w2 := with_state (λ s, set_activeObjects ({[id object]} ∪ activeObjects s) s) w1 in
      let w3 := invokeListeners object w2 in
      let timeout := default 30000 (resetTimeout object) in
      if decide (timeout > 0) then (setTimeout (DeactivateTimer (id object)) timeout w3).2
      else w3
    else w1.

(** [objects.forEach((obj) => ...)] *)
Definition forEach (body : MediaObject → World → World)
    (objs : list MediaObject) (w : World) : World :=
  fold_left (λ acc obj, body obj acc) objs w.

(** [(p as number) || d]: an absent or zero parameter takes the default. *)
Definition numberOr (p : option Z) (d : Z) : Z :=
  match p with
  | Some n => if decide (n = 0) then d else n
  | None => d
  end.

Definition ofKind (k : TriggerType) (obj : MediaObject) : bool :=
  active obj && bool_decide (type (trigger obj) = k).

Section GPS.
(** [calculateDistance] is the haversine formula on floating-point
    numbers; the evaluator is modelled over the distance it returns. *)
Variable calculateDistance : Location → Location → Z.

Definition checkGPSTrigger (objs : list MediaObject) (userLocation : Location)
    (w : World) : World :=
  forEach (λ obj w,
    if negb (ofKind gps obj) then w
    else if decide (id obj ∈ dismissedObjects (state w)) then w
    else
      let distance := calculateDistance userLocation (location obj) in
      let radius := numberOr (radius (params (trigger obj))) 10 in
      if decide (distance ≤ radius) then notifyActivation obj (Some objs) w else w)
    objs w.
End GPS.

Definition dismissTrigger (objectId : string) (w : World) : World :=
  with_state (λ s, set_activeObjects (activeObjects s ∖ {[objectId]})
                     (set_dismissedObjects ({[objectId]} ∪ dismissedObjects s) s)) w.

Definition manuallyActivate (object : MediaObject) (w : World) : World :=
  let w1 := with_state (λ s, set_activeObjects (activeObjects s ∖ {[id object]}) s) w in
  let w2 := invokeListeners object w1 in
  with_state (λ s, set_activeObjects ({[id object]} ∪ activeObjects s) s) w2.

Definition checkQRTrigger (objs : list MediaObject) (scannedCode : string)
    (w : World) : World :=
  forEach (λ obj w,
    if negb (ofKind qr obj) then w
    else if bool_decide (code (params (trigger obj)) = Some scannedCode)
            || bool_decide (id obj = scannedCode)
    then notifyActivation obj None w else w)
    objs w.

Definition checkShakeTrigger (objs : list MediaObject) (acceleration : Z)
    (w : World) : World :=
  forEach (λ obj w,
    if negb (ofKind shake obj) then w
    else
      let threshold := numberOr (threshold (params (trigger obj))) 15 in
      if decide (acceleration >= threshold) then notifyActivation obj None w else w)
    objs w.

Definition checkTiltTrigger (objs : list MediaObject) (beta gamma : Z)
    (w : World) : World :=
  forEach (λ obj w,
    if negb (ofKind tilt obj) then w
    else
      let targetAngle := numberOr (angle (params (trigger obj))) 30 in
      let tolerance := 15 in
      let within (x lo hi : Z) := bool_decide (lo ≤ x) && bool_decide (x ≤ hi) in
      let triggered :=
        match direction (params (trigger obj)) with
        | Some "forward" => within beta (targetAngle - tolerance) (targetAngle + tolerance)
        | Some "back" => within beta (- targetAngle - tolerance) (- targetAngle + tolerance)
        | Some "left" => within gamma (- targetAngle - tolerance) (- targetAngle + tolerance)
        | Some "right" => within gamma (targetAngle - tolerance) (targetAngle + tolerance)
        | _ => false
        end in
      if triggered then notifyActivation obj None w else w)
    objs w.

(** [((angle % 360) + 360) % 360] *)
Definition normalizeAngle (a : Z) : Z := Z.rem (Z.rem a 360 + 360) 360.

(** The test of [checkCompassTrigger] on one object. *)
Definition compassFires (obj : MediaObject) (currentHeading : Z) : bool :=
  let targetHeading := numberOr (heading (params (trigger obj))) 0 in
  let tolerance := numberOr (tolerance (params (trigger obj))) 30 in
  let diff := Z.abs (normalizeAngle (currentHeading - targetHeading)) in
  bool_decide (diff ≤ tolerance).

Definition checkCompassTrigger (objs : list MediaObject) (currentHeading : Z)
    (w : World) : World :=
  forEach (λ obj w,
    if negb (ofKind compass obj) then w
    else if compassFires obj currentHeading then notifyActivation obj None w else w)
    objs w.

(** [checkTouchTrigger], [checkDiceTrigger], [checkSpinnerTrigger] and
    [checkAITrigger] are the same loop at four kinds. *)
Definition checkTapTrigger (k : TriggerType) (objs : list MediaObject) (w : World) : World :=
  forEach (λ obj w, if negb (ofKind k obj) then w else notifyActivation obj None w) objs w.

Definition checkTouchTrigger := checkTapTrigger touch.
Definition checkDiceTrigger := checkTapTrigger dice.
Definition checkSpinnerTrigger := checkTapTrigger spinner.
Definition checkAITrigger := checkTapTrigger ai.

Definition startHoldDetection (w : World) : World :=
  with_state (set_touchStartTime (Some (now (host w)))) w.

Definition checkHoldTrigger (objs : list MediaObject) (w : World) : World :=
  match touchStartTime (state w) with
  | None => w
  | Some start =>
    if decide (start = 0) then w
    else
      let holdDuration := now (host w) - start in
      let w1 := forEach (λ obj w,
        if negb (ofKind hold obj) then w
        else
          let requiredDuration := numberOr (duration (params (trigger obj))) 2000 in
          if decide (holdDuration >= requiredDuration) then notifyActivation obj None w else w)
        objs w in
      with_state (set_touchStartTime None) w1
  end.

Definition startTimer (obj : MediaObject) (w : World) : World :=
  if negb (ofKind timer obj) then w
  else if decide (is_Some (timerTimeouts (state w) !! id obj)) then w
  else
    let delay := numberOr (delay (params (trigger obj))) 5000 in
    let '(timeoutId, w1) := setTimeout (TimerTrigger obj) delay w in
    with_state (λ s, set_timerTimeouts (<[id obj := timeoutId]> (timerTimeouts s)) s) w1.

Definition startTimerTriggers (objs : list MediaObject) (w : World) : World :=
  forEach startTimer objs w.

Definition clearTimerTriggers (w : World) : World :=
  let w1 := map_fold (λ _ t acc, clearTimeout t acc) w (timerTimeouts (state w)) in
  with_state (set_timerTimeouts ∅) w1.

Definition checkProximityTrigger (objs : list MediaObject) (nearbyDevices : Z)
    (w : World) : World :=
  forEach (λ obj w,
    if negb (ofKind proximity obj) then w
    else
      let minDevices := numberOr (minDevices (params (trigger obj))) 2 in
      if decide (nearbyDevices >= minDevices) then notifyActivation obj None w else w)
    objs w.

Definition resetActivation (objectId : string) (w : World) : World :=
  with_state (λ s, set_activeObjects (activeObjects s ∖ {[objectId]}) s) w.

Definition resetAllActivations (w : World) : World :=
  with_state (λ s, set_dismissedObjects ∅ (set_activeObjects ∅ s)) w.

Definition isActivated (objectId : string) (w : World) : bool :=
  bool_decide (objectId ∈ activeObjects (state w)).

(** ** The event loop: running a timer that is due *)

Definition runCallback (cb : Callback) (w : World) : World :=
  match cb with
  | StatusChangeTimer triggerId newStatus =>
    let w1 := setTriggerStatus triggerId newStatus w in
    let w2 := with_session (λ s, set_pendingTimers (delete triggerId (pendingTimers s)) s) w1 in
    persistSessionState w2
  | ArmEvaluationTimer triggerId =>
    let w1 :=
      match findObject triggerId w with
      | Some trigger =>
        if decide (getTriggerStatus triggerId w = idle) then
          let '(ok, w') := evaluateArmCondition trigger w in
          if ok then persistSessionState (setTriggerStatus triggerId armed w') else w'
        else w
      | None => w
      end in
    with_session (λ s, set_pendingTimers (delete (armKey triggerId) (pendingTimers s)) s) w1
  | DeactivateTimer objectId =>
    with_state (λ s, set_activeObjects (activeObjects s ∖ {[objectId]}) s) w
  | TimerTrigger obj =>
    let w1 := notifyActivation obj None w in
    with_state (λ s, set_timerTimeouts (delete (id obj) (timerTimeouts s)) s) w1
  end.

(** A pending timer whose time has come leaves the queue and its callback
    runs; before that, or for a cancelled handle, nothing happens. *)
Definition runTimer (t : positive) (w : World) : World :=
  match timers (host w) !! t with
  | Some (due, cb) =>
    if decide (due ≤ now (host w)) then runCallback cb (clearTimeout t w) else w
  | None => w
  end.

(** ** Notions used in the statements *)

(** What only touches the timer tables: [pendingTimers] of the session and
    the host's queue. *)
Definition retime (pt : gmap string positive) (n : positive)
    (q : gmap positive (Z * Callback)) (w : World) : World :=
  with_session (set_pendingTimers pt) (with_host (set_timers n q) w).

Definition armOk (trigger : MediaObject) (w : World) : bool :=
  (evaluateArmCondition trigger w).1.

(** The parts of the world that the chain state machine's status updates and
    timer bookkeeping never touch. *)
Record sameFrame (w w' : World) : Prop := {
  frame_state : state w' = state w;
  frame_objects : objects (sessionState w') = objects (sessionState w);
  frame_now : now (host w') = now (host w);
  frame_storage : localStorage (host w') = localStorage (host w);
  frame_writable : storageWritable (host w') = storageWritable (host w);
  frame_activations : activations (host w') = activations (host w)
}.

(** Does the loop body arm [trigger] in world [w]? *)
Definition stepArms (changed : string) (trigger : MediaObject) (w : World) : bool :=
  negb (bool_decide (id trigger = changed))
  && bool_decide (getTriggerStatus (id trigger) w = idle)
  && armOk trigger w.

(** Does a sweep over [l] started in world [w] arm the id [k]?  It does when
    [k] is not the changed id, is idle in [w], and some object of [l] with
    that id has an arm condition that evaluates true in [w]. *)
Definition armable (changed : string) (l : list MediaObject) (k : string) (w : World) : bool :=
  negb (bool_decide (k = changed))
  && bool_decide (getTriggerStatus k w = idle)
  && existsb (λ o, bool_decide (id o = k) && armOk o w) l.

(** A status event of the sweep: some id other than the changed one goes from
    idle (recorded or by default) to armed. *)
Definition armingEvent (changed : string)
    (e : string * TriggerStatus * option TriggerStatus) : Prop :=
  e.1.1 ≠ changed ∧ e.1.2 = armed ∧ (e.2 = None ∨ e.2 = Some idle).


(** The snapshot that a successful write leaves under the storage key. *)
Definition snapshotOf (w : World) : Snapshot :=
  {| snap_triggerStatus := triggerStatus (sessionState w);
     snap_statusChangedAt := statusChangedAt (sessionState w);
     snap_timestamp := now (host w) |}.

(** ** Sample objects and worlds *)

Definition noParams : TriggerParams :=
  {| radius := None; code := None; threshold := None; direction := None;
     angle := None; heading := None; tolerance := None; duration := None;
     delay := None; minDevices := None |}.

Definition sampleObject (i : string) (k : TriggerType) (c : option ChainCondition) : MediaObject :=
  {| id := i; active := true; location := {| lat := 0; lng := 0 |};
     trigger := {| type := k; params := noParams |};
     armCondition := c; repeatable := None; resetTimeout := None |}.

Definition after (dep : string) : option ChainCondition :=
  Some {| cond_type := afterTrigger; triggerId := Some dep;
          triggerIds := None; delayMs := None |}.

(** A fresh page: nothing recorded, one subscribed observer, clock at 1000. *)
Definition freshWorld : World :=
  {| sessionState := {| triggerStatus := ∅; statusChangedAt := ∅;
                        pendingTimers := ∅; objects := [] |};
     state := {| activeObjects := ∅; dismissedObjects := ∅; listeners := [7%nat];
                 touchStartTime := None; timerTimeouts := ∅ |};
     host := {| now := 1000; nextTimerId := 1%positive; timers := ∅;
                localStorage := None; storageWritable := true;
                statusEvents := []; activations := [] |} |}.

Definition objA : MediaObject := sampleObject "A" touch None.
Definition objB : MediaObject := sampleObject "B" touch (after "A").
Definition objC : MediaObject := sampleObject "C" touch (after "B").

(** The session of the chain A, B after A, C after B, just initialised:
    A is armed, B and C are idle. *)
Definition chainWorld : World := initializeSession [objA; objB; objC] freshWorld.

(** The calls that the observer [cb] has received, oldest first. *)
Definition callsTo (cb : nat) (log : list (nat * MediaObject)) : list MediaObject :=
  (filter (λ e, e.1 = cb) log).*2.

(** The circular angular difference of the specification: the shorter of the
    two arcs between the headings, in degrees. *)
Definition circularDifference (a b : Z) : Z :=
  Z.min (normalizeAngle (a - b)) (normalizeAngle (b - a)).

Definition compassObject (target tol : Z) : MediaObject :=
  {| id := "N"; active := true; location := {| lat := 0; lng := 0 |};
     trigger := {| type := compass;
                   params := {| radius := None; code := None; threshold := None;
                                direction := None; angle := None;
                                heading := Some target; tolerance := Some tol;
                                duration := None; delay := None;
                                minDevices := None |} |};
     armCondition := None; repeatable := None; resetTimeout := None |}.

Definition objShake : MediaObject := sampleObject "S" shake None.

(** The gate of [notifyActivation]: the object is not in the active set and,
    when it carries an arm condition, its chain status is [armed]. *)
Definition passesGate (object : MediaObject) (w : World) : bool :=
  negb (bool_decide (id object ∈ activeObjects (state w)))
  && match armCondition object with
     | Some _ => bool_decide (getTriggerStatus (id object) w = armed)
     | None => true
     end.

(** The fresh world after the user has dismissed object A. *)
Definition dismissedWorld : World := dismissTrigger "A" freshWorld.

Definition objTimer : MediaObject := sampleObject "T" timer None.

(** A timer object through one full cycle: started on a fresh page
    ([timerWorld1], handle 1 due after the default 5000 ms), fired
    ([timerWorld2]), removed from the active set by the 30000 ms
    auto-deactivation ([timerWorld3]), started again ([timerWorld4]) and
    fired again ([timerWorld5]). *)
Definition timerWorld1 : World := startTimerTriggers [objTimer] freshWorld.

(** A repeatable object with the default reset timeout, and the chain world
    in which it has been armed, activated ([repeatWorld]) and completed
    ([resetWorld]: the return to [armed] is pending on handle 1). *)
Definition objRepeat : MediaObject :=
  {| id := "R"; active := true; location := {| lat := 0; lng := 0 |};
     trigger := {| type := touch; params := noParams |};
     armCondition := None; repeatable := Some true; resetTimeout := None |}.

Definition repeatWorld : World :=
  (processTriggerActivation objRepeat None (initializeSession [objRepeat; objB] freshWorld)).2.

Definition resetWorld : World := completeTrigger "R" (Some objRepeat) None repeatWorld.

(** The chain world after A has fired. *)
Definition firedWorld : World := (processTriggerActivation objA None chainWorld).2.



(** ** A session seen as a sequence of events *)

(** Every call through which the rest of the application, or the host's
    event loop, drives the two services during a session. *)
Inductive Event :=
| Initialize (triggers : list MediaObject)
| Clear
| Activate (trigger : MediaObject) (allTriggers : option (list MediaObject))
| Complete (triggerId : string) (trigger : option MediaObject)
    (allTriggers : option (list MediaObject))
| Sweep (changedTriggerId : string) (allTriggers : list MediaObject)
| Notify (object : MediaObject) (allObjects : option (list MediaObject))
| CheckGPS (calculateDistance : Location → Location → Z)
    (objs : list MediaObject) (userLocation : Location)
| CheckQR (objs : list MediaObject) (scannedCode : string)
| CheckShake (objs : list MediaObject) (acceleration : Z)
| CheckTilt (objs : list MediaObject) (beta gamma : Z)
| CheckCompass (objs : list MediaObject) (currentHeading : Z)
| CheckTap (k : TriggerType) (objs : list MediaObject)
| StartHold
| CheckHold (objs : list MediaObject)
| StartTimers (objs : list MediaObject)
| ClearTimers
| CheckProximity (objs : list MediaObject) (nearbyDevices : Z)
| Manual (object : MediaObject)
| Dismiss (objectId : string)
| ResetActivation (objectId : string)
| ResetAll
| Subscribe (callback : nat)
| Unsubscribe (callback : nat)
| TimerDue (t : positive)
| Elapse (dt : Z).

Definition handle (e : Event) (w : World) : World :=
  match e with
  | Initialize triggers => initializeSession triggers w
  | Clear => clearSessionState w
  | Activate trigger allTriggers => (processTriggerActivation trigger allTriggers w).2
  | Complete triggerId trigger allTriggers => completeTrigger triggerId trigger allTriggers w
  | Sweep changedTriggerId allTriggers => updateDependentTriggers changedTriggerId allTriggers w
  | Notify object allObjects => notifyActivation object allObjects w
  | CheckGPS calculateDistance objs userLocation =>
    checkGPSTrigger calculateDistance objs userLocation w
  | CheckQR objs scannedCode => checkQRTrigger objs scannedCode w
  | CheckShake objs acceleration => checkShakeTrigger objs acceleration w
  | CheckTilt objs beta gamma => checkTiltTrigger objs beta gamma w
  | CheckCompass objs currentHeading => checkCompassTrigger objs currentHeading w
  | CheckTap k objs => checkTapTrigger k objs w
  | StartHold => startHoldDetection w
  | CheckHold objs => checkHoldTrigger objs w
  | StartTimers objs => startTimerTriggers objs w
  | ClearTimers => clearTimerTriggers w
  | CheckProximity objs nearbyDevices => checkProximityTrigger objs nearbyDevices w
  | Manual object => manuallyActivate object w
  | Dismiss objectId => dismissTrigger objectId w
  | ResetActivation objectId => resetActivation objectId w
  | ResetAll => resetAllActivations w
  | Subscribe callback => onTriggerActivation callback w
  | Unsubscribe callback => unsubscribe callback w
  | TimerDue t => runTimer t w
  | Elapse dt => advance dt w
  end.

Definition run (es : list Event) (w : World) : World :=
  fold_left (λ acc e, handle e acc) es w.

(** The dependency [dep] appears in no object: an object [x] is admissible
    for the dependent object [o] when its id is not [dep] and, if it has
    [o]'s id, it carries [o]'s arm condition. *)
Definition admissible (dep : string) (o x : MediaObject) : Prop :=
  id x ≠ dep ∧ (id x = id o → armCondition x = armCondition o).

Definition admissibleTimer (dep : string) (o : MediaObject) (cb : Callback) : Prop :=
  match cb with
  | StatusChangeTimer k _ => k ≠ dep ∧ k ≠ id o
  | _ => True
  end.

(** An event is admissible when the object list that its sweep walks, if it
    brings one, is. *)
Definition admissibleEvent (dep : string) (o : MediaObject) (e : Event) : Prop :=
  match e with
  | Activate _ allTriggers | Complete _ _ allTriggers | Notify _ allTriggers =>
    Forall (admissible dep o) (default [] allTriggers)
  | Initialize allTriggers | Sweep _ allTriggers | CheckGPS _ allTriggers _ =>
    Forall (admissible dep o) allTriggers
  | _ => True
  end.

(** The dependency is not assigned a status by what the page finds when it
    loads: no stored snapshot gives [dep] a status or [o] a status other
    than idle, and no pending status change targets either id. *)
Record unassigned (dep : string) (o : MediaObject) (w : World) : Prop := {
  storage_admissible : ∀ snap, localStorage (host w) = Some snap →
    snap_triggerStatus snap !! dep = None
    ∧ default idle (snap_triggerStatus snap !! id o) = idle;
  timers_admissible : map_Forall (λ _ e, admissibleTimer dep o e.2) (timers (host w))
}.

(** The dependent object [o] waits in world [w]: the dependency has no
    status, [o] is idle, and the dependency appears in no object of the
    session. *)
Record waiting (dep : string) (o : MediaObject) (w : World) : Prop := {
  dep_unassigned : triggerStatus (sessionState w) !! dep = None;
  dependent_idle : getTriggerStatus (id o) w = idle;
  session_admissible : Forall (admissible dep o) (objects (sessionState w));
  host_unassigned : unassigned dep o w
}.

(** An object that waits for an id, "ghost", that no object carries. *)
Definition objGhost : MediaObject := sampleObject "G" touch (after "ghost").

Definition ghostWorld : World := initializeSession [objA; objB; objGhost] freshWorld.

(** A short session on [ghostWorld]: A is activated and completed, B fires
    through the coordinator, time passes, a timer runs, a sweep is repeated. *)
Definition ghostSession : list Event :=
  [ Activate objA None; Complete "A" None None; CheckTap touch [objA; objB; objGhost];
    Elapse 40000; TimerDue 1; Sweep "A" [objA; objB; objGhost];
    Initialize [objA; objB; objGhost] ].

(** ** Notions used in the further properties *)

(** Everything but the host's timer queue is the same in both worlds. *)
Record onlyQueue (w w' : World) : Prop := {
  queue_session : sessionState w' = sessionState w;
  queue_state : state w' = state w;
  queue_now : now (host w') = now (host w);
  queue_next : nextTimerId (host w') = nextTimerId (host w);
  queue_storage : localStorage (host w') = localStorage (host w);
  queue_writable : storageWritable (host w') = storageWritable (host w);
  queue_statusEvents : statusEvents (host w') = statusEvents (host w);
  queue_activations : activations (host w') = activations (host w)
}.

(** The status that a cold start gives an object: no id has reached
    [triggered] or [completed] yet, so the verdict of [evaluateArmCondition]
    depends on the arm condition alone. *)
Definition armedAtStart (o : MediaObject) : bool :=
  match armCondition o with
  | None => true
  | Some c =>
    match cond_type c with
    | never => false
    | afterTrigger =>
      match triggerId c with
      | None => true
      | Some tid => bool_decide (tid = "")
      end
    | allOf => forallb (λ _, false) (default [] (triggerIds c))
    | anyOf => false
    | timerCondition => true
    end
  end.

(** [24 * 60 * 60 * 1000] *)
Definition dayMs : Z := 24 * 60 * 60 * 1000.

(** ** Confining the status of one id *)

(** A set [S] of entries of the status table (absent, or one of the four
    statuses) admits firing when an armed entry of [S] may become
    [triggered], and admits a restart when it contains what a cold start can
    write: nothing, [idle] or [armed]. *)
Definition fireable (S : option TriggerStatus → Prop) : Prop :=
  ∀ st, S st → default idle st = armed → S (Some triggered).

Definition restartable (S : option TriggerStatus → Prop) : Prop :=
  S None ∧ S (Some idle) ∧ S (Some armed).

(** An object may be handed to [notifyActivation] when that cannot take the
    id [k] out of [S]: the object has another id, or no arm condition (the
    state machine is then not consulted), or [S] admits firing. *)
Definition notifiable (k : string) (S : option TriggerStatus → Prop)
    (obj : MediaObject) : Prop :=
  id obj = k → is_Some (armCondition obj) → fireable S.

Definition confinedTimer (k : string) (S : option TriggerStatus → Prop)
    (cb : Callback) : Prop :=
  match cb with
  | StatusChangeTimer k' s => k' = k → S (Some s)
  | TimerTrigger obj => notifiable k S obj
  | _ => True
  end.

Definition confinedEvent (k : string) (S : option TriggerStatus → Prop)
    (e : Event) : Prop :=
  match e with
  | Initialize _ | Clear => restartable S
  | Activate trigger _ => id trigger = k → fireable S
  | Notify object _ => notifiable k S object
  | CheckGPS _ objs _ | CheckQR objs _ | CheckShake objs _ | CheckTilt objs _ _
  | CheckCompass objs _ | CheckTap _ objs | CheckHold objs | StartTimers objs
  | CheckProximity objs _ => Forall (notifiable k S) objs
  | _ => True
  end.

(** The entry of [k] is in [S], and so is what a pending timer or, if [S]
    admits a restart, the stored snapshot would write there. *)
Record confined (k : string) (S : option TriggerStatus → Prop) (w : World) : Prop := {
  conf_status : S (triggerStatus (sessionState w) !! k);
  conf_storage : restartable S → ∀ snap, localStorage (host w) = Some snap →
                 S (snap_triggerStatus snap !! k);
  conf_timers : map_Forall (λ _ e, confinedTimer k S e.2) (timers (host w))
}.

(** An event that neither starts nor ends a session. *)
Definition withinSession (e : Event) : Prop :=
  match e with
  | Initialize _ | Clear => False
  | _ => True
  end.

(** The objects that carry the id [d] have no arm condition. *)
Definition unconditioned (d : string) (obj : MediaObject) : Prop :=
  id obj = d → armCondition obj = None.

(** The events of the application, which reaches the chain state machine
    through the coordinator only: [processTriggerActivation] is not called
    directly on [d], and every object with the id [d] is unconditioned. *)
Definition throughCoordinator (d : string) (e : Event) : Prop :=
  match e with
  | Activate trigger _ => id trigger ≠ d
  | Notify object _ => unconditioned d object
  | CheckGPS _ objs _ | CheckQR objs _ | CheckShake objs _ | CheckTilt objs _ _
  | CheckCompass objs _ | CheckTap _ objs | CheckHold objs | StartTimers objs
  | CheckProximity objs _ => Forall (unconditioned d) objs
  | _ => True
  end.

(** The id [d] has not fired and nothing pending will make it: its status,
    the stored snapshot and the pending status changes keep it out of
    [triggered] and [completed], and the queued timer triggers for [d] are
    unconditioned. *)
Record unfired (d : string) (w : World) : Prop := {
  unfired_status : reached (triggerStatus (sessionState w) !! d) = false;
  unfired_storage : ∀ snap, localStorage (host w) = Some snap →
                    reached (snap_triggerStatus snap !! d) = false;
  unfired_timers : ∀ t due cb, timers (host w) !! t = Some (due, cb) →
    match cb with
    | StatusChangeTimer k s => k = d → reached (Some s) = false
    | TimerTrigger obj => unconditioned d obj
    | _ => True
    end
}.

(** An object without arm condition that others wait for. *)
Definition objPlain : MediaObject := sampleObject "P" touch None.
Definition objAfterPlain : MediaObject := sampleObject "Q" touch (after "P").

(** A session in which the plain object is shown and its overlay closed. *)
Definition plainSession : list Event :=
  [ Initialize [objPlain; objAfterPlain];
    CheckTap touch [objPlain; objAfterPlain];
    Dismiss "P"; Complete "P" (Some objPlain) (Some [objPlain; objAfterPlain]);
    Elapse 40000; TimerDue 1;
    CheckTap touch [objPlain; objAfterPlain] ].

(** The step from [w] to [w'] keeps the set of activation observers, and
    calls none but them. *)
Record hears (w w' : World) : Prop := {
  hears_listeners : listeners (state w') = listeners (state w);
  hears_log : ∃ new, activations (host w') = activations (host w) ++ new
                     ∧ Forall (λ x, x.1 ∈ listeners (state w)) new
}.

(** [trigger] waits for [dep] and then for [d] more milliseconds. *)
Definition armsAfter (dep : string) (d : Z) (trigger : MediaObject) : Prop :=
  ∃ c, armCondition trigger = Some c ∧ cond_type c = afterTrigger
       ∧ triggerId c = Some dep ∧ delayMs c = Some d.

Definition afterDelay (dep : string) (d : Z) : option ChainCondition :=
  Some {| cond_type := afterTrigger; triggerId := Some dep;
          triggerIds := None; delayMs := Some d |}.

Definition objDelayed : MediaObject := sampleObject "D" touch (afterDelay "A" 5000).

(** A is activated at 1000: the sweep defers D to 6000 under handle 1. *)
Definition delayWorld : World :=
  run [Initialize [objA; objDelayed]; Activate objA None] freshWorld.

(** A's overlay is closed at 4000, and the clock reaches 6000. *)
Definition lateWorld : World :=
  run [Elapse 3000; Complete "A" None None; Elapse 2000] delayWorld.

(** [generateQRData] of triggers.ts: [(code as string) || object.id], an
    absent or empty code gives the id. *)
Definition generateQRData (object : MediaObject) : string :=
  match code (params (trigger object)) with
  | Some c => if decide (c = "") then id object else c
  | None => id object
  end.

Definition objQR : MediaObject :=
  {| id := "Q1"; active := true; location := {| lat := 0; lng := 0 |};
     trigger := {| type := qr;
                   params := {| radius := None; code := Some "door-7"; threshold := None;
                                direction := None; angle := None; heading := None;
                                tolerance := None; duration := None; delay := None;
                                minDevices := None |} |};
     armCondition := None; repeatable := None; resetTimeout := None |}.

(** A status announcement [(id, status, previous)] that follows the state
    machine: it is a change, never one to [idle]; [triggered] is announced
    from [armed] and [completed] from [triggered]. *)
Definition lawful (e : string * TriggerStatus * option TriggerStatus) : Prop :=
  e.2 ≠ Some e.1.2
  ∧ match e.1.2 with
    | idle => False
    | armed => True
    | triggered => e.2 = Some armed
    | completed => e.2 = Some triggered
    end.

(** The only status that a queued status change sets is [armed]. *)
Definition armingTimer (cb : Callback) : Prop :=
  match cb with
  | StatusChangeTimer _ s => s = armed
  | _ => True
  end.

Record orderly (w : World) : Prop := {
  ord_log : Forall lawful (statusEvents (host w));
  ord_timers : map_Forall (λ _ e, armingTimer e.2) (timers (host w))
}.

(** A session on the chain A, B after A: A is shown and closed, then B. *)
Definition chainSession : list Event :=
  [ Initialize [objA; objB]; Activate objA None; Elapse 2000;
    Complete "A" None None; Activate objB None; Complete "B" None None ].

(** The tilt reading [(beta, gamma)] is within 15 degrees of the angle that
    the tilt object [o] asks for, on the axis and side of its direction. *)
Definition tiltHit (o : MediaObject) (beta gamma : Z) : Prop :=
  let t := numberOr (angle (params (trigger o))) 30 in
  (direction (params (trigger o)) = Some "forward" ∧ Z.abs (beta - t) ≤ 15)
  ∨ (direction (params (trigger o)) = Some "back" ∧ Z.abs (beta + t) ≤ 15)
  ∨ (direction (params (trigger o)) = Some "left" ∧ Z.abs (gamma + t) ≤ 15)
  ∨ (direction (params (trigger o)) = Some "right" ∧ Z.abs (gamma - t) ≤ 15).

Definition objTilt : MediaObject :=
  {| id := "T1"; active := true; location := {| lat := 0; lng := 0 |};
     trigger := {| type := tilt;
                   params := {| radius := None; code := None; threshold := None;
                                direction := Some "back"; angle := Some 45;
                                heading := None; tolerance := None; duration := None;
                                delay := None; minDevices := None |} |};
     armCondition := None; repeatable := None; resetTimeout := None |}.

Definition objHold : MediaObject := sampleObject "H1" hold None.

Definition objGPS : MediaObject := sampleObject "G1" gps None.

(** A stand-in for the haversine distance: the difference of latitudes. *)
Definition latitudeGap (p1 p2 : Location) : Z := Z.abs (lat p2 - lat p1).

(** ** The experience screen (ExperienceMode)

    The gesture handlers of the component, over the same world; the
    component's own display flags are not part of it.  [handleTouchStart]
    returns the value it stores in [touchStartRef]. *)
Definition handleTouchStart (w : World) : Z * World :=
  (now (host w), startHoldDetection w).

Definition handleTouchEnd (touchStartRef : Z) (activeObjects : list MediaObject)
    (w : World) : World :=
  let duration := now (host w) - touchStartRef in
  if decide (duration < 300) then
    checkAITrigger activeObjects
      (checkSpinnerTrigger activeObjects
         (checkDiceTrigger activeObjects (checkTouchTrigger activeObjects w)))
  else checkHoldTrigger activeObjects w.

Definition handleCloseOverlay (activatedObject : option MediaObject)
    (activeObjects : list MediaObject) (w : World) : World :=
  match activatedObject with
  | Some o => completeTrigger (id o) (Some o) (Some activeObjects) (dismissTrigger (id o) w)
  | None => w
  end.

(** A hold object that asks for 100 ms only. *)
Definition objQuickHold : MediaObject :=
  {| id := "H2"; active := true; location := {| lat := 0; lng := 0 |};
     trigger := {| type := hold;
                   params := {| radius := None; code := None; threshold := None;
                                direction := None; angle := None; heading := None;
                                tolerance := None; duration := Some 100;
                                delay := None; minDevices := None |} |};
     armCondition := None; repeatable := None; resetTimeout := None |}.

(** ** Chains (chainState.ts)

    [chainId] and [chainOrder] are fields of [ChainedMediaObject] that the
    state machine and the coordinator never read; the two chain queries see
    them through their accessors.  The quotient of [getChainProgress] is an
    exact rational. *)
Section Chains.
Variable chainId : MediaObject → option string.
Variable chainOrder : MediaObject → option Z.

(** [(a.chainOrder || 0)] *)
Definition orderOf (o : MediaObject) : Z := numberOr (chainOrder o) 0.

Definition byOrder (a b : MediaObject) : Prop := orderOf a ≤ orderOf b.

(** [Array.prototype.sort] with the comparator [orderOf a - orderOf b]: a
    stable sort, here by insertion from the right. *)
Fixpoint insertByOrder (x : MediaObject) (l : list MediaObject) : list MediaObject :=
  match l with
  | [] => [x]
  | y :: l' =>
    if decide (orderOf x ≤ orderOf y) then x :: y :: l' else y :: insertByOrder x l'
  end.

Definition sortByOrder (l : list MediaObject) : list MediaObject :=
  foldr insertByOrder [] l.

Definition getChainTriggers (c : string) (w : World) : list MediaObject :=
  sortByOrder (filter (λ o, chainId o = Some c) (objects (sessionState w))).

Definition getChainProgress (c : string) (w : World) : QArith_base.Q :=
  let triggers := getChainTriggers c w in
  if decide (length triggers = 0%nat) then QArith_base.Qmake 0 1
  else
    let completedCount :=
      length (filter (λ t, getTriggerStatus (id t) w = completed) triggers) in
    QArith_base.Qmake (Z.of_nat completedCount) (Pos.of_nat (length triggers)).
End Chains.

(** ** Notions used in the statements about [completeTrigger] *)

(** The object that [completeTrigger] consults: the one it is given or, for
    a call with the id alone, the first object of the session that has the
    id; none when the session has no object with the id. *)
Inductive consulted (triggerId : string) (w : World) :
    option MediaObject → option MediaObject → Prop :=
| consulted_given o : consulted triggerId w (Some o) (Some o)
| consulted_found l1 o l2 :
    objects (sessionState w) = l1 ++ o :: l2 → id o = triggerId →
    Forall (λ x, id x ≠ triggerId) l1 →
    consulted triggerId w None (Some o)
| consulted_unknown :
    Forall (λ x, id x ≠ triggerId) (objects (sessionState w)) →
    consulted triggerId w None None.





(** An earlier session in which the id G belonged to an object without arm
    condition: G was armed at the start, and the activation of A wrote the
    snapshot. *)
Definition objGhostBefore : MediaObject := sampleObject "G" touch None.

Definition earlierSession : World :=
  run [Initialize [objA; objGhostBefore]; Activate objA None] freshWorld.

(** The page is loaded again an hour later with G waiting for "ghost", and
    G is tapped. *)
Definition restoredGhostWorld : World :=
  run [Elapse 3600000; Initialize [objA; objGhost]; CheckTap touch [objA; objGhost]]
    earlierSession.

(** * Properties *)

(** ** The delay of a timer *)

Lemma hostDelay_small (d : Z) : 0 ≤ d < 2147483648 → hostDelay d = d.
Proof.
  intros Hd. unfold hostDelay, toInt32.
  rewrite Z.mod_small by lia. lia.
Qed.

Lemma hostDelay_overflow (d : Z) : 2147483648 ≤ d < 4294967296 → hostDelay d = 0.
Proof.
  intros Hd. unfold hostDelay, toInt32.
  assert ((d + 2147483648) `mod` 4294967296 = d - 2147483648) as ->.
  { symmetry. apply (Z.mod_unique _ _ 1); lia. }
  lia.
Qed.

Lemma hostDelay_nonneg (d : Z) : 0 ≤ hostDelay d.
Proof. unfold hostDelay. lia. Qed.

(** ** Reading the world after an update *)

Lemma retime_id (w : World) :
  retime (pendingTimers (sessionState w)) (nextTimerId (host w)) (timers (host w)) w = w.
Proof. by destruct w as [[] [] []]. Qed.

Lemma scheduleArmEvaluation_retime (i : string) (d : Z) (w : World) :
  ∃ pt n q, scheduleArmEvaluation i d w = retime pt n q w.
Proof.
  unfold scheduleArmEvaluation.
  destruct (pendingTimers (sessionState w) !! armKey i).
  - eexists _, _, _. symmetry. apply retime_id.
  - by eexists _, _, _.
Qed.

Lemma evaluateArmCondition_retime (trigger : MediaObject) (w : World) :
  ∃ pt n q, (evaluateArmCondition trigger w).2 = retime pt n q w.
Proof.
  assert (Hid : ∃ pt n q, w = retime pt n q w).
  { eexists _, _, _. symmetry. apply retime_id. }
  unfold evaluateArmCondition.
  repeat (case_match || case_decide); simpl;
    (exact Hid || apply scheduleArmEvaluation_retime).
Qed.

(** The verdict of [evaluateArmCondition] reads, of the whole world, which
    ids have reached [triggered] or [completed], when those did, and the
    clock. *)
Lemma armOk_ext (trigger : MediaObject) (w w' : World) :
  (∀ k, reached (triggerStatus (sessionState w') !! k)
        = reached (triggerStatus (sessionState w) !! k)) →
  (∀ k, reached (triggerStatus (sessionState w) !! k) = true →
        statusChangedAt (sessionState w') !! k = statusChangedAt (sessionState w) !! k) →
  now (host w') = now (host w) →
  armOk trigger w' = armOk trigger w.
Proof.
  intros Hr Hc Hn. unfold armOk, evaluateArmCondition.
  destruct (armCondition trigger) as [c|]; [|done].
  destruct (cond_type c); try done.
  - destruct (triggerId c) as [tid|]; [|done].
    destruct (decide (tid = "")); [done|].
    rewrite Hr. destruct (reached (triggerStatus (sessionState w) !! tid)) eqn:E; [|done].
    simpl. destruct (delayMs c) as [d|]; [|done].
    destruct (decide (d = 0)); [done|].
    rewrite (Hc tid E), Hn. by case_decide.
  - simpl. induction (default [] (triggerIds c)) as [|k l IH]; [done|].
    simpl. by rewrite Hr, IH.
  - simpl. induction (default [] (triggerIds c)) as [|k l IH]; [done|].
    simpl. by rewrite Hr, IH.
Qed.

(** ** [setTriggerStatus] *)

Lemma setTriggerStatus_lookup (i k : string) (s : TriggerStatus) (w : World) :
  triggerStatus (sessionState (setTriggerStatus i s w)) !! k =
  if decide (k = i) then Some s else triggerStatus (sessionState w) !! k.
Proof.
  unfold setTriggerStatus. case_decide as Hp; simpl.
  - case_decide; by subst.
  - rewrite lookup_insert. repeat case_decide; by subst.
Qed.

Lemma getTriggerStatus_set (i k : string) (s : TriggerStatus) (w : World) :
  getTriggerStatus k (setTriggerStatus i s w) =
  if decide (k = i) then s else getTriggerStatus k w.
Proof. unfold getTriggerStatus. rewrite setTriggerStatus_lookup. by case_decide. Qed.

Lemma setTriggerStatus_changedAt (i k : string) (s : TriggerStatus) (w : World) :
  k ≠ i →
  statusChangedAt (sessionState (setTriggerStatus i s w)) !! k
  = statusChangedAt (sessionState w) !! k.
Proof.
  intros Hk. unfold setTriggerStatus. case_decide; simpl; [done|].
  by rewrite lookup_insert_ne.
Qed.

Lemma sameFrame_refl w : sameFrame w w.
Proof. by split. Qed.

Lemma sameFrame_trans w1 w2 w3 : sameFrame w1 w2 → sameFrame w2 w3 → sameFrame w1 w3.
Proof. intros [] []. split; congruence. Qed.

Lemma sameFrame_retime pt n q w : sameFrame w (retime pt n q w).
Proof. by split. Qed.

Lemma sameFrame_setTriggerStatus i s w : sameFrame w (setTriggerStatus i s w).
Proof. unfold setTriggerStatus. case_decide; by split. Qed.

Lemma setTriggerStatus_changedAt_eq (i : string) (s : TriggerStatus) (w : World) :
  triggerStatus (sessionState w) !! i ≠ Some s →
  statusChangedAt (sessionState (setTriggerStatus i s w)) !! i = Some (now (host w)).
Proof.
  intros Hp. unfold setTriggerStatus. case_decide; [done|]. simpl.
  by rewrite lookup_insert_eq.
Qed.

Lemma setTriggerStatus_events (i : string) (s : TriggerStatus) (w : World) :
  statusEvents (host (setTriggerStatus i s w)) =
  statusEvents (host w) ++
    (if decide (triggerStatus (sessionState w) !! i = Some s) then []
     else [(i, s, triggerStatus (sessionState w) !! i)]).
Proof.
  unfold setTriggerStatus. case_decide; simpl; [|done]. by rewrite app_nil_r.
Qed.

Lemma setTriggerStatus_timers (i : string) (s : TriggerStatus) (w : World) :
  pendingTimers (sessionState (setTriggerStatus i s w)) = pendingTimers (sessionState w)
  ∧ timers (host (setTriggerStatus i s w)) = timers (host w)
  ∧ nextTimerId (host (setTriggerStatus i s w)) = nextTimerId (host w).
Proof. unfold setTriggerStatus. by case_decide. Qed.

(** ** The dependent-arming sweep *)

Lemma updateDependent_cases (changed : string) (trigger : MediaObject) (w : World) :
  ∃ pt n q,
    updateDependent changed trigger w =
    if stepArms changed trigger w
    then setTriggerStatus (id trigger) armed (retime pt n q w)
    else retime pt n q w.
Proof.
  unfold updateDependent, stepArms, armOk.
  destruct (evaluateArmCondition_retime trigger w) as (pt & n & q & He).
  destruct (evaluateArmCondition trigger w) as [ok w1]. simpl in *. subst w1.
  case_decide as Hc.
  { rewrite bool_decide_eq_true_2 by done. simpl.
    eexists _, _, _. symmetry. apply retime_id. }
  rewrite bool_decide_eq_false_2 by done. simpl.
  case_decide as Hi.
  - rewrite bool_decide_eq_true_2 by done. simpl. by exists pt, n, q.
  - rewrite bool_decide_eq_false_2 by done. simpl.
    eexists _, _, _. symmetry. apply retime_id.
Qed.

Lemma stepArms_idle changed trigger w :
  stepArms changed trigger w = true →
  id trigger ≠ changed
  ∧ (triggerStatus (sessionState w) !! id trigger = None
     ∨ triggerStatus (sessionState w) !! id trigger = Some idle)
  ∧ armOk trigger w = true.
Proof.
  unfold stepArms, getTriggerStatus. intros H.
  apply andb_true_iff in H as [H Ha]. apply andb_true_iff in H as [Hc Hi].
  apply negb_true_iff, bool_decide_eq_false in Hc.
  apply bool_decide_eq_true in Hi.
  split; [done|]. split; [|done].
  destruct (triggerStatus (sessionState w) !! id trigger) as [s|]; simpl in *; subst; auto.
Qed.

Lemma updateDependent_status changed trigger w k :
  triggerStatus (sessionState (updateDependent changed trigger w)) !! k =
  if bool_decide (id trigger = k) && stepArms changed trigger w then Some armed
  else triggerStatus (sessionState w) !! k.
Proof.
  destruct (updateDependent_cases changed trigger w) as (pt & n & q & ->).
  destruct (stepArms changed trigger w); simpl.
  - rewrite setTriggerStatus_lookup. simpl.
    case_decide; subst.
    + by rewrite bool_decide_eq_true_2.
    + by rewrite bool_decide_eq_false_2.
  - by rewrite andb_false_r.
Qed.

Lemma updateDependent_changedAt changed trigger w k :
  statusChangedAt (sessionState (updateDependent changed trigger w)) !! k =
  if bool_decide (id trigger = k) && stepArms changed trigger w then Some (now (host w))
  else statusChangedAt (sessionState w) !! k.
Proof.
  destruct (updateDependent_cases changed trigger w) as (pt & n & q & ->).
  destruct (stepArms changed trigger w) eqn:E; simpl.
  - apply stepArms_idle in E as (_ & Hi & _).
    destruct (decide (id trigger = k)) as [<-|Hk].
    + rewrite bool_decide_eq_true_2 by done.
      rewrite setTriggerStatus_changedAt_eq; [done|].
      simpl. by destruct Hi as [-> | ->].
    + rewrite bool_decide_eq_false_2 by done.
      by rewrite setTriggerStatus_changedAt.
  - by rewrite andb_false_r.
Qed.

Lemma updateDependent_frame changed trigger w :
  sameFrame w (updateDependent changed trigger w).
Proof.
  destruct (updateDependent_cases changed trigger w) as (pt & n & q & ->).
  destruct (stepArms changed trigger w).
  - eapply sameFrame_trans; [apply (sameFrame_retime pt n q)|].
    apply sameFrame_setTriggerStatus.
  - apply sameFrame_retime.
Qed.

(** Arming an idle id changes no verdict: the verdicts read only which ids
    are [triggered] or [completed]. *)
Lemma updateDependent_armOk changed trigger w o :
  armOk o (updateDependent changed trigger w) = armOk o w.
Proof.
  apply armOk_ext.
  - intros k. rewrite updateDependent_status.
    destruct (bool_decide (id trigger = k)) eqn:Ek; [|done].
    destruct (stepArms changed trigger w) eqn:E; [|done]. simpl.
    apply bool_decide_eq_true in Ek. subst k.
    apply stepArms_idle in E as (_ & [-> | ->] & _); done.
  - intros k Hk. rewrite updateDependent_changedAt.
    destruct (bool_decide (id trigger = k)) eqn:Ek; [|done].
    destruct (stepArms changed trigger w) eqn:E; [|done]. simpl.
    apply bool_decide_eq_true in Ek. subst k.
    apply stepArms_idle in E as (_ & [E | E] & _); by rewrite E in Hk.
  - apply updateDependent_frame.
Qed.

Lemma getTriggerStatus_updateDependent changed trigger w k :
  getTriggerStatus k (updateDependent changed trigger w) =
  if bool_decide (id trigger = k) && stepArms changed trigger w then armed
  else getTriggerStatus k w.
Proof.
  unfold getTriggerStatus. rewrite updateDependent_status. by case_match.
Qed.

Lemma armable_cons changed trigger l k w :
  armable changed (trigger :: l) k w =
  (bool_decide (id trigger = k) && stepArms changed trigger w)
  || armable changed l k (updateDependent changed trigger w).
Proof.
  unfold armable. simpl.
  assert (He : existsb (λ o, bool_decide (id o = k) && armOk o (updateDependent changed trigger w)) l
               = existsb (λ o, bool_decide (id o = k) && armOk o w) l).
  { induction l as [|o l IH]; [done|]. simpl.
    by rewrite IH, updateDependent_armOk. }
  rewrite He, getTriggerStatus_updateDependent. clear He.
  unfold stepArms.
  destruct (decide (id trigger = k)) as [<-|Hk].
  - rewrite !(bool_decide_eq_true_2 (id trigger = id trigger)) by done. simpl.
    destruct (bool_decide (id trigger = changed)); simpl; [done|].
    destruct (bool_decide (getTriggerStatus (id trigger) w = idle)) eqn:Ei; simpl;
      [|by rewrite Ei].
    destruct (armOk trigger w); simpl; [done|].
    by rewrite Ei.
  - rewrite !(bool_decide_eq_false_2 (id trigger = k)) by done. done.
Qed.

Lemma updateDependentTriggers_status changed l w k :
  triggerStatus (sessionState (updateDependentTriggers changed l w)) !! k =
  if armable changed l k w then Some armed else triggerStatus (sessionState w) !! k.
Proof.
  revert w. induction l as [|trigger l IH]; intros w.
  { unfold armable. simpl. by rewrite andb_false_r. }
  simpl. rewrite IH, armable_cons, updateDependent_status.
  destruct (bool_decide (id trigger = k) && stepArms changed trigger w) eqn:E; simpl; [|done].
  by destruct (armable changed l k _).
Qed.

Lemma updateDependentTriggers_frame changed l w :
  sameFrame w (updateDependentTriggers changed l w).
Proof.
  revert w. induction l as [|trigger l IH]; intros w; simpl.
  - apply sameFrame_refl.
  - eapply sameFrame_trans; [apply updateDependent_frame | apply IH].
Qed.

Lemma updateDependentTriggers_changedAt changed l w k :
  statusChangedAt (sessionState (updateDependentTriggers changed l w)) !! k =
  if armable changed l k w then Some (now (host w))
  else statusChangedAt (sessionState w) !! k.
Proof.
  revert w. induction l as [|trigger l IH]; intros w.
  { unfold armable. simpl. by rewrite andb_false_r. }
  simpl. rewrite IH, armable_cons, updateDependent_changedAt.
  rewrite (frame_now _ _ (updateDependent_frame changed trigger w)).
  destruct (bool_decide (id trigger = k) && stepArms changed trigger w) eqn:E; simpl; [|done].
  by destruct (armable changed l k _).
Qed.

Lemma updateDependent_events changed trigger w :
  ∃ evs, statusEvents (host (updateDependent changed trigger w)) = statusEvents (host w) ++ evs
         ∧ Forall (armingEvent changed) evs.
Proof.
  destruct (updateDependent_cases changed trigger w) as (pt & n & q & ->).
  destruct (stepArms changed trigger w) eqn:E.
  - apply stepArms_idle in E as (Hc & Hi & _).
    rewrite setTriggerStatus_events. simpl.
    eexists. split; [done|].
    case_decide; [constructor|].
    apply Forall_singleton. by repeat split.
  - exists []. by rewrite app_nil_r.
Qed.

Lemma updateDependentTriggers_events changed l w :
  ∃ evs, statusEvents (host (updateDependentTriggers changed l w)) = statusEvents (host w) ++ evs
         ∧ Forall (armingEvent changed) evs.
Proof.
  revert w. induction l as [|trigger l IH]; intros w; simpl.
  { exists []. by rewrite app_nil_r. }
  destruct (IH (updateDependent changed trigger w)) as (evs2 & -> & H2).
  destruct (updateDependent_events changed trigger w) as (evs1 & -> & H1).
  exists (evs1 ++ evs2). rewrite app_assoc. split; [done|]. by apply Forall_app.
Qed.








(** ** [persistSessionState] *)

Lemma persistSessionState_session w :
  sessionState (persistSessionState w) = sessionState w.
Proof. unfold persistSessionState. by case_match. Qed.

Lemma persistSessionState_state w : state (persistSessionState w) = state w.
Proof. unfold persistSessionState. by case_match. Qed.

Lemma persistSessionState_host w :
  host (persistSessionState w) =
  if storageWritable (host w) then
    set_localStorage (Some {| snap_triggerStatus := triggerStatus (sessionState w);
                              snap_statusChangedAt := statusChangedAt (sessionState w);
                              snap_timestamp := now (host w) |}) (host w)
  else host w.
Proof. unfold persistSessionState. by case_match. Qed.

Lemma persistSessionState_host_rest w :
  now (host (persistSessionState w)) = now (host w)
  ∧ nextTimerId (host (persistSessionState w)) = nextTimerId (host w)
  ∧ timers (host (persistSessionState w)) = timers (host w)
  ∧ storageWritable (host (persistSessionState w)) = storageWritable (host w)
  ∧ statusEvents (host (persistSessionState w)) = statusEvents (host w)
  ∧ activations (host (persistSessionState w)) = activations (host w).
Proof.
  unfold persistSessionState.
  destruct (storageWritable (host w)) eqn:E; simpl; rewrite ?E; done.
Qed.

Lemma persistSessionState_storage w :
  localStorage (host (persistSessionState w)) =
  if storageWritable (host w) then Some (snapshotOf (persistSessionState w))
  else localStorage (host w).
Proof.
  unfold snapshotOf. rewrite persistSessionState_session, persistSessionState_host.
  by destruct (storageWritable (host w)).
Qed.

(** ** [processTriggerActivation] *)

Lemma armable_true changed l k w :
  armable changed l k w = true ↔
  k ≠ changed ∧ getTriggerStatus k w = idle
  ∧ ∃ o, o ∈ l ∧ id o = k ∧ armOk o w = true.
Proof.
  unfold armable. rewrite !andb_true_iff, negb_true_iff, bool_decide_eq_false,
    bool_decide_eq_true, existsb_exists.
  split.
  - intros [[Hc Hi] (o & Ho & Hb)]. apply andb_true_iff in Hb as [Hk Ha].
    apply bool_decide_eq_true in Hk. apply list_elem_of_In in Ho. eauto 6.
  - intros (Hc & Hi & o & Ho & Hk & Ha). split; [done|].
    exists o. apply list_elem_of_In in Ho. split; [done|].
    by rewrite Ha, bool_decide_eq_true_2.
Qed.

(** C1. [processTriggerActivation] returns false and changes nothing unless
    the object's status is exactly [armed].  When it is [armed] the call
    returns true; the object's own transition to [triggered] comes first (it
    is the first status event of the call); the sweep then arms exactly the
    ids other than the object's that are idle in the post-transition world
    and carried by some object of the list whose arm condition evaluates
    true in that post-transition world, leaving every other status as it
    was; finally the snapshot of the resulting maps is written to storage
    (when the storage accepts the write). *)
Theorem processTriggerActivation_spec (trigger : MediaObject)
    (allTriggers : option (list MediaObject)) (w : World) :
  (getTriggerStatus (id trigger) w ≠ armed →
     processTriggerActivation trigger allTriggers w = (false, w))
  ∧ (getTriggerStatus (id trigger) w = armed →
     ∃ w', processTriggerActivation trigger allTriggers w = (true, w')
       ∧ let post := setTriggerStatus (id trigger) triggered w in
         let l := default (objects (sessionState w)) allTriggers in
         (∀ k, triggerStatus (sessionState post) !! k =
               if decide (k = id trigger) then Some triggered
               else triggerStatus (sessionState w) !! k)
         ∧ getTriggerStatus (id trigger) w' = triggered
         ∧ (∀ o, o ∈ l → id o ≠ id trigger → getTriggerStatus (id o) post = idle →
                 armOk o post = true → getTriggerStatus (id o) w' = armed)
         ∧ (∀ k, triggerStatus (sessionState w') !! k =
                 if armable (id trigger) l k post then Some armed
                 else triggerStatus (sessionState post) !! k)
         ∧ (∃ evs, statusEvents (host w') =
                     statusEvents (host w) ++ (id trigger, triggered, Some armed) :: evs
                   ∧ Forall (armingEvent (id trigger)) evs)
         ∧ localStorage (host w') =
             if storageWritable (host w) then Some (snapshotOf w')
             else localStorage (host w)).
Proof.
  unfold processTriggerActivation. split; intros Hs.
  { by rewrite decide_False. }
  rewrite decide_True by done. eexists. split; [reflexivity|].
  set (post := setTriggerStatus (id trigger) triggered w).
  assert (Hobj : objects (sessionState post) = objects (sessionState w))
    by apply (frame_objects _ _ (sameFrame_setTriggerStatus _ _ _)).
  rewrite Hobj.
  set (l := default (objects (sessionState w)) allTriggers).
  assert (Hstat : ∀ k, triggerStatus (sessionState (persistSessionState
              (updateDependentTriggers (id trigger) l post))) !! k =
            if armable (id trigger) l k post then Some armed
            else triggerStatus (sessionState post) !! k).
  { intros k. rewrite persistSessionState_session. apply updateDependentTriggers_status. }
  assert (Hprev : triggerStatus (sessionState w) !! id trigger = Some armed).
  { unfold getTriggerStatus in Hs.
    by destruct (triggerStatus (sessionState w) !! id trigger) as [s|]; simpl in *; subst. }
  simpl. repeat split.
  - intros k. apply setTriggerStatus_lookup.
  - unfold getTriggerStatus. rewrite Hstat.
    unfold armable. rewrite bool_decide_eq_true_2 by done. simpl.
    subst post. rewrite setTriggerStatus_lookup. by rewrite decide_True.
  - intros o Ho Hne Hi Ha. unfold getTriggerStatus. rewrite Hstat.
    assert (armable (id trigger) l (id o) post = true) as ->; [|done].
    apply armable_true. eauto 6.
  - exact Hstat.
  - rewrite persistSessionState_host.
    destruct (updateDependentTriggers_events (id trigger) l post) as (evs & He & Hf).
    exists evs. split; [|done].
    assert (statusEvents (host (updateDependentTriggers (id trigger) l post)) =
            statusEvents (host w) ++ (id trigger, triggered, Some armed) :: evs) as Hev.
    { rewrite He. subst post. rewrite setTriggerStatus_events, Hprev.
      rewrite decide_False by done. by rewrite <- app_assoc. }
    by destruct (storageWritable _).
  - rewrite persistSessionState_storage.
    pose proof (updateDependentTriggers_frame (id trigger) l post) as [_ _ _ Hst Hwr _].
    pose proof (sameFrame_setTriggerStatus (id trigger) triggered w) as [_ _ _ Hst' Hwr' _].
    fold post in Hst', Hwr'.
    rewrite Hwr, Hwr', Hst, Hst'. done.
Qed.

Lemma processTriggerActivation_spec_witness :
  processTriggerActivation objB None chainWorld = (false, chainWorld)
  ∧ ∃ w', processTriggerActivation objA None chainWorld = (true, w')
          ∧ getTriggerStatus "A" w' = triggered
          ∧ getTriggerStatus "B" w' = armed.
Proof.
  split.
  - apply (proj1 (processTriggerActivation_spec objB None chainWorld)).
    vm_compute. discriminate.
  - destruct (proj2 (processTriggerActivation_spec objA None chainWorld))
      as (w' & Hr & _ & Ht & Ha & _).
    { vm_compute. reflexivity. }
    exists w'. split; [exact Hr|]. split; [exact Ht|].
    apply (Ha objB).
    + vm_compute. apply list_elem_of_In. right. left. reflexivity.
    + vm_compute. discriminate.
    + vm_compute. reflexivity.
    + vm_compute. reflexivity.
Defined.

(** ** The sweep is a single pass *)

Lemma processTriggerActivation_armed trigger allTriggers w :
  getTriggerStatus (id trigger) w = armed →
  processTriggerActivation trigger allTriggers w =
  (true, persistSessionState
           (updateDependentTriggers (id trigger)
              (default (objects (sessionState w)) allTriggers)
              (setTriggerStatus (id trigger) triggered w))).
Proof.
  intros Hs. unfold processTriggerActivation. rewrite decide_True by done.
  by rewrite (frame_objects _ _ (sameFrame_setTriggerStatus _ _ _)).
Qed.

Lemma reached_idle k w :
  getTriggerStatus k w = idle → reached (triggerStatus (sessionState w) !! k) = false.
Proof.
  unfold getTriggerStatus.
  destruct (triggerStatus (sessionState w) !! k) as [s|]; simpl; [|done].
  by intros ->.
Qed.

(** An [afterTrigger] condition on a named dependency that has not reached
    [triggered] or [completed] evaluates false. *)
Lemma armOk_afterTrigger_unreached (o : MediaObject) (c : ChainCondition) (dep : string) w :
  armCondition o = Some c → cond_type c = afterTrigger → triggerId c = Some dep →
  dep ≠ "" → reached (triggerStatus (sessionState w) !! dep) = false →
  evaluateArmCondition o w = (false, w).
Proof.
  intros Hc Ht Hd Hne Hr. unfold evaluateArmCondition.
  rewrite Hc, Ht, Hd, decide_False, Hr by done. done.
Qed.

(** An undelayed [afterTrigger] condition on a dependency that is
    [triggered] evaluates true. *)
Lemma armOk_afterTrigger_triggered (o : MediaObject) (c : ChainCondition) (dep : string) w :
  armCondition o = Some c → cond_type c = afterTrigger → triggerId c = Some dep →
  delayMs c = None → getTriggerStatus dep w = triggered →
  armOk o w = true.
Proof.
  intros Hc Ht Hd Hdel Hs. unfold armOk, evaluateArmCondition.
  rewrite Hc, Ht, Hd, Hdel. case_decide; [done|].
  unfold getTriggerStatus in Hs.
  destruct (triggerStatus (sessionState w) !! dep) as [s|]; simpl in *; by subst.
Qed.

(** C7. In a chain where B is armed after A and C after B, with A armed and B
    and C idle, one [processTriggerActivation] on A (over the three objects
    in any order) makes A triggered and B armed and leaves C idle: C's
    condition asks for B to be triggered or completed, which being armed is
    not. *)
Theorem sweep_is_single_pass (A B C : MediaObject) (cb cc : ChainCondition)
    (allTriggers : option (list MediaObject)) (w : World) :
  default (objects (sessionState w)) allTriggers ≡ₚ [A; B; C] →
  id A ≠ id B → id A ≠ id C → id B ≠ id C → id B ≠ "" →
  armCondition B = Some cb → cond_type cb = afterTrigger →
  triggerId cb = Some (id A) → delayMs cb = None →
  armCondition C = Some cc → cond_type cc = afterTrigger →
  triggerId cc = Some (id B) →
  getTriggerStatus (id A) w = armed →
  getTriggerStatus (id B) w = idle →
  getTriggerStatus (id C) w = idle →
  ∃ w', processTriggerActivation A allTriggers w = (true, w')
        ∧ getTriggerStatus (id A) w' = triggered
        ∧ getTriggerStatus (id B) w' = armed
        ∧ getTriggerStatus (id C) w' = idle.
Proof.
  intros Hl Hab Hac Hbc Hb HB HBt HBd HBn HC HCt HCd HsA HsB HsC.
  rewrite processTriggerActivation_armed by done.
  set (post := setTriggerStatus (id A) triggered w).
  set (l := default (objects (sessionState w)) allTriggers) in *.
  eexists. split; [reflexivity|].
  assert (HpA : getTriggerStatus (id A) post = triggered).
  { subst post. rewrite getTriggerStatus_set. by rewrite decide_True. }
  assert (HpB : getTriggerStatus (id B) post = idle).
  { subst post. rewrite getTriggerStatus_set. by rewrite decide_False. }
  assert (HpC : getTriggerStatus (id C) post = idle).
  { subst post. rewrite getTriggerStatus_set. by rewrite decide_False. }
  unfold getTriggerStatus at 1 2 3.
  rewrite persistSessionState_session, !updateDependentTriggers_status.
  assert (armable (id A) l (id A) post = false) as ->.
  { unfold armable. by rewrite bool_decide_eq_true_2. }
  assert (armable (id A) l (id B) post = true) as ->.
  { apply armable_true. split; [done|]. split; [done|].
    exists B. split; [rewrite Hl; set_solver|]. split; [done|].
    by eapply armOk_afterTrigger_triggered. }
  assert (armable (id A) l (id C) post = false) as ->.
  { apply not_true_is_false. intros (_ & _ & o & Ho & Hk & Ha)%armable_true.
    rewrite Hl in Ho.
    assert (o = C) as ->.
    { apply elem_of_cons in Ho as [-> | Ho]; [congruence|].
      apply elem_of_cons in Ho as [-> | Ho]; [congruence|].
      by apply list_elem_of_singleton in Ho. }
    unfold armOk in Ha.
    rewrite (armOk_afterTrigger_unreached C cc (id B)) in Ha; try done.
    by apply reached_idle. }
  done.
Qed.

Lemma sweep_is_single_pass_witness :
  ∃ w', processTriggerActivation objA None chainWorld = (true, w')
        ∧ getTriggerStatus "A" w' = triggered
        ∧ getTriggerStatus "B" w' = armed
        ∧ getTriggerStatus "C" w' = idle.
Proof.
  apply (sweep_is_single_pass objA objB objC
           {| cond_type := afterTrigger; triggerId := Some "A";
              triggerIds := None; delayMs := None |}
           {| cond_type := afterTrigger; triggerId := Some "B";
              triggerIds := None; delayMs := None |}
           None chainWorld);
    try (vm_compute; (reflexivity || discriminate)).
Defined.

(** ** Observers *)

Lemma callsTo_app cb log1 log2 :
  callsTo cb (log1 ++ log2) = callsTo cb log1 ++ callsTo cb log2.
Proof. unfold callsTo. by rewrite filter_app, fmap_app. Qed.

Lemma callsTo_broadcast_out cb (object : MediaObject) (ls : list nat) :
  cb ∉ ls → callsTo cb (map (λ c, (c, object)) ls) = [].
Proof.
  unfold callsTo. induction ls as [|c ls IH]; [done|].
  intros [Hc Hls]%not_elem_of_cons. simpl.
  rewrite filter_cons_False by (simpl; congruence). by apply IH.
Qed.

Lemma callsTo_broadcast cb (object : MediaObject) (ls : list nat) :
  NoDup ls → cb ∈ ls → callsTo cb (map (λ c, (c, object)) ls) = [object].
Proof.
  induction ls as [|c ls IH]; intros Hnd Hin; [by apply elem_of_nil in Hin|].
  apply NoDup_cons in Hnd as [Hc Hnd].
  change (map (λ c0, (c0, object)) (c :: ls))
    with ([(c, object)] ++ map (λ c0, (c0, object)) ls).
  rewrite callsTo_app.
  destruct (decide (c = cb)) as [->|Hne].
  - rewrite callsTo_broadcast_out by done.
    unfold callsTo. by rewrite filter_cons_True.
  - apply elem_of_cons in Hin as [->|Hin]; [done|].
    rewrite IH by done. unfold callsTo. by rewrite filter_cons_False.
Qed.

(** ** [getTriggerStatus] *)

Lemma clearTimeouts_session {K} `{Countable K} (m : gmap K positive) (w : World) :
  sessionState (map_fold (λ _ t acc, clearTimeout t acc) w m) = sessionState w
  ∧ state (map_fold (λ _ t acc, clearTimeout t acc) w m) = state w.
Proof.
  apply (map_fold_weak_ind
    (λ r _, sessionState r = sessionState w ∧ state r = state w)); [done|].
  by intros i x m' r _ [? ?].
Qed.

(** C9. [getTriggerStatus] answers [idle] for every id without a recorded
    status: in any world where the id is absent from the status table, and
    for every id once [clearSessionState] has run.  An object that carries
    an arm condition and whose id has no recorded status is therefore not
    armed: [processTriggerActivation] refuses it and [notifyActivation]
    does nothing. *)
Theorem getTriggerStatus_defaults_to_idle (w : World) (k : string)
    (object : MediaObject) (allObjects : option (list MediaObject)) :
  (triggerStatus (sessionState w) !! k = None → getTriggerStatus k w = idle)
  ∧ getTriggerStatus k (clearSessionState w) = idle
  ∧ (is_Some (armCondition object) →
     triggerStatus (sessionState w) !! id object = None →
     processTriggerActivation object allObjects w = (false, w)
     ∧ notifyActivation object allObjects w = w).
Proof.
  split; [|split].
  - intros Hk. unfold getTriggerStatus. by rewrite Hk.
  - unfold getTriggerStatus, clearSessionState, clearAllTimers. simpl.
    by rewrite (proj1 (clearTimeouts_session _ _)).
  - intros [c Hc] Hk.
    assert (Hs : getTriggerStatus (id object) w = idle).
    { unfold getTriggerStatus. by rewrite Hk. }
    split.
    + unfold processTriggerActivation. rewrite Hs. by rewrite decide_False.
    + unfold notifyActivation. case_decide; [done|].
      rewrite Hc, Hs. by rewrite decide_False.
Qed.

Lemma getTriggerStatus_defaults_to_idle_witness :
  getTriggerStatus "B" freshWorld = idle
  ∧ processTriggerActivation objB None freshWorld = (false, freshWorld)
  ∧ notifyActivation objB None freshWorld = freshWorld.
Proof.
  destruct (getTriggerStatus_defaults_to_idle freshWorld "B" objB None)
    as (H1 & _ & H3).
  split.
  - apply H1. vm_compute. reflexivity.
  - apply H3.
    + vm_compute. eexists. reflexivity.
    + vm_compute. reflexivity.
Defined.

(** ** [manuallyActivate] *)

(** C10. [manuallyActivate] changes the active set, to which it adds the
    object's id, and calls the observers: every subscribed observer receives
    the object once.  The chain session state (every trigger status), the
    dismissed set, the other coordinator fields, the pending timers and the
    rest of the host are unchanged, and no timer is scheduled; a dismissed
    object stays dismissed. *)
Theorem manuallyActivate_frame (object : MediaObject) (w : World) :
  let w' := manuallyActivate object w in
  sessionState w' = sessionState w
  ∧ activeObjects (state w') = {[id object]} ∪ activeObjects (state w)
  ∧ dismissedObjects (state w') = dismissedObjects (state w)
  ∧ listeners (state w') = listeners (state w)
  ∧ touchStartTime (state w') = touchStartTime (state w)
  ∧ timerTimeouts (state w') = timerTimeouts (state w)
  ∧ activations (host w') =
      activations (host w) ++ map (λ cb, (cb, object)) (listeners (state w))
  ∧ (NoDup (listeners (state w)) → ∀ cb, cb ∈ listeners (state w) →
       callsTo cb (activations (host w')) = callsTo cb (activations (host w)) ++ [object])
  ∧ timers (host w') = timers (host w)
  ∧ nextTimerId (host w') = nextTimerId (host w)
  ∧ now (host w') = now (host w)
  ∧ localStorage (host w') = localStorage (host w)
  ∧ storageWritable (host w') = storageWritable (host w)
  ∧ statusEvents (host w') = statusEvents (host w)
  ∧ (id object ∈ dismissedObjects (state w) → id object ∈ dismissedObjects (state w')).
Proof.
  unfold manuallyActivate, invokeListeners. simpl.
  repeat split; try done.
  - apply set_eq. intros x. set_unfold. destruct (decide (x = id object)); tauto.
  - intros Hnd cb Hin. by rewrite callsTo_app, callsTo_broadcast.
Qed.

Lemma manuallyActivate_frame_witness :
  callsTo 7%nat (activations (host (manuallyActivate objA dismissedWorld))) = [objA]
  ∧ "A" ∈ dismissedObjects (state (manuallyActivate objA dismissedWorld)).
Proof.
  destruct (manuallyActivate_frame objA dismissedWorld) as (_ & _ & _ & _ & _ & _ & _ & Hc & _ & _ & _ & _ & _ & _ & Hd).
  split.
  - apply (Hc ltac:(vm_compute; apply NoDup_singleton) 7%nat).
    vm_compute. apply list_elem_of_In. left. reflexivity.
  - apply Hd. vm_compute. set_solver.
Defined.

(** ** The compass evaluator *)

Lemma normalizeAngle_range (a : Z) : 0 ≤ normalizeAngle a < 360.
Proof.
  unfold normalizeAngle.
  pose proof (Z.rem_bound_abs a 360 ltac:(lia)) as Hb.
  assert (-360 < Z.rem a 360 < 360) as Hr by lia.
  pose proof (Z.rem_bound_pos (Z.rem a 360 + 360) 360 ltac:(lia) ltac:(lia)).
  lia.
Qed.

(** The evaluator compares the tolerance with the clockwise offset of the
    heading from the target, a number of [0, 360): the absolute value in the
    source never changes it. *)
Lemma compassFires_clockwise (obj : MediaObject) (h : Z) :
  compassFires obj h =
  bool_decide (normalizeAngle (h - numberOr (heading (params (trigger obj))) 0)
               ≤ numberOr (tolerance (params (trigger obj))) 30).
Proof.
  unfold compassFires.
  pose proof (normalizeAngle_range (h - numberOr (heading (params (trigger obj))) 0)).
  by rewrite Z.abs_eq by lia.
Qed.

(** C5 (the code departs from the claim).  Target heading 5, tolerance 20,
    current heading 350: the circular difference is 15, within the
    tolerance, yet the evaluator computes 345 and does not fire, and no
    observer is called.  In the other direction (target 350, heading 5) the
    same 15 degrees do fire. *)
Theorem compass_misses_counterclockwise :
  circularDifference 350 5 = 15
  ∧ normalizeAngle (350 - 5) = 345
  ∧ compassFires (compassObject 5 20) 350 = false
  ∧ activations (host (checkCompassTrigger [compassObject 5 20] 350 freshWorld)) = []
  ∧ circularDifference 5 350 = 15
  ∧ compassFires (compassObject 350 20) 5 = true
  ∧ activations (host (checkCompassTrigger [compassObject 350 20] 5 freshWorld))
    = [(7%nat, compassObject 350 20)].
Proof. repeat split; vm_compute; reflexivity. Qed.

(** ** [notifyActivation] *)

Lemma processTriggerActivation_coordinator trigger allTriggers w :
  state (processTriggerActivation trigger allTriggers w).2 = state w
  ∧ activations (host (processTriggerActivation trigger allTriggers w).2)
    = activations (host w).
Proof.
  unfold processTriggerActivation. case_decide; [|done]. simpl.
  rewrite persistSessionState_state.
  rewrite (proj2 (proj2 (proj2 (proj2 (proj2 (persistSessionState_host_rest _)))))).
  pose proof (sameFrame_trans _ _ _
    (sameFrame_setTriggerStatus (id trigger) triggered w)
    (updateDependentTriggers_frame (id trigger)
       (default (objects (sessionState (setTriggerStatus (id trigger) triggered w)))
          allTriggers)
       (setTriggerStatus (id trigger) triggered w))) as [Hs _ _ _ _ Ha].
  done.
Qed.

Lemma notifyActivation_blocked object allObjects w :
  passesGate object w = false → notifyActivation object allObjects w = w.
Proof.
  unfold passesGate, notifyActivation. intros Hg.
  destruct (decide (id object ∈ activeObjects (state w))) as [Ha|Ha]; [done|].
  rewrite bool_decide_eq_false_2 in Hg by done. simpl in Hg.
  destruct (armCondition object); [|done].
  apply bool_decide_eq_false in Hg. by rewrite decide_False.
Qed.

Lemma notifyActivation_passed object allObjects w :
  passesGate object w = true →
  let w' := notifyActivation object allObjects w in
  activeObjects (state w') = {[id object]} ∪ activeObjects (state w)
  ∧ dismissedObjects (state w') = dismissedObjects (state w)
  ∧ listeners (state w') = listeners (state w)
  ∧ timerTimeouts (state w') = timerTimeouts (state w)
  ∧ activations (host w') =
      activations (host w) ++ map (λ cb, (cb, object)) (listeners (state w)).
Proof.
  unfold passesGate, notifyActivation. intros [Ha Hg]%andb_true_iff.
  apply negb_true_iff, bool_decide_eq_false in Ha.
  rewrite decide_False by done.
  assert (∃ w1, (match armCondition object with
                 | Some _ =>
                   if decide (getTriggerStatus (id object) w = armed)
                   then processTriggerActivation object allObjects w
                   else (false, w)
                 | None => (true, w)
                 end) = (true, w1)
                ∧ state w1 = state w ∧ activations (host w1) = activations (host w))
    as (w1 & -> & Hs & Hact).
  { destruct (armCondition object).
    - apply bool_decide_eq_true in Hg. rewrite decide_True by done.
      pose proof (processTriggerActivation_coordinator object allObjects w) as Hc.
      rewrite (processTriggerActivation_armed _ _ _ Hg) in Hc |- *.
      eexists. split; [reflexivity|]. exact Hc.
    - by exists w. }
  unfold invokeListeners.
  destruct (decide (default 30000 (resetTimeout object) > 0)); simpl;
    rewrite ?Hs, ?Hact; done.
Qed.

(** C2 (as amended).  Two calls of [notifyActivation] in succession for the
    same object: the second call changes nothing.  When the first call
    passes the gate (the object is not yet active and, if it carries an arm
    condition, its status is [armed]) the object's id enters the active set
    and every subscribed observer is called exactly once over the two calls;
    when the first call does not pass the gate no observer is called at
    all. *)
Theorem notifyActivation_twice (object : MediaObject)
    (allObjects allObjects' : option (list MediaObject)) (w : World) :
  notifyActivation object allObjects' (notifyActivation object allObjects w)
  = notifyActivation object allObjects w
  ∧ (passesGate object w = true →
       id object ∈ activeObjects (state (notifyActivation object allObjects w))
       ∧ (NoDup (listeners (state w)) → ∀ cb, cb ∈ listeners (state w) →
            callsTo cb (activations (host
              (notifyActivation object allObjects' (notifyActivation object allObjects w))))
            = callsTo cb (activations (host w)) ++ [object]))
  ∧ (passesGate object w = false →
       notifyActivation object allObjects' (notifyActivation object allObjects w) = w).
Proof.
  destruct (passesGate object w) eqn:Hg.
  - destruct (notifyActivation_passed object allObjects w Hg) as (Ha & _ & _ & _ & Hact).
    assert (Hin : id object ∈ activeObjects (state (notifyActivation object allObjects w))).
    { rewrite Ha. apply elem_of_union_l. by apply elem_of_singleton. }
    assert (Hsecond : notifyActivation object allObjects' (notifyActivation object allObjects w)
                      = notifyActivation object allObjects w).
    { apply notifyActivation_blocked. unfold passesGate.
      by rewrite bool_decide_eq_true_2. }
    split; [done|]. split; [|done].
    intros _. split; [done|].
    intros Hnd cb Hcb. rewrite Hsecond, Hact.
    by rewrite callsTo_app, callsTo_broadcast.
  - rewrite (notifyActivation_blocked object allObjects w Hg).
    rewrite (notifyActivation_blocked object allObjects' w Hg).
    split; [done|]. split; [done|]. done.
Qed.

Lemma notifyActivation_twice_witness :
  "A" ∈ activeObjects (state (notifyActivation objA None chainWorld))
  ∧ callsTo 7%nat (activations (host
      (notifyActivation objA None (notifyActivation objA None chainWorld)))) = [objA]
  ∧ notifyActivation objB None (notifyActivation objB None chainWorld) = chainWorld.
Proof.
  destruct (notifyActivation_twice objA None None chainWorld) as (_ & Hp & _).
  destruct (notifyActivation_twice objB None None chainWorld) as (_ & _ & Hb).
  destruct Hp as [Ha Hc]; [vm_compute; reflexivity|].
  split; [exact Ha|]. split.
  - apply (Hc ltac:(vm_compute; apply NoDup_singleton) 7%nat).
    vm_compute. apply list_elem_of_In. left. reflexivity.
  - apply Hb. vm_compute. reflexivity.
Defined.

(** C2 as stated fails: object B carries an arm condition and is idle, the
    observer is subscribed, and two calls in succession call it zero times,
    not once. *)
Lemma notifyActivation_twice_counterexample :
  ¬ (∀ (object : MediaObject) (allObjects : option (list MediaObject)) (w : World) (cb : nat),
       NoDup (listeners (state w)) → cb ∈ listeners (state w) →
       callsTo cb (activations (host
         (notifyActivation object allObjects (notifyActivation object allObjects w))))
       = callsTo cb (activations (host w)) ++ [object]).
Proof.
  intros H.
  specialize (H objB None chainWorld 7%nat).
  assert (Hnd : NoDup (listeners (state chainWorld))).
  { vm_compute. apply NoDup_singleton. }
  assert (Hin : 7%nat ∈ listeners (state chainWorld)).
  { vm_compute. apply list_elem_of_In. left. reflexivity. }
  specialize (H Hnd Hin). vm_compute in H. discriminate H.
Qed.

(** ** Dismissal *)

(** The GPS evaluator is the one that consults the dismissed set: whatever
    the distances, it never calls an observer for a dismissed object. *)
Lemma checkGPSTrigger_skips_dismissed (calculateDistance : Location → Location → Z)
    (objs : list MediaObject) (userLocation : Location) (w : World) :
  let w' := checkGPSTrigger calculateDistance objs userLocation w in
  dismissedObjects (state w') = dismissedObjects (state w)
  ∧ ∃ new, activations (host w') = activations (host w) ++ new
           ∧ Forall (λ e, id e.2 ∉ dismissedObjects (state w)) new.
Proof.
  unfold checkGPSTrigger. generalize (Some objs) as allObjects. intros allObjects.
  revert w. induction objs as [|obj objs IH]; intros w; simpl.
  { split; [done|]. exists []. by rewrite app_nil_r. }
  set (w1 := if negb (ofKind gps obj) then w
             else if decide (id obj ∈ dismissedObjects (state w)) then w
             else if decide (calculateDistance userLocation (location obj)
                             ≤ numberOr (radius (params (trigger obj))) 10)
                  then notifyActivation obj allObjects w else w).
  assert (Hstep : dismissedObjects (state w1) = dismissedObjects (state w)
                  ∧ ∃ new, activations (host w1) = activations (host w) ++ new
                           ∧ Forall (λ e, id e.2 ∉ dismissedObjects (state w)) new).
  { assert (Hsame : dismissedObjects (state w) = dismissedObjects (state w)
                    ∧ ∃ new, activations (host w) = activations (host w) ++ new
                             ∧ Forall (λ e, id e.2 ∉ dismissedObjects (state w)) new).
    { split; [done|]. exists []. by rewrite app_nil_r. }
    subst w1. destruct (negb (ofKind gps obj)); [done|].
    destruct (decide (id obj ∈ dismissedObjects (state w))) as [|Hnd]; [done|].
    case_decide; [|done].
    destruct (passesGate obj w) eqn:Hg.
    - destruct (notifyActivation_passed obj allObjects w Hg) as (_ & Hd & _ & _ & Ha).
      split; [done|]. eexists. split; [exact Ha|].
      apply Forall_forall. intros e [cb [-> _]]%(list_elem_of_fmap_1 (λ cb, (cb, obj))). done.
    - by rewrite notifyActivation_blocked. }
  destruct Hstep as (Hd1 & new1 & Ha1 & Hf1).
  destruct (IH w1) as (Hd2 & new2 & Ha2 & Hf2).
  unfold forEach in *. split; [congruence|].
  exists (new1 ++ new2). rewrite Ha2, Ha1, app_assoc. split; [done|].
  apply Forall_app. split; [done|]. by rewrite <- Hd1.
Qed.

(** C4 (the code departs from the claim).  A shake object fires, the user
    dismisses it, and the same shake arrives again: the observer is called a
    second time although the id is in the dismissed set, because
    [checkShakeTrigger] never consults that set. *)
Theorem dismissed_shake_fires_again :
  let w1 := checkShakeTrigger [objShake] 20 freshWorld in
  let w2 := dismissTrigger "S" w1 in
  let w3 := checkShakeTrigger [objShake] 20 w2 in
  callsTo 7%nat (activations (host w1)) = [objShake]
  ∧ "S" ∈ dismissedObjects (state w2)
  ∧ "S" ∈ dismissedObjects (state w3)
  ∧ callsTo 7%nat (activations (host w3)) = [objShake; objShake].
Proof.
  repeat split; vm_compute; reflexivity.
Qed.

(** ** Timer triggers *)



Lemma startTimer_fresh obj w :
  ofKind timer obj = true → timerTimeouts (state w) !! id obj = None →
  startTimer obj w =
  with_state (λ s, set_timerTimeouts (<[id obj := nextTimerId (host w)]> (timerTimeouts s)) s)
    (setTimeout (TimerTrigger obj) (numberOr (delay (params (trigger obj))) 5000) w).2.
Proof.
  intros Hk Hn. unfold startTimer. rewrite Hk. simpl.
  rewrite decide_False; [done|]. rewrite Hn. by intros [? ?].
Qed.










(** ** [completeTrigger] *)

Lemma scheduleStatusChange_session i s d w :
  triggerStatus (sessionState (scheduleStatusChange i s d w)) = triggerStatus (sessionState w)
  ∧ statusChangedAt (sessionState (scheduleStatusChange i s d w))
    = statusChangedAt (sessionState w)
  ∧ storageWritable (host (scheduleStatusChange i s d w)) = storageWritable (host w)
  ∧ sameFrame w (scheduleStatusChange i s d w).
Proof.
  unfold scheduleStatusChange.
  by destruct (pendingTimers (sessionState w) !! i).
Qed.




Lemma consulted_total triggerId w trigger :
  ∃ obj, consulted triggerId w trigger obj.
Proof.
  destruct trigger as [o|]; [exists (Some o); constructor|].
  assert (Hsplit : ∀ l : list MediaObject,
            Forall (λ x, id x ≠ triggerId) l
            ∨ ∃ l1 o l2, l = l1 ++ o :: l2 ∧ id o = triggerId
                         ∧ Forall (λ x, id x ≠ triggerId) l1).
  { induction l as [|x l IH]; [left; apply Forall_nil_2|].
    destruct (decide (id x = triggerId)) as [Hx|Hx].
    - right. exists [], x, l. split; [done|]. split; [done|apply Forall_nil_2].
    - destruct IH as [Hall|(l1 & o & l2 & -> & Ho & Hl1)].
      + left. by apply Forall_cons_2.
      + right. exists (x :: l1), o, l2. split; [done|]. split; [done|].
        by apply Forall_cons_2. }
  destruct (Hsplit (objects (sessionState w))) as [Hall|(l1 & o & l2 & Hobjs & Ho & Hl1)].
  - exists None. by constructor.
  - exists (Some o). by apply (consulted_found _ _ l1 o l2).
Qed.


Lemma getTriggerStatus_persist k w :
  getTriggerStatus k (persistSessionState w) = getTriggerStatus k w.
Proof. unfold getTriggerStatus. by rewrite persistSessionState_session. Qed.

Lemma getTriggerStatus_sweep_changed changed l w :
  getTriggerStatus changed (updateDependentTriggers changed l w)
  = getTriggerStatus changed w.
Proof.
  unfold getTriggerStatus. rewrite updateDependentTriggers_status.
  unfold armable. by rewrite bool_decide_eq_true_2.
Qed.

Lemma resetOrComplete_frame i obj w :
  sameFrame w (resetOrComplete i obj w)
  ∧ ∀ k, k ≠ i → triggerStatus (sessionState (resetOrComplete i obj w)) !! k
                 = triggerStatus (sessionState w) !! k.
Proof.
  unfold resetOrComplete.
  destruct obj as [o|]; repeat case_decide;
    first [ split; [apply sameFrame_setTriggerStatus|];
            intros k Hk; rewrite setTriggerStatus_lookup; by rewrite decide_False
          | split; [apply scheduleStatusChange_session|];
            intros k Hk; by rewrite (proj1 (scheduleStatusChange_session _ _ _ _)) ].
Qed.




(** ** A dependency that never appears *)

Section UnsatisfiableDependency.
Variables (dep : string) (o : MediaObject) (c : ChainCondition).
Hypothesis Hcond : armCondition o = Some c.
Hypothesis Htype : cond_type c = afterTrigger.
Hypothesis Hdep : triggerId c = Some dep.
Hypothesis Hnamed : dep ≠ "".

Lemma waiting_fails_closed w x :
  waiting dep o w → id x = id o → admissible dep o x →
  evaluateArmCondition x w = (false, w).
Proof.
  intros [Hd _ _ _] Hid [_ Hx].
  apply (armOk_afterTrigger_unreached x c dep); try done.
  - by rewrite Hx.
  - by rewrite Hd.
Qed.

(** The invariant reads the status table, the session's objects, the stored
    snapshot and the timer queue, and nothing else. *)
Lemma unassigned_same w w' :
  localStorage (host w') = localStorage (host w) →
  timers (host w') = timers (host w) →
  unassigned dep o w → unassigned dep o w'.
Proof. intros Hs Ht [Hst Hq]. split; by rewrite ?Hs, ?Ht. Qed.

Lemma waiting_same w w' :
  triggerStatus (sessionState w') = triggerStatus (sessionState w) →
  objects (sessionState w') = objects (sessionState w) →
  localStorage (host w') = localStorage (host w) →
  timers (host w') = timers (host w) →
  waiting dep o w → waiting dep o w'.
Proof.
  intros Hts Hobj Hs Ht [Hd Hi Ho Hu]. split.
  - by rewrite Hts.
  - unfold getTriggerStatus in *. by rewrite Hts.
  - by rewrite Hobj.
  - by apply (unassigned_same w).
Qed.

Lemma waiting_setTriggerStatus k s w :
  k ≠ dep → k ≠ id o → waiting dep o w → waiting dep o (setTriggerStatus k s w).
Proof.
  intros Hk1 Hk2 [Hd Hi Ho Hu]. split.
  - rewrite setTriggerStatus_lookup. by rewrite decide_False.
  - rewrite getTriggerStatus_set. by rewrite decide_False.
  - by rewrite (frame_objects _ _ (sameFrame_setTriggerStatus k s w)).
  - apply (unassigned_same w); [|apply setTriggerStatus_timers|done].
    apply (frame_storage _ _ (sameFrame_setTriggerStatus k s w)).
Qed.

Lemma unassigned_clearTimeout t w :
  unassigned dep o w → unassigned dep o (clearTimeout t w).
Proof. intros [Hs Hq]. split; [done|]. simpl. by apply map_Forall_delete. Qed.

Lemma waiting_setTimeout cb d w :
  admissibleTimer dep o cb → waiting dep o w → waiting dep o (setTimeout cb d w).2.
Proof.
  intros Hcb [Hd Hi Ho [Hs Hq]]. split; try done.
  split; [done|]. simpl. by apply map_Forall_insert_2.
Qed.

Lemma waiting_clearTimeout t w : waiting dep o w → waiting dep o (clearTimeout t w).
Proof.
  intros [Hd Hi Ho Hu]. split; try done. by apply unassigned_clearTimeout.
Qed.

Lemma clearTimeouts_unassigned {K} `{Countable K} (m : gmap K positive) (w : World) :
  unassigned dep o w →
  unassigned dep o (map_fold (λ _ t acc, clearTimeout t acc) w m).
Proof.
  intros Hu.
  apply (map_fold_weak_ind (λ r _, unassigned dep o r)); [done|].
  intros i t m' r _ Hr. by apply unassigned_clearTimeout.
Qed.

Lemma waiting_clearTimeouts {K} `{Countable K} (m : gmap K positive) (w : World) :
  waiting dep o w → waiting dep o (map_fold (λ _ t acc, clearTimeout t acc) w m).
Proof.
  intros [Hd Hi Ho Hu].
  destruct (clearTimeouts_session m w) as [Hs _].
  split; unfold getTriggerStatus in *; rewrite ?Hs; try done.
  by apply clearTimeouts_unassigned.
Qed.

Lemma waiting_with_state f w : waiting dep o w → waiting dep o (with_state f w).
Proof. by apply waiting_same. Qed.

Lemma waiting_set_pendingTimers pt w :
  waiting dep o w → waiting dep o (with_session (set_pendingTimers pt) w).
Proof. by apply waiting_same. Qed.

Lemma waiting_invokeListeners x w :
  waiting dep o w → waiting dep o (invokeListeners x w).
Proof. by apply waiting_same. Qed.

Lemma waiting_persist w : waiting dep o w → waiting dep o (persistSessionState w).
Proof.
  intros [Hd Hi Ho [Hs Hq]].
  destruct (persistSessionState_host_rest w) as (_ & _ & Ht & _).
  split.
  - by rewrite persistSessionState_session.
  - by rewrite getTriggerStatus_persist.
  - by rewrite persistSessionState_session.
  - split; [|by rewrite Ht].
    intros snap. rewrite persistSessionState_host.
    destruct (storageWritable (host w)); [|apply Hs].
    simpl. by intros [= <-].
Qed.

Lemma waiting_scheduleArmEvaluation i d w :
  waiting dep o w → waiting dep o (scheduleArmEvaluation i d w).
Proof.
  intros Hw. unfold scheduleArmEvaluation.
  destruct (pendingTimers (sessionState w) !! armKey i); [done|].
  apply (waiting_set_pendingTimers _ (setTimeout (ArmEvaluationTimer i) d w).2).
  by apply waiting_setTimeout.
Qed.

Lemma waiting_evaluateArmCondition x w :
  waiting dep o w → waiting dep o (evaluateArmCondition x w).2.
Proof.
  intros Hw. unfold evaluateArmCondition.
  repeat (case_match || case_decide); simpl;
    (exact Hw || by apply waiting_scheduleArmEvaluation).
Qed.

Lemma waiting_updateDependent changed x w :
  admissible dep o x → waiting dep o w → waiting dep o (updateDependent changed x w).
Proof.
  intros Hx Hw. unfold updateDependent.
  case_decide; [done|]. case_decide; [|done].
  pose proof (waiting_evaluateArmCondition x w Hw) as Hw1.
  destruct (evaluateArmCondition x w) as [ok w1] eqn:He. simpl in Hw1.
  destruct ok; [|done].
  apply waiting_setTriggerStatus; [apply Hx | | done].
  intros Hid. rewrite (waiting_fails_closed w x Hw Hid Hx) in He. discriminate He.
Qed.

Lemma waiting_updateDependentTriggers changed l w :
  Forall (admissible dep o) l → waiting dep o w →
  waiting dep o (updateDependentTriggers changed l w).
Proof.
  intros Hl. revert w. induction Hl as [|x l Hx Hl IH]; intros w Hw; [done|].
  simpl. by apply IH, waiting_updateDependent.
Qed.

Lemma waiting_not_status k s w :
  waiting dep o w → getTriggerStatus k w = s → s ≠ idle → k ≠ dep ∧ k ≠ id o.
Proof.
  intros [Hd Hi _ _] Hk Hs. split; intros ->.
  - unfold getTriggerStatus in Hk. rewrite Hd in Hk. by subst s.
  - congruence.
Qed.

Lemma waiting_lists allTriggers w :
  Forall (admissible dep o) (default [] allTriggers) → waiting dep o w →
  Forall (admissible dep o) (default (objects (sessionState w)) allTriggers).
Proof. intros Hl Hw. destruct allTriggers; [done|]. apply Hw. Qed.

Lemma waiting_processTriggerActivation trigger allTriggers w :
  Forall (admissible dep o) (default [] allTriggers) → waiting dep o w →
  waiting dep o (processTriggerActivation trigger allTriggers w).2.
Proof.
  intros Hl Hw.
  destruct (decide (getTriggerStatus (id trigger) w = armed)) as [Hs|Hs].
  - rewrite processTriggerActivation_armed by done. simpl.
    destruct (waiting_not_status _ _ _ Hw Hs) as [H1 H2]; [done|].
    apply waiting_persist, waiting_updateDependentTriggers.
    + by apply waiting_lists.
    + by apply waiting_setTriggerStatus.
  - unfold processTriggerActivation. by rewrite decide_False.
Qed.

Lemma waiting_scheduleStatusChange k s d w :
  k ≠ dep → k ≠ id o → waiting dep o w → waiting dep o (scheduleStatusChange k s d w).
Proof.
  intros H1 H2 Hw. unfold scheduleStatusChange.
  set (w1 := match pendingTimers (sessionState w) !! k with
             | Some existingTimer => clearTimeout existingTimer w
             | None => w
             end).
  assert (Hw1 : waiting dep o w1).
  { subst w1. destruct (pendingTimers (sessionState w) !! k); [|done].
    by apply waiting_clearTimeout. }
  apply (waiting_set_pendingTimers _ (setTimeout (StatusChangeTimer k s) d w1).2).
  by apply waiting_setTimeout.
Qed.

Lemma waiting_completeTrigger k trigger allTriggers w :
  Forall (admissible dep o) (default [] allTriggers) → waiting dep o w →
  waiting dep o (completeTrigger k trigger allTriggers w).
Proof.
  intros Hl Hw. unfold completeTrigger.
  case_decide as Hs; [|done].
  destruct (waiting_not_status _ _ _ Hw Hs) as [H1 H2]; [done|].
  apply waiting_persist, waiting_updateDependentTriggers; [by apply waiting_lists|].
  unfold resetOrComplete.
  repeat (case_match || case_decide);
    (by apply waiting_setTriggerStatus) || (by apply waiting_scheduleStatusChange).
Qed.

Lemma waiting_notifyActivation object allObjects w :
  Forall (admissible dep o) (default [] allObjects) → waiting dep o w →
  waiting dep o (notifyActivation object allObjects w).
Proof.
  intros Hl Hw. unfold notifyActivation.
  destruct (decide (id object ∈ activeObjects (state w))); [done|].
  set (gate := match armCondition object with
               | Some _ =>
                 if decide (getTriggerStatus (id object) w = armed)
                 then processTriggerActivation object allObjects w
                 else (false, w)
               | None => (true, w)
               end).
  assert (Hg : waiting dep o gate.2).
  { subst gate. destruct (armCondition object); [|done].
    case_decide; [|done]. by apply waiting_processTriggerActivation. }
  destruct gate as [proceed w1]. simpl in Hg.
  destruct proceed; [|done].
  assert (Hw3 : waiting dep o (invokeListeners object
            (with_state (λ s, set_activeObjects ({[id object]} ∪ activeObjects s) s) w1))).
  { by apply waiting_invokeListeners, waiting_with_state. }
  case_decide; [|done]. by apply waiting_setTimeout.
Qed.

Lemma waiting_forEach (body : MediaObject → World → World) objs w :
  (∀ obj w', waiting dep o w' → waiting dep o (body obj w')) →
  waiting dep o w → waiting dep o (forEach body objs w).
Proof.
  intros Hbody. revert w. induction objs as [|obj objs IH]; intros w Hw; [done|].
  apply IH, Hbody, Hw.
Qed.

Lemma waiting_runTimer t w : waiting dep o w → waiting dep o (runTimer t w).
Proof.
  intros Hw. unfold runTimer.
  destruct (timers (host w) !! t) as [[due cb]|] eqn:Et; [|done].
  case_decide; [|done].
  pose proof (timers_admissible _ _ _ (host_unassigned _ _ _ Hw) t (due, cb) Et) as Hcb.
  simpl in Hcb.
  pose proof (waiting_clearTimeout t w Hw) as Hw1.
  set (w1 := clearTimeout t w) in *.
  destruct cb as [k s|k|k|x]; simpl.
  - destruct Hcb as [H1 H2].
    apply waiting_persist.
    apply (waiting_set_pendingTimers _ (setTriggerStatus k s w1)).
    by apply waiting_setTriggerStatus.
  - apply waiting_set_pendingTimers.
    unfold findObject.
    destruct (List.find _ _) as [x|] eqn:Ef; [|done].
    apply find_some in Ef as [Hin Hid]. apply bool_decide_eq_true in Hid.
    assert (Hx : admissible dep o x).
    { pose proof (session_admissible _ _ _ Hw1) as Hall.
      rewrite Forall_forall in Hall. apply Hall. by apply list_elem_of_In. }
    case_decide; [|done].
    pose proof (waiting_evaluateArmCondition x w1 Hw1) as Hw2.
    destruct (evaluateArmCondition x w1) as [ok w2] eqn:He. simpl in Hw2.
    destruct ok; [|done].
    apply waiting_persist, waiting_setTriggerStatus; [by rewrite <- Hid; apply Hx | | done].
    intros Hk. rewrite (waiting_fails_closed w1 x Hw1) in He; [discriminate He| |done].
    by rewrite Hid.
  - by apply waiting_with_state.
  - apply waiting_with_state. by apply waiting_notifyActivation.
Qed.

Lemma waiting_initialStatus x w :
  admissible dep o x → waiting dep o w → waiting dep o (initialStatus x w).
Proof.
  intros Hx Hw. unfold initialStatus.
  pose proof (waiting_evaluateArmCondition x w Hw) as Hw1.
  destruct (evaluateArmCondition x w) as [ok w1] eqn:He. simpl in Hw1.
  destruct Hw1 as [Hd Hi Ho Hu]. split.
  - simpl. rewrite lookup_insert_ne; [done|]. apply Hx.
  - unfold getTriggerStatus in *. simpl. rewrite lookup_insert.
    case_decide as Hid; [|done].
    rewrite (waiting_fails_closed w x Hw Hid Hx) in He. by injection He as <- _.
  - done.
  - by apply (unassigned_same w1).
Qed.

Lemma waiting_initializeSession objs w :
  Forall (admissible dep o) objs → unassigned dep o w →
  waiting dep o (initializeSession objs w).
Proof.
  intros Hobjs Hu. unfold initializeSession.
  remember (with_session (λ s, set_objects objs
              (set_statusChangedAt ∅ (set_triggerStatus ∅ s))) w) as w1 eqn:Ew1.
  assert (Hw1 : waiting dep o w1).
  { subst w1. split; try done. by apply (unassigned_same w). }
  assert (Hempty : triggerStatus (sessionState w1) = ∅ ∧ objects (sessionState w1) = objs)
    by (by subst w1).
  clear Ew1 Hu.
  assert (Hw2 : waiting dep o (clearAllTimers w1)).
  { unfold clearAllTimers. by apply waiting_set_pendingTimers, waiting_clearTimeouts. }
  assert (Hobj2 : objects (sessionState (clearAllTimers w1)) = objs).
  { unfold clearAllTimers. simpl.
    rewrite (proj1 (clearTimeouts_session _ _)). apply Hempty. }
  set (w2 := clearAllTimers w1) in *. clearbody w2. clear Hw1 Hempty w1.
  assert (Hcold : ∀ w3, waiting dep o w3 →
            waiting dep o (fold_left (λ acc trigger, initialStatus trigger acc) objs w3)).
  { clear -Hobjs Hcond Htype Hdep Hnamed.
    induction Hobjs as [|x l Hx Hl IH]; intros w Hw; [done|].
    simpl. by apply IH, waiting_initialStatus. }
  unfold restoreSessionState.
  destruct (localStorage (host w2)) as [data|] eqn:Hst; [|by apply Hcold].
  case_decide.
  - apply Hcold. destruct Hw2 as [Hd Hi Ho [Hs Hq]]. by split.
  - destruct Hw2 as [Hd Hi Ho [Hs Hq]].
    destruct (Hs data Hst) as [Hsd Hsi]. by split.
Qed.

Lemma waiting_clearSessionState w :
  waiting dep o w → waiting dep o (clearSessionState w).
Proof.
  intros [_ _ _ Hu]. unfold clearSessionState, clearAllTimers.
  set (w1 := with_session (λ s, set_objects []
               (set_statusChangedAt ∅ (set_triggerStatus ∅ s))) w).
  assert (Hw1 : waiting dep o w1).
  { split; try done. by apply (unassigned_same w). }
  pose proof (waiting_clearTimeouts (pendingTimers (sessionState w1)) w1 Hw1)
    as [Hd Hi Ho [Hs Hq]].
  by split.
Qed.

Lemma waiting_handle e w :
  admissibleEvent dep o e → waiting dep o w → waiting dep o (handle e w).
Proof.
  intros He Hw.
  assert (Hnone : Forall (admissible dep o) (default [] None)) by apply Forall_nil_2.
  destruct e; simpl in *.
  - apply waiting_initializeSession; [done | apply Hw].
  - by apply waiting_clearSessionState.
  - by apply waiting_processTriggerActivation.
  - by apply waiting_completeTrigger.
  - by apply waiting_updateDependentTriggers.
  - by apply waiting_notifyActivation.
  - unfold checkGPSTrigger.
    apply waiting_forEach; [|done]. intros obj w' Hw'. cbv zeta.
    repeat (match goal with |- waiting _ _ (if ?b then _ else _) => destruct b end);
      try done.
    by apply waiting_notifyActivation.
  - unfold checkQRTrigger.
    apply waiting_forEach; [|done]. intros obj w' Hw'.
    repeat (match goal with |- waiting _ _ (if ?b then _ else _) => destruct b end);
      try done.
    by apply waiting_notifyActivation.
  - unfold checkShakeTrigger.
    apply waiting_forEach; [|done]. intros obj w' Hw'. cbv zeta.
    destruct (negb (ofKind shake obj)); [done|]. case_decide; [|done].
    by apply waiting_notifyActivation.
  - unfold checkTiltTrigger.
    apply waiting_forEach; [|done]. intros obj w' Hw'. cbv zeta.
    repeat (match goal with |- waiting _ _ (if ?b then _ else _) => destruct b end);
      try done.
    by apply waiting_notifyActivation.
  - unfold checkCompassTrigger.
    apply waiting_forEach; [|done]. intros obj w' Hw'.
    repeat (match goal with |- waiting _ _ (if ?b then _ else _) => destruct b end);
      try done.
    by apply waiting_notifyActivation.
  - unfold checkTapTrigger.
    apply waiting_forEach; [|done]. intros obj w' Hw'.
    destruct (negb (ofKind k obj)); [done|].
    by apply waiting_notifyActivation.
  - by apply waiting_with_state.
  - unfold checkHoldTrigger.
    destruct (touchStartTime (state w)) as [start|]; [|done].
    case_decide; [done|].
    apply waiting_with_state, waiting_forEach; [|done]. intros obj w' Hw'. cbv zeta.
    destruct (negb (ofKind hold obj)); [done|]. case_decide; [|done].
    by apply waiting_notifyActivation.
  - apply waiting_forEach; [|done]. intros obj w' Hw'. unfold startTimer.
    destruct (negb (ofKind timer obj)); [done|]. case_decide; [done|].
    apply (waiting_with_state _
      (setTimeout (TimerTrigger obj) (numberOr (delay (params (trigger obj))) 5000) w').2).
    by apply waiting_setTimeout.
  - unfold clearTimerTriggers. by apply waiting_with_state, waiting_clearTimeouts.
  - unfold checkProximityTrigger.
    apply waiting_forEach; [|done]. intros obj w' Hw'. cbv zeta.
    destruct (negb (ofKind proximity obj)); [done|]. case_decide; [|done].
    by apply waiting_notifyActivation.
  - unfold manuallyActivate.
    by apply waiting_with_state, waiting_invokeListeners, waiting_with_state.
  - by apply waiting_with_state.
  - by apply waiting_with_state.
  - by apply waiting_with_state.
  - unfold onTriggerActivation. case_decide; [done|]. by apply waiting_with_state.
  - by apply waiting_with_state.
  - by apply waiting_runTimer.
  - by apply (waiting_same w).
Qed.

Lemma waiting_run es w :
  Forall (admissibleEvent dep o) es → waiting dep o w → waiting dep o (run es w).
Proof.
  intros Hes. revert w. induction Hes as [|e es He Hes IH]; intros w Hw; [done|].
  simpl. by apply IH, waiting_handle.
Qed.

End UnsatisfiableDependency.

(** C6 (as amended).  Let the arm condition of object [o] be
    [afterTrigger] on a named dependency [dep] that appears in no object:
    every object list in play is admissible (no object has the id [dep]; an
    object with [o]'s id carries [o]'s condition).  Let, in addition, the
    page find nothing that assigns a status behind the session's back: a
    stored snapshot, if there is one, has no entry for [dep] and records
    [o] as idle or not at all, and no pending status change targets [dep]
    or [o].  Then [initializeSession] leaves [o] waiting, and after every
    further sequence of events (activations through any evaluator,
    completions, sweeps, manual calls, timers becoming due, time passing,
    even a reload of the session) [o] still waits: [evaluateArmCondition]
    returns false, with no effect, and the status of [o] is [idle]. *)
Theorem unsatisfiable_dependency_stays_idle (dep : string) (o : MediaObject)
    (c : ChainCondition) (objs : list MediaObject) (es : list Event) (w0 : World) :
  armCondition o = Some c → cond_type c = afterTrigger →
  triggerId c = Some dep → dep ≠ "" →
  Forall (admissible dep o) objs →
  unassigned dep o w0 →
  Forall (admissibleEvent dep o) es →
  let w := run es (initializeSession objs w0) in
  evaluateArmCondition o w = (false, w)
  ∧ getTriggerStatus (id o) w = idle
  ∧ triggerStatus (sessionState w) !! dep = None.
Proof.
  intros Hcond Htype Hdep Hnamed Hobjs Hu Hes.
  pose proof (waiting_initializeSession dep o c Hcond Htype Hdep Hnamed objs w0 Hobjs Hu)
    as Hw0.
  pose proof (waiting_run dep o c Hcond Htype Hdep Hnamed es _ Hes Hw0) as Hw.
  simpl. split; [|split; apply Hw].
  apply (armOk_afterTrigger_unreached o c dep); try done.
  by rewrite (dep_unassigned _ _ _ Hw).
Qed.

Lemma unsatisfiable_dependency_stays_idle_witness :
  getTriggerStatus "B" (run ghostSession ghostWorld) = triggered
  ∧ evaluateArmCondition objGhost (run ghostSession ghostWorld)
    = (false, run ghostSession ghostWorld)
  ∧ getTriggerStatus "G" (run ghostSession ghostWorld) = idle.
Proof.
  assert (Hobjs : Forall (admissible "ghost" objGhost) [objA; objB; objGhost]).
  { repeat constructor; (discriminate || (intros Hid; discriminate Hid) || reflexivity). }
  assert (Hes : Forall (admissibleEvent "ghost" objGhost) ghostSession).
  { unfold ghostSession.
    repeat (apply Forall_cons_2;
            [simpl; first [exact Hobjs | exact I | apply Forall_nil_2]|]).
    apply Forall_nil_2. }
  assert (Hu : unassigned "ghost" objGhost freshWorld).
  { split; [intros snap Hs; discriminate Hs | apply map_Forall_empty]. }
  destruct (unsatisfiable_dependency_stays_idle "ghost" objGhost
              {| cond_type := afterTrigger; triggerId := Some "ghost";
                 triggerIds := None; delayMs := None |}
              [objA; objB; objGhost] ghostSession freshWorld)
    as (He & Hi & _);
    [reflexivity | reflexivity | reflexivity | discriminate | exact Hobjs | exact Hu
     | exact Hes |].
  split; [vm_compute; reflexivity|]. split; [exact He | exact Hi].
Defined.

(** C6 as stated fails when the page restores a snapshot.  In an earlier
    session the id G belonged to an object without arm condition, so G was
    armed, and the activation of A stored that.  An hour later the page is
    loaded with G waiting for "ghost", an id that no object carries and
    that is never assigned a status.  [initializeSession] restores the
    snapshot and skips the evaluation of the arm conditions, so G is
    [armed]; a tap then fires it and the observer is called for it. *)
Lemma unsatisfiable_dependency_fires_after_restore :
  armCondition objGhost = after "ghost"
  ∧ Forall (admissible "ghost" objGhost) [objA; objGhost]
  ∧ (∃ snap, localStorage (host earlierSession) = Some snap
             ∧ snap_triggerStatus snap !! "ghost" = None
             ∧ snap_triggerStatus snap !! "G" = Some armed)
  ∧ timers (host earlierSession) = ∅
  ∧ getTriggerStatus "G"
      (run [Elapse 3600000; Initialize [objA; objGhost]] earlierSession) = armed
  ∧ triggerStatus (sessionState restoredGhostWorld) !! "ghost" = None
  ∧ getTriggerStatus "G" restoredGhostWorld = triggered
  ∧ callsTo 7%nat (activations (host restoredGhostWorld)) = [objA; objGhost].
Proof.
  split; [reflexivity|]. split.
  { repeat (apply Forall_cons_2; [split; [discriminate|]; intros Hid;
                                  first [discriminate Hid | reflexivity]|]).
    apply Forall_nil_2. }
  split; [eexists; split; [vm_compute; reflexivity|]; split; vm_compute; reflexivity|].
  repeat split; vm_compute; reflexivity.
Qed.

(** * Further properties of the two services *)

(** ** Angles *)

(** [normalizeAngle] returns the representative of the angle in [0, 360),
    for negative angles too, and has period 360. *)
Theorem normalizeAngle_mod (a k : Z) :
  normalizeAngle a = a `mod` 360
  ∧ 0 ≤ normalizeAngle a < 360
  ∧ normalizeAngle (a + 360 * k) = normalizeAngle a
  ∧ normalizeAngle (normalizeAngle a) = normalizeAngle a.
Proof.
  assert (Hmod : ∀ x, normalizeAngle x = x `mod` 360).
  { intros x. unfold normalizeAngle.
    pose proof (Z.rem_bound_abs x 360 ltac:(lia)) as Hb.
    rewrite (Z.rem_mod_nonneg (Z.rem x 360 + 360) 360) by lia.
    rewrite <- (Z.mul_1_l 360) at 2. rewrite Z.mod_add by lia.
    rewrite (Z.rem_eq x 360) by lia.
    rewrite Z.mul_comm, <- Z.add_opp_r, <- Z.mul_opp_l. by rewrite Z.mod_add by lia. }
  split; [apply Hmod|]. split; [apply normalizeAngle_range|]. split.
  - rewrite !Hmod. rewrite (Z.mul_comm 360 k). by rewrite Z.mod_add by lia.
  - rewrite !Hmod. by rewrite Z.mod_mod by lia.
Qed.

(** The compass evaluator fires exactly when the heading lies at most
    [tolerance] degrees clockwise of the target, whatever full turns either
    of them carries. *)
Theorem compassFires_mod (obj : MediaObject) (h k : Z) :
  (compassFires obj h = true ↔
   (h - numberOr (heading (params (trigger obj))) 0) `mod` 360
   ≤ numberOr (tolerance (params (trigger obj))) 30)
  ∧ compassFires obj (h + 360 * k) = compassFires obj h.
Proof.
  rewrite !compassFires_clockwise.
  destruct (normalizeAngle_mod (h - numberOr (heading (params (trigger obj))) 0) k)
    as (Hm & _ & Hp & _).
  split.
  - by rewrite bool_decide_eq_true, Hm.
  - replace (h + 360 * k - numberOr (heading (params (trigger obj))) 0)
      with (h - numberOr (heading (params (trigger obj))) 0 + 360 * k) by lia.
    by rewrite Hp.
Qed.

(** ** Evaluators and the objects they look at *)

Lemma forEach_skip (body : MediaObject → World → World) objs w :
  Forall (λ obj, ∀ w', body obj w' = w') objs → forEach body objs w = w.
Proof.
  intros Hall. revert w. induction Hall as [|obj objs Hobj Hall IH]; intros w; [done|].
  unfold forEach in *. simpl. by rewrite Hobj.
Qed.

Lemma ofKind_inactive k obj : active obj = false → ofKind k obj = false.
Proof. intros Ha. unfold ofKind. by rewrite Ha. Qed.

(** An evaluator does nothing at all for a list in which no object is both
    active and of its kind; in particular inactive objects are invisible to
    every evaluator and to the timer start.  [checkHoldTrigger] still ends
    the hold that was in progress. *)
Theorem evaluators_skip_other_objects (k : TriggerType) (objs : list MediaObject)
    (w : World) :
  Forall (λ obj, ofKind k obj = false) objs →
  (k = gps → ∀ dist loc, checkGPSTrigger dist objs loc w = w)
  ∧ (k = qr → ∀ scanned, checkQRTrigger objs scanned w = w)
  ∧ (k = shake → ∀ a, checkShakeTrigger objs a w = w)
  ∧ (k = tilt → ∀ beta gamma, checkTiltTrigger objs beta gamma w = w)
  ∧ (k = compass → ∀ h, checkCompassTrigger objs h w = w)
  ∧ checkTapTrigger k objs w = w
  ∧ (k = hold →
     checkHoldTrigger objs w = w
     ∨ checkHoldTrigger objs w = with_state (set_touchStartTime None) w)
  ∧ (k = timer → startTimerTriggers objs w = w)
  ∧ (k = proximity → ∀ n, checkProximityTrigger objs n w = w).
Proof.
  intros Hall.
  assert (Hskip : ∀ body : MediaObject → World → World,
            (∀ obj w', ofKind k obj = false → body obj w' = w') →
            ∀ w', forEach body objs w' = w').
  { intros body Hbody w'. apply forEach_skip.
    eapply Forall_impl; [exact Hall|]. intros obj Hk w''. by apply Hbody. }
  split; [intros -> dist loc; apply Hskip; intros obj w' Hk; by rewrite Hk|].
  split; [intros -> scanned; apply Hskip; intros obj w' Hk; by rewrite Hk|].
  split; [intros -> a; apply Hskip; intros obj w' Hk; cbv zeta; by rewrite Hk|].
  split; [intros -> beta gamma; apply Hskip; intros obj w' Hk; cbv zeta; by rewrite Hk|].
  split; [intros -> h; apply Hskip; intros obj w' Hk; by rewrite Hk|].
  split; [apply Hskip; intros obj w' Hk; by rewrite Hk|].
  split; [|split].
  - intros ->. unfold checkHoldTrigger.
    destruct (touchStartTime (state w)) as [start|]; [|by left].
    case_decide; [by left|]. right. f_equal.
    apply Hskip. intros obj w' Hk. cbv zeta. by rewrite Hk.
  - intros ->. apply Hskip. intros obj w' Hk. unfold startTimer. by rewrite Hk.
  - intros -> n. apply Hskip. intros obj w' Hk. cbv zeta. by rewrite Hk.
Qed.

Lemma evaluators_skip_other_objects_witness :
  checkShakeTrigger [objA; objB] 99 chainWorld = chainWorld
  ∧ checkTapTrigger dice [objA; objB] chainWorld = chainWorld.
Proof.
  split.
  - destruct (evaluators_skip_other_objects shake [objA; objB] chainWorld)
      as (_ & _ & Hs & _); [repeat constructor|].
    by apply Hs.
  - destruct (evaluators_skip_other_objects dice [objA; objB] chainWorld)
      as (_ & _ & _ & _ & _ & Ht & _); [repeat constructor|].
    exact Ht.
Defined.

(** ** Cancelling timers *)

Lemma onlyQueue_refl w : onlyQueue w w.
Proof. by split. Qed.

Lemma onlyQueue_clearTimeout t w : onlyQueue w (clearTimeout t w).
Proof. by split. Qed.

Lemma onlyQueue_trans w1 w2 w3 : onlyQueue w1 w2 → onlyQueue w2 w3 → onlyQueue w1 w3.
Proof. intros [] []. split; congruence. Qed.

(** Cancelling the handles of a table removes exactly those handles from
    the queue. *)
Lemma clearTimeouts_queue {K} `{Countable K} (m : gmap K positive) (w : World) :
  let w' := map_fold (λ _ t acc, clearTimeout t acc) w m in
  onlyQueue w w'
  ∧ (∀ k t, m !! k = Some t → timers (host w') !! t = None)
  ∧ (∀ t, (∀ k, m !! k ≠ Some t) → timers (host w') !! t = timers (host w) !! t).
Proof.
  apply (map_fold_weak_ind (λ r m',
    onlyQueue w r
    ∧ (∀ k t, m' !! k = Some t → timers (host r) !! t = None)
    ∧ (∀ t, (∀ k, m' !! k ≠ Some t) → timers (host r) !! t = timers (host w) !! t))).
  { split; [apply onlyQueue_refl|]. split; [|done].
    intros k t Hk. by rewrite lookup_empty in Hk. }
  intros i x m' r Hi (Hq & Hin & Hout). split; [|split].
  - eapply onlyQueue_trans; [exact Hq|]. apply onlyQueue_clearTimeout.
  - intros k t Hk. simpl. rewrite lookup_insert in Hk.
    destruct (decide (t = x)) as [->|Hne]; [by rewrite lookup_delete_eq|].
    rewrite lookup_delete_ne by done.
    case_decide; [congruence|]. by apply (Hin k).
  - intros t Ht. simpl.
    assert (t ≠ x) as Hne.
    { intros ->. apply (Ht i). by rewrite lookup_insert_eq. }
    rewrite lookup_delete_ne by done. apply Hout.
    intros k Hk. apply (Ht k). rewrite lookup_insert_ne; [done|].
    intros ->. congruence.
Qed.

Lemma clearAllTimers_queue (w : World) :
  let w' := clearAllTimers w in
  pendingTimers (sessionState w') = ∅
  ∧ triggerStatus (sessionState w') = triggerStatus (sessionState w)
  ∧ statusChangedAt (sessionState w') = statusChangedAt (sessionState w)
  ∧ objects (sessionState w') = objects (sessionState w)
  ∧ state w' = state w
  ∧ now (host w') = now (host w)
  ∧ localStorage (host w') = localStorage (host w)
  ∧ storageWritable (host w') = storageWritable (host w)
  ∧ statusEvents (host w') = statusEvents (host w)
  ∧ (∀ k t, pendingTimers (sessionState w) !! k = Some t → timers (host w') !! t = None)
  ∧ (∀ t, (∀ k, pendingTimers (sessionState w) !! k ≠ Some t) →
       timers (host w') !! t = timers (host w) !! t).
Proof.
  unfold clearAllTimers.
  destruct (clearTimeouts_queue (pendingTimers (sessionState w)) w)
    as ([Hs Hst Hnow _ Hsto Hwr Hev _] & Hin & Hout).
  simpl. by rewrite Hs, Hst, Hnow, Hsto, Hwr, Hev.
Qed.

(** [clearSessionState] empties the status tables, the object list and the
    stored snapshot, and cancels every timer registered in [pendingTimers]
    (delayed resets and delayed arm evaluations), so none of them can run
    afterwards.  It touches neither the coordinator's state nor the timers
    that the coordinator queued. *)
Theorem clearSessionState_cancels (w : World) :
  let w' := clearSessionState w in
  triggerStatus (sessionState w') = ∅
  ∧ statusChangedAt (sessionState w') = ∅
  ∧ pendingTimers (sessionState w') = ∅
  ∧ objects (sessionState w') = []
  ∧ localStorage (host w') = None
  ∧ state w' = state w
  ∧ (∀ k t, pendingTimers (sessionState w) !! k = Some t →
       timers (host w') !! t = None ∧ ∀ dt, runTimer t (advance dt w') = advance dt w')
  ∧ (∀ t, (∀ k, pendingTimers (sessionState w) !! k ≠ Some t) →
       timers (host w') !! t = timers (host w) !! t).
Proof.
  unfold clearSessionState.
  remember (with_session (λ s, set_objects []
              (set_statusChangedAt ∅ (set_triggerStatus ∅ s))) w) as w1 eqn:Ew1.
  assert (Hw1 : triggerStatus (sessionState w1) = ∅
                ∧ statusChangedAt (sessionState w1) = ∅
                ∧ objects (sessionState w1) = []
                ∧ pendingTimers (sessionState w1) = pendingTimers (sessionState w)
                ∧ state w1 = state w ∧ host w1 = host w) by (by subst w1).
  destruct Hw1 as (H1 & H2 & H3 & H4 & H5 & H6). clear Ew1.
  destruct (clearAllTimers_queue w1)
    as (Hp & Hts & Hca & Hob & Hst & _ & _ & _ & _ & Hin & Hout).
  rewrite H4 in Hin, Hout. rewrite H6 in Hout.
  remember (clearAllTimers w1) as w2 eqn:Ew2. clear Ew2.
  simpl. rewrite Hp, Hts, Hca, Hob, Hst, H1, H2, H3, H5.
  repeat split; try done.
  - by apply (Hin k).
  - unfold runTimer. simpl. by rewrite (Hin k t).
Qed.

Lemma clearSessionState_cancels_witness :
  timers (host resetWorld) !! 1%positive = Some (31000, StatusChangeTimer "R" armed)
  ∧ timers (host (clearSessionState resetWorld)) !! 1%positive = None
  ∧ runTimer 1 (advance 30000 (clearSessionState resetWorld))
    = advance 30000 (clearSessionState resetWorld).
Proof.
  destruct (clearSessionState_cancels resetWorld) as (_ & _ & _ & _ & _ & _ & Hc & _).
  destruct (Hc "R" 1%positive) as [Hn Hr]; [vm_compute; reflexivity|].
  split; [vm_compute; reflexivity|]. split; [exact Hn | apply Hr].
Defined.

(** [clearTimerTriggers] cancels every pending timer trigger and forgets
    them all: none of them fires afterwards, and a later
    [startTimerTriggers] starts every timer object afresh. *)
Theorem clearTimerTriggers_cancels (w : World) :
  let w' := clearTimerTriggers w in
  timerTimeouts (state w') = ∅
  ∧ sessionState w' = sessionState w
  ∧ activeObjects (state w') = activeObjects (state w)
  ∧ dismissedObjects (state w') = dismissedObjects (state w)
  ∧ (∀ k t, timerTimeouts (state w) !! k = Some t →
       timers (host w') !! t = None ∧ ∀ dt, runTimer t (advance dt w') = advance dt w')
  ∧ (∀ obj, ofKind timer obj = true →
       timerTimeouts (state (startTimerTriggers [obj] w')) !! id obj
       = Some (nextTimerId (host w))).
Proof.
  unfold clearTimerTriggers.
  destruct (clearTimeouts_queue (timerTimeouts (state w)) w)
    as ([Hs Hst _ Hn _ _ _ _] & Hin & Hout).
  simpl. rewrite Hs, Hst. repeat split; try done.
  - by apply (Hin k).
  - unfold runTimer. simpl. by rewrite (Hin k t).
  - intros obj Hk. unfold startTimerTriggers, forEach. simpl.
    rewrite startTimer_fresh by done. simpl. by rewrite lookup_insert_eq, Hn.
Qed.

Lemma clearTimerTriggers_cancels_witness :
  timers (host (clearTimerTriggers timerWorld1)) !! 1%positive = None
  ∧ timerTimeouts (state (startTimerTriggers [objTimer] (clearTimerTriggers timerWorld1))) !! "T"
    = Some 2%positive.
Proof.
  destruct (clearTimerTriggers_cancels timerWorld1) as (_ & _ & _ & _ & Hc & Hs).
  split.
  - apply (Hc "T" 1%positive). vm_compute. reflexivity.
  - apply (Hs objTimer). reflexivity.
Defined.

(** ** Starting a session *)

Lemma evaluateArmCondition_at_start (o : MediaObject) (w : World) :
  (∀ k, reached (triggerStatus (sessionState w) !! k) = false) →
  evaluateArmCondition o w = (armedAtStart o, w).
Proof.
  intros Hq. unfold evaluateArmCondition, armedAtStart.
  destruct (armCondition o) as [c|]; [|done].
  destruct (cond_type c); try done.
  - destruct (triggerId c) as [tid|]; [|done].
    case_decide.
    + by rewrite bool_decide_eq_true_2.
    + rewrite bool_decide_eq_false_2 by done. by rewrite Hq.
  - f_equal. induction (default [] (triggerIds c)) as [|i l IH]; [done|].
    simpl. by rewrite Hq.
  - f_equal. induction (default [] (triggerIds c)) as [|i l IH]; [done|].
    simpl. by rewrite Hq.
Qed.

Lemma initialStatus_at_start (o : MediaObject) (w : World) :
  (∀ k, reached (triggerStatus (sessionState w) !! k) = false) →
  initialStatus o w =
    with_session (λ s, set_triggerStatus
      (<[id o := if armedAtStart o then armed else idle]> (triggerStatus s)) s) w
  ∧ (∀ k, reached (triggerStatus (sessionState (initialStatus o w)) !! k) = false).
Proof.
  intros Hq. unfold initialStatus. rewrite evaluateArmCondition_at_start by done.
  split; [done|]. intros k. simpl. rewrite lookup_insert.
  case_decide; [|apply Hq]. by destruct (armedAtStart o).
Qed.

Lemma cold_start_fold (objs : list MediaObject) (w : World) :
  (∀ k, reached (triggerStatus (sessionState w) !! k) = false) →
  NoDup (id <$> objs) →
  let w' := fold_left (λ acc trigger, initialStatus trigger acc) objs w in
  (∀ o, o ∈ objs →
     triggerStatus (sessionState w') !! id o
     = Some (if armedAtStart o then armed else idle))
  ∧ (∀ k, k ∉ id <$> objs →
       triggerStatus (sessionState w') !! k = triggerStatus (sessionState w) !! k)
  ∧ statusChangedAt (sessionState w') = statusChangedAt (sessionState w)
  ∧ pendingTimers (sessionState w') = pendingTimers (sessionState w)
  ∧ objects (sessionState w') = objects (sessionState w)
  ∧ state w' = state w ∧ host w' = host w.
Proof.
  revert w. induction objs as [|x objs IH]; intros w Hq Hnd.
  { simpl. split; [|done]. intros o Ho. by apply elem_of_nil in Ho. }
  rewrite fmap_cons in Hnd. apply NoDup_cons in Hnd as [Hx Hnd].
  destruct (initialStatus_at_start x w Hq) as [Hinit Hq'].
  destruct (IH (initialStatus x w) Hq' Hnd) as (Hin & Hout & H1 & H2 & H3 & H4 & H5).
  assert (Hfirst : (∀ k, triggerStatus (sessionState (initialStatus x w)) !! k
                         = <[id x := if armedAtStart x then armed else idle]>
                             (triggerStatus (sessionState w)) !! k)
                   ∧ statusChangedAt (sessionState (initialStatus x w))
                     = statusChangedAt (sessionState w)
                   ∧ pendingTimers (sessionState (initialStatus x w))
                     = pendingTimers (sessionState w)
                   ∧ objects (sessionState (initialStatus x w)) = objects (sessionState w)
                   ∧ state (initialStatus x w) = state w
                   ∧ host (initialStatus x w) = host w) by (by rewrite Hinit).
  destruct Hfirst as (F0 & F1 & F2 & F3 & F4 & F5).
  change (fold_left (λ acc trigger, initialStatus trigger acc) (x :: objs) w)
    with (fold_left (λ acc trigger, initialStatus trigger acc) objs (initialStatus x w)).
  cbv zeta. rewrite H1, H2, H3, H4, H5, F1, F2, F3, F4, F5.
  split; [|split; [|done]].
  - intros o [->|Ho]%elem_of_cons; [|by apply Hin].
    rewrite Hout by done. by rewrite F0, lookup_insert_eq.
  - intros k Hk. rewrite fmap_cons in Hk. apply not_elem_of_cons in Hk as [Hk1 Hk2].
    rewrite Hout by done. by rewrite F0, lookup_insert_ne.
Qed.

(** A cold start (no stored snapshot, or one older than 24 hours) gives every
    object of a list with distinct ids a status that depends on its arm
    condition alone: [armed] without a condition, with a [timer] condition,
    with [afterTrigger] on no id, or with [allOf] over no ids; [idle]
    otherwise.  The statuses are written without timestamps and without
    notifying the status listeners, the old snapshot is gone and none is
    written. *)
Theorem initializeSession_cold_start (objs : list MediaObject) (w : World) :
  NoDup (id <$> objs) →
  (∀ snap, localStorage (host w) = Some snap →
           now (host w) - snap_timestamp snap > dayMs) →
  let w' := initializeSession objs w in
  (∀ o, o ∈ objs →
     triggerStatus (sessionState w') !! id o
     = Some (if armedAtStart o then armed else idle))
  ∧ (∀ k, k ∉ id <$> objs → triggerStatus (sessionState w') !! k = None)
  ∧ statusChangedAt (sessionState w') = ∅
  ∧ pendingTimers (sessionState w') = ∅
  ∧ objects (sessionState w') = objs
  ∧ statusEvents (host w') = statusEvents (host w)
  ∧ localStorage (host w') = None.
Proof.
  intros Hnd Hstale. unfold initializeSession.
  remember (with_session (λ s, set_objects objs
              (set_statusChangedAt ∅ (set_triggerStatus ∅ s))) w) as w1 eqn:Ew1.
  assert (Hw1 : triggerStatus (sessionState w1) = ∅
                ∧ statusChangedAt (sessionState w1) = ∅
                ∧ objects (sessionState w1) = objs
                ∧ host w1 = host w) by (by subst w1).
  destruct Hw1 as (H1 & H2 & H3 & H4). clear Ew1.
  destruct (clearAllTimers_queue w1)
    as (Hp & Hts & Hca & Hob & _ & Hnow & Hsto & _ & Hev & _).
  rewrite H1 in Hts. rewrite H2 in Hca. rewrite H3 in Hob. rewrite H4 in Hnow, Hsto, Hev.
  remember (clearAllTimers w1) as w2 eqn:Ew2. clear Ew2 w1 H1 H2 H3 H4.
  assert (Hcold : ∃ w3, restoreSessionState w2 = (false, w3)
                        ∧ sessionState w3 = sessionState w2
                        ∧ statusEvents (host w3) = statusEvents (host w2)
                        ∧ localStorage (host w3) = None).
  { unfold restoreSessionState. rewrite Hsto.
    destruct (localStorage (host w)) as [snap|] eqn:Hs.
    - specialize (Hstale snap eq_refl).
      rewrite Hnow. rewrite decide_True by (unfold dayMs in Hstale; lia).
      by eexists.
    - by exists w2. }
  destruct Hcold as (w3 & -> & Hs3 & He3 & Hl3).
  destruct (cold_start_fold objs w3) as (Hin & Hout & Hc & Hpt & Hobj & _ & Hh);
    [by rewrite Hs3, Hts | done |].
  cbv zeta. rewrite Hc, Hpt, Hobj, Hh, Hs3, Hca, Hp, Hob, He3, Hev, Hl3.
  split; [exact Hin|]. split; [|done].
  intros k Hk. rewrite Hout by done. by rewrite Hs3, Hts.
Qed.

Lemma initializeSession_cold_start_witness :
  triggerStatus (sessionState chainWorld) !! "A" = Some armed
  ∧ triggerStatus (sessionState chainWorld) !! "B" = Some idle
  ∧ statusChangedAt (sessionState chainWorld) = ∅.
Proof.
  destruct (initializeSession_cold_start [objA; objB; objC] freshWorld)
    as (Hin & _ & Hc & _).
  - change (NoDup ["A"; "B"; "C"]).
    apply (bool_decide_unpack (NoDup ["A"; "B"; "C"])). vm_compute. exact I.
  - intros snap Hs. discriminate Hs.
  - split; [|split; [|exact Hc]].
    + apply (Hin objA). set_solver.
    + apply (Hin objB). set_solver.
Defined.

Lemma cold_start_quiet (objs : list MediaObject) (w : World) :
  (∀ k, reached (triggerStatus (sessionState w) !! k) = false) →
  let w' := fold_left (λ acc trigger, initialStatus trigger acc) objs w in
  (∀ k, reached (triggerStatus (sessionState w') !! k) = false)
  ∧ statusChangedAt (sessionState w') = statusChangedAt (sessionState w)
  ∧ host w' = host w.
Proof.
  revert w. induction objs as [|x objs IH]; intros w Hq; [done|].
  destruct (initialStatus_at_start x w Hq) as [Hinit Hq'].
  destruct (IH (initialStatus x w) Hq') as (H1 & H2 & H3).
  change (fold_left (λ acc trigger, initialStatus trigger acc) (x :: objs) w)
    with (fold_left (λ acc trigger, initialStatus trigger acc) objs (initialStatus x w)).
  cbv zeta. rewrite H2, H3. split; [exact H1|]. by rewrite Hinit.
Qed.

(** A snapshot written by [persistSessionState] and read back by
    [initializeSession] at most 24 hours later restores the status table
    and the timestamps exactly as they were, whatever object list the
    session is started with (an object that the snapshot does not know has
    no status).  Read back later than that, the snapshot is removed and
    nothing of it survives: no timestamp, and no id is [triggered] or
    [completed]. *)
Theorem snapshot_round_trip (objs : list MediaObject) (w : World) (dt : Z) :
  storageWritable (host w) = true → 0 ≤ dt →
  let w' := initializeSession objs (advance dt (persistSessionState w)) in
  (dt ≤ dayMs →
     triggerStatus (sessionState w') = triggerStatus (sessionState w)
     ∧ statusChangedAt (sessionState w') = statusChangedAt (sessionState w)
     ∧ objects (sessionState w') = objs
     ∧ pendingTimers (sessionState w') = ∅
     ∧ localStorage (host w') = Some (snapshotOf w))
  ∧ (dayMs < dt →
     (∀ k, reached (triggerStatus (sessionState w') !! k) = false)
     ∧ statusChangedAt (sessionState w') = ∅
     ∧ localStorage (host w') = None).
Proof.
  intros Hwr Hdt. unfold initializeSession.
  remember (with_session (λ s, set_objects objs
              (set_statusChangedAt ∅ (set_triggerStatus ∅ s)))
              (advance dt (persistSessionState w))) as w1 eqn:Ew1.
  assert (Hw1 : triggerStatus (sessionState w1) = ∅
                ∧ statusChangedAt (sessionState w1) = ∅
                ∧ objects (sessionState w1) = objs
                ∧ now (host w1) = now (host w) + dt
                ∧ localStorage (host w1) = Some (snapshotOf w)).
  { subst w1. simpl. rewrite persistSessionState_host, Hwr. simpl.
    by rewrite Z.max_r by lia. }
  destruct Hw1 as (H1 & H2 & H3 & H4 & H5). clear Ew1.
  destruct (clearAllTimers_queue w1)
    as (Hp & Hts & Hca & Hob & _ & Hnow & Hsto & _ & _ & _).
  rewrite H1 in Hts. rewrite H2 in Hca. rewrite H3 in Hob.
  rewrite H4 in Hnow. rewrite H5 in Hsto.
  remember (clearAllTimers w1) as w2 eqn:Ew2. clear Ew2 w1 H1 H2 H3 H4 H5.
  unfold restoreSessionState. rewrite Hsto, Hnow.
  change (snap_timestamp (snapshotOf w)) with (now (host w)).
  replace (now (host w) + dt - now (host w)) with dt by lia.
  change (24 * 60 * 60 * 1000) with dayMs.
  split; intros Hd.
  - rewrite decide_False by lia. simpl. by rewrite Hob, Hp, Hsto.
  - rewrite decide_True by lia.
    destruct (cold_start_quiet objs (with_host (set_localStorage None) w2))
      as (Hq & Hc & Hh).
    { intros k. simpl. by rewrite Hts. }
    cbv zeta. rewrite Hc, Hh. split; [exact Hq|]. simpl. by rewrite Hca.
Qed.

Lemma snapshot_round_trip_witness :
  triggerStatus (sessionState
    (initializeSession [objA] (advance 3600000 (persistSessionState firedWorld))))
  = triggerStatus (sessionState firedWorld)
  ∧ localStorage (host
      (initializeSession [objA] (advance 90000000 (persistSessionState firedWorld))))
    = None.
Proof.
  split.
  - apply (snapshot_round_trip [objA] firedWorld 3600000); [reflexivity | lia |].
    vm_compute. discriminate.
  - apply (snapshot_round_trip [objA] firedWorld 90000000); [reflexivity | lia |].
    vm_compute. reflexivity.
Defined.

(** ** Statuses that a session cannot leave *)

Section Confinement.
Variables (k : string) (S : option TriggerStatus → Prop).
Hypothesis S_arm : ∀ st, S st → default idle st = idle → S (Some armed).
Hypothesis S_done : ∀ st, S st → default idle st = triggered →
                    S (Some armed) ∧ S (Some completed).

Lemma confined_same w w' :
  triggerStatus (sessionState w') !! k = triggerStatus (sessionState w) !! k →
  localStorage (host w') = localStorage (host w) →
  timers (host w') = timers (host w) →
  confined k S w → confined k S w'.
Proof. intros Hts Hs Ht [H1 H2 H3]. split; by rewrite ?Hts, ?Hs, ?Ht. Qed.

Lemma confined_setTriggerStatus k' s w :
  (k' = k → S (Some s)) → confined k S w → confined k S (setTriggerStatus k' s w).
Proof.
  intros Hk [H1 H2 H3]. split.
  - rewrite setTriggerStatus_lookup. case_decide; [by apply Hk|done].
  - by rewrite (frame_storage _ _ (sameFrame_setTriggerStatus k' s w)).
  - by rewrite (proj1 (proj2 (setTriggerStatus_timers k' s w))).
Qed.

Lemma confined_setTimeout cb d w :
  confinedTimer k S cb → confined k S w → confined k S (setTimeout cb d w).2.
Proof.
  intros Hcb [H1 H2 H3]. split; try done. simpl. by apply map_Forall_insert_2.
Qed.

Lemma confined_clearTimeout t w : confined k S w → confined k S (clearTimeout t w).
Proof. intros [H1 H2 H3]. split; try done. simpl. by apply map_Forall_delete. Qed.

Lemma confined_clearTimeouts {K} `{Countable K} (m : gmap K positive) (w : World) :
  confined k S w → confined k S (map_fold (λ _ t acc, clearTimeout t acc) w m).
Proof.
  intros Hw. apply (map_fold_weak_ind (λ r _, confined k S r)); [done|].
  intros i t m' r _ Hr. by apply confined_clearTimeout.
Qed.

Lemma confined_with_state f w : confined k S w → confined k S (with_state f w).
Proof. by apply confined_same. Qed.

Lemma confined_set_pendingTimers pt w :
  confined k S w → confined k S (with_session (set_pendingTimers pt) w).
Proof. by apply confined_same. Qed.

Lemma confined_invokeListeners x w :
  confined k S w → confined k S (invokeListeners x w).
Proof. by apply confined_same. Qed.

Lemma confined_persist w : confined k S w → confined k S (persistSessionState w).
Proof.
  intros [H1 H2 H3].
  destruct (persistSessionState_host_rest w) as (_ & _ & Ht & _).
  split.
  - by rewrite persistSessionState_session.
  - intros Hr snap. rewrite persistSessionState_host.
    destruct (storageWritable (host w)); [|by apply H2].
    simpl. by intros [= <-].
  - by rewrite Ht.
Qed.

Lemma confined_scheduleArmEvaluation i d w :
  confined k S w → confined k S (scheduleArmEvaluation i d w).
Proof.
  intros Hw. unfold scheduleArmEvaluation.
  destruct (pendingTimers (sessionState w) !! armKey i); [done|].
  apply (confined_set_pendingTimers _ (setTimeout (ArmEvaluationTimer i) d w).2).
  by apply confined_setTimeout.
Qed.

Lemma confined_evaluateArmCondition x w :
  confined k S w → confined k S (evaluateArmCondition x w).2.
Proof.
  intros Hw. unfold evaluateArmCondition.
  repeat (case_match || case_decide); simpl;
    (exact Hw || by apply confined_scheduleArmEvaluation).
Qed.

Lemma confined_idle_arm k' w :
  confined k S w → getTriggerStatus k' w = idle → k' = k → S (Some armed).
Proof. intros [H1 _ _] Hi ->. by apply (S_arm _ H1). Qed.

Lemma confined_updateDependent changed x w :
  confined k S w → confined k S (updateDependent changed x w).
Proof.
  intros Hw. unfold updateDependent.
  case_decide; [done|]. case_decide as Hi; [|done].
  pose proof (confined_evaluateArmCondition x w Hw) as Hw1.
  destruct (evaluateArmCondition x w) as [ok w1]. simpl in Hw1.
  destruct ok; [|done].
  apply confined_setTriggerStatus; [|done]. by apply (confined_idle_arm _ w).
Qed.

Lemma confined_updateDependentTriggers changed l w :
  confined k S w → confined k S (updateDependentTriggers changed l w).
Proof.
  revert w. induction l as [|x l IH]; intros w Hw; [done|].
  simpl. by apply IH, confined_updateDependent.
Qed.

Lemma confined_processTriggerActivation trigger allTriggers w :
  (id trigger = k → fireable S) → confined k S w →
  confined k S (processTriggerActivation trigger allTriggers w).2.
Proof.
  intros Hf Hw.
  destruct (decide (getTriggerStatus (id trigger) w = armed)) as [Hs|Hs].
  - rewrite processTriggerActivation_armed by done. simpl.
    apply confined_persist, confined_updateDependentTriggers, confined_setTriggerStatus;
      [|done].
    intros Hk. apply (Hf Hk (triggerStatus (sessionState w) !! k)); [apply Hw|].
    by rewrite <- Hk.
  - unfold processTriggerActivation. by rewrite decide_False.
Qed.

Lemma confined_scheduleStatusChange k' s d w :
  (k' = k → S (Some s)) → confined k S w →
  confined k S (scheduleStatusChange k' s d w).
Proof.
  intros Hk Hw. unfold scheduleStatusChange.
  set (w1 := match pendingTimers (sessionState w) !! k' with
             | Some existingTimer => clearTimeout existingTimer w
             | None => w
             end).
  assert (Hw1 : confined k S w1).
  { subst w1. destruct (pendingTimers (sessionState w) !! k'); [|done].
    by apply confined_clearTimeout. }
  apply (confined_set_pendingTimers _ (setTimeout (StatusChangeTimer k' s) d w1).2).
  by apply confined_setTimeout.
Qed.

Lemma confined_completeTrigger k' trigger allTriggers w :
  confined k S w → confined k S (completeTrigger k' trigger allTriggers w).
Proof.
  intros Hw. unfold completeTrigger.
  case_decide as Hs; [|done].
  assert (Hboth : k' = k → S (Some armed) ∧ S (Some completed)).
  { intros ->. apply (S_done (triggerStatus (sessionState w) !! k)); [apply Hw|done]. }
  apply confined_persist, confined_updateDependentTriggers.
  unfold resetOrComplete.
  repeat (case_match || case_decide);
    first [ apply confined_setTriggerStatus; [|done]; intros Hk; by apply Hboth
          | apply confined_scheduleStatusChange; [|done]; intros Hk; by apply Hboth ].
Qed.

Lemma confined_notifyActivation object allObjects w :
  notifiable k S object → confined k S w →
  confined k S (notifyActivation object allObjects w).
Proof.
  intros Hn Hw. unfold notifyActivation.
  destruct (decide (id object ∈ activeObjects (state w))); [done|].
  set (gate := match armCondition object with
               | Some _ =>
                 if decide (getTriggerStatus (id object) w = armed)
                 then processTriggerActivation object allObjects w
                 else (false, w)
               | None => (true, w)
               end).
  assert (Hg : confined k S gate.2).
  { subst gate. destruct (armCondition object) as [c|] eqn:Hc; [|done].
    case_decide; [|done]. apply confined_processTriggerActivation; [|done].
    intros Hk. apply Hn; [done|]. by rewrite Hc. }
  destruct gate as [proceed w1]. simpl in Hg.
  destruct proceed; [|done].
  assert (Hw3 : confined k S (invokeListeners object
            (with_state (λ s, set_activeObjects ({[id object]} ∪ activeObjects s) s) w1))).
  { by apply confined_invokeListeners, confined_with_state. }
  case_decide; [|done]. by apply confined_setTimeout.
Qed.

Lemma confined_forEach (body : MediaObject → World → World) objs w :
  Forall (λ obj, ∀ w', confined k S w' → confined k S (body obj w')) objs →
  confined k S w → confined k S (forEach body objs w).
Proof.
  intros Hbody. revert w.
  induction Hbody as [|obj objs Hobj Hbody IH]; intros w Hw; [done|].
  apply IH, Hobj, Hw.
Qed.

Lemma confined_runTimer t w : confined k S w → confined k S (runTimer t w).
Proof.
  intros Hw. unfold runTimer.
  destruct (timers (host w) !! t) as [[due cb]|] eqn:Et; [|done].
  case_decide; [|done].
  pose proof (conf_timers _ _ _ Hw t (due, cb) Et) as Hcb. simpl in Hcb.
  pose proof (confined_clearTimeout t w Hw) as Hw1.
  set (w1 := clearTimeout t w) in *.
  destruct cb as [k' s|k'|k'|x]; simpl.
  - apply confined_persist.
    apply (confined_set_pendingTimers _ (setTriggerStatus k' s w1)).
    by apply confined_setTriggerStatus.
  - apply confined_set_pendingTimers.
    destruct (findObject k' w1) as [x|]; [|done].
    case_decide as Hi; [|done].
    pose proof (confined_evaluateArmCondition x w1 Hw1) as Hw2.
    destruct (evaluateArmCondition x w1) as [ok w2]. simpl in Hw2.
    destruct ok; [|done].
    apply confined_persist, confined_setTriggerStatus; [|done].
    by apply (confined_idle_arm _ w1).
  - by apply confined_with_state.
  - apply confined_with_state. by apply confined_notifyActivation.
Qed.

Lemma confined_initialStatus x w :
  restartable S → confined k S w → confined k S (initialStatus x w).
Proof.
  intros (_ & Hidle & Harmed) Hw. unfold initialStatus.
  pose proof (confined_evaluateArmCondition x w Hw) as Hw1.
  destruct (evaluateArmCondition x w) as [ok w1]. simpl in Hw1.
  destruct Hw1 as [H1 H2 H3]. split; try done.
  simpl. rewrite lookup_insert. case_decide; [|done]. by destruct ok.
Qed.

Lemma confined_initializeSession objs w :
  restartable S → confined k S w → confined k S (initializeSession objs w).
Proof.
  intros Hr Hw. unfold initializeSession.
  remember (with_session (λ s, set_objects objs
              (set_statusChangedAt ∅ (set_triggerStatus ∅ s))) w) as w1 eqn:Ew1.
  assert (Hw1 : confined k S w1).
  { subst w1. destruct Hw as [H1 H2 H3]. split; try done. apply Hr. }
  clear Ew1 Hw.
  assert (Hw2 : confined k S (clearAllTimers w1)).
  { unfold clearAllTimers. by apply confined_set_pendingTimers, confined_clearTimeouts. }
  set (w2 := clearAllTimers w1) in *. clearbody w2. clear Hw1 w1.
  assert (Hcold : ∀ w3, confined k S w3 →
            confined k S (fold_left (λ acc trigger, initialStatus trigger acc) objs w3)).
  { clear -Hr S_arm. induction objs as [|x l IH]; intros w Hw; [done|].
    simpl. by apply IH, confined_initialStatus. }
  unfold restoreSessionState.
  destruct (localStorage (host w2)) as [data|] eqn:Hst; [|by apply Hcold].
  case_decide.
  - apply Hcold. destruct Hw2 as [H1 H2 H3]. split; try done.
  - destruct Hw2 as [H1 H2 H3]. split; try done. simpl. by apply H2.
Qed.

Lemma confined_clearSessionState w :
  restartable S → confined k S w → confined k S (clearSessionState w).
Proof.
  intros Hr Hw. unfold clearSessionState, clearAllTimers.
  remember (with_session (λ s, set_objects []
              (set_statusChangedAt ∅ (set_triggerStatus ∅ s))) w) as w1 eqn:Ew1.
  assert (Hw1 : confined k S w1).
  { subst w1. destruct Hw as [H1 H2 H3]. split; try done. apply Hr. }
  clear Ew1 Hw.
  pose proof (confined_clearTimeouts (pendingTimers (sessionState w1)) w1 Hw1)
    as [H1 H2 H3].
  split; try done.
Qed.

Lemma confined_handle e w :
  confinedEvent k S e → confined k S w → confined k S (handle e w).
Proof.
  intros He Hw.
  destruct e; simpl in *.
  - by apply confined_initializeSession.
  - by apply confined_clearSessionState.
  - by apply confined_processTriggerActivation.
  - by apply confined_completeTrigger.
  - by apply confined_updateDependentTriggers.
  - by apply confined_notifyActivation.
  - unfold checkGPSTrigger. apply confined_forEach; [|done].
    eapply Forall_impl; [exact He|]. intros obj Hn w' Hw'. cbv zeta.
    repeat (match goal with |- confined _ _ (if ?b then _ else _) => destruct b end);
      try done.
    by apply confined_notifyActivation.
  - unfold checkQRTrigger. apply confined_forEach; [|done].
    eapply Forall_impl; [exact He|]. intros obj Hn w' Hw'. cbv zeta.
    repeat (match goal with |- confined _ _ (if ?b then _ else _) => destruct b end);
      try done.
    by apply confined_notifyActivation.
  - unfold checkShakeTrigger. apply confined_forEach; [|done].
    eapply Forall_impl; [exact He|]. intros obj Hn w' Hw'. cbv zeta.
    destruct (negb (ofKind shake obj)); [done|]. case_decide; [|done].
    by apply confined_notifyActivation.
  - unfold checkTiltTrigger. apply confined_forEach; [|done].
    eapply Forall_impl; [exact He|]. intros obj Hn w' Hw'. cbv zeta.
    repeat (match goal with |- confined _ _ (if ?b then _ else _) => destruct b end);
      try done.
    by apply confined_notifyActivation.
  - unfold checkCompassTrigger. apply confined_forEach; [|done].
    eapply Forall_impl; [exact He|]. intros obj Hn w' Hw'. cbv zeta.
    repeat (match goal with |- confined _ _ (if ?b then _ else _) => destruct b end);
      try done.
    by apply confined_notifyActivation.
  - unfold checkTapTrigger. apply confined_forEach; [|done].
    eapply Forall_impl; [exact He|]. intros obj Hn w' Hw'. cbv zeta.
    destruct (negb (ofKind k0 obj)); [done|].
    by apply confined_notifyActivation.
  - by apply confined_with_state.
  - unfold checkHoldTrigger.
    destruct (touchStartTime (state w)) as [start|]; [|done].
    case_decide; [done|].
    apply confined_with_state, confined_forEach; [|done].
    eapply Forall_impl; [exact He|]. intros obj Hn w' Hw'. cbv zeta.
    destruct (negb (ofKind hold obj)); [done|]. case_decide; [|done].
    by apply confined_notifyActivation.
  - apply confined_forEach; [|done].
    eapply Forall_impl; [exact He|]. intros obj Hn w' Hw'. unfold startTimer.
    destruct (negb (ofKind timer obj)); [done|]. case_decide; [done|].
    apply (confined_with_state _
      (setTimeout (TimerTrigger obj) (numberOr (delay (params (trigger obj))) 5000) w').2).
    by apply confined_setTimeout.
  - unfold clearTimerTriggers. by apply confined_with_state, confined_clearTimeouts.
  - unfold checkProximityTrigger. apply confined_forEach; [|done].
    eapply Forall_impl; [exact He|]. intros obj Hn w' Hw'. cbv zeta.
    destruct (negb (ofKind proximity obj)); [done|]. case_decide; [|done].
    by apply confined_notifyActivation.
  - unfold manuallyActivate.
    by apply confined_with_state, confined_invokeListeners, confined_with_state.
  - by apply confined_with_state.
  - by apply confined_with_state.
  - by apply confined_with_state.
  - unfold onTriggerActivation. case_decide; [done|]. by apply confined_with_state.
  - by apply confined_with_state.
  - by apply confined_runTimer.
  - by apply (confined_same w).
Qed.

Lemma confined_run es w :
  Forall (confinedEvent k S) es → confined k S w → confined k S (run es w).
Proof.
  intros Hes. revert w. induction Hes as [|e es He Hes IH]; intros w Hw; [done|].
  simpl. by apply IH, confined_handle.
Qed.

End Confinement.

(** Once an id is [completed] and no reset is pending for it, it stays
    [completed] through every sequence of events within the session (every
    evaluator, activation, completion, sweep, timer and manual call):
    [processTriggerActivation] refuses it and [completeTrigger] does nothing
    for it, for good. *)
Theorem completed_is_terminal (k : string) (es : list Event) (w : World) :
  getTriggerStatus k w = completed →
  (∀ t due s, timers (host w) !! t = Some (due, StatusChangeTimer k s) → s = completed) →
  Forall withinSession es →
  let w' := run es w in
  getTriggerStatus k w' = completed
  ∧ (∀ trigger allTriggers, id trigger = k →
       processTriggerActivation trigger allTriggers w' = (false, w'))
  ∧ (∀ trigger allTriggers, completeTrigger k trigger allTriggers w' = w').
Proof.
  intros Hs Ht Hes.
  set (S := λ st : option TriggerStatus, st = Some completed).
  assert (Hlookup : triggerStatus (sessionState w) !! k = Some completed).
  { unfold getTriggerStatus in Hs.
    by destruct (triggerStatus (sessionState w) !! k) as [s|]; simpl in *; subst. }
  assert (Hfire : fireable S) by (by intros st ->).
  assert (Hw : confined k S w).
  { split; [done| |].
    - by intros [? _].
    - intros t [due cb] Hcb. simpl.
      destruct cb as [k' s| | |obj]; simpl; try done.
      + intros ->. unfold S. f_equal. by eapply Ht.
      + by intros _ _. }
  assert (Hev : Forall (confinedEvent k S) es).
  { eapply Forall_impl; [exact Hes|]. intros e He.
    destruct e; simpl in *; try done;
      try (apply Forall_forall; intros obj _); by intros _ _. }
  assert (Hw' : confined k S (run es w)).
  { apply confined_run; try done; by intros st ->. }
  assert (Hs' : getTriggerStatus k (run es w) = completed).
  { unfold getTriggerStatus. by rewrite (conf_status _ _ _ Hw'). }
  simpl. split; [done|]. split.
  - intros trigger allTriggers <-. unfold processTriggerActivation.
    rewrite Hs'. by rewrite decide_False.
  - intros trigger allTriggers. unfold completeTrigger.
    rewrite Hs'. by rewrite decide_False.
Qed.

Lemma completed_is_terminal_witness :
  getTriggerStatus "A"
    (run [CheckTap touch [objA; objB]; Elapse 40000; TimerDue 1; Sweep "B" [objA; objB]]
       (completeTrigger "A" None None firedWorld)) = completed.
Proof.
  apply (completed_is_terminal "A"
           [CheckTap touch [objA; objB]; Elapse 40000; TimerDue 1; Sweep "B" [objA; objB]]
           (completeTrigger "A" None None firedWorld)).
  - vm_compute. reflexivity.
  - intros t due s Ht. vm_compute in Ht. discriminate Ht.
  - repeat constructor.
Defined.

Lemma unconditioned_notifiable d S obj : unconditioned d obj → notifiable d S obj.
Proof. intros Hu Hid [c Hc]. rewrite (Hu Hid) in Hc. discriminate Hc. Qed.

(** [notifyActivation] consults the chain state machine only for objects
    that carry an arm condition.  So an object without one never becomes
    [triggered] or [completed] in a session driven through the coordinator
    (evaluators, timers, manual opening, closing with [completeTrigger],
    restarts), however often it is shown; and the [afterTrigger] condition
    of any object that waits for it keeps evaluating to false. *)
Theorem unconditioned_object_never_fires (d : string) (es : list Event) (w : World) :
  unfired d w → Forall (throughCoordinator d) es →
  let w' := run es w in
  reached (triggerStatus (sessionState w') !! d) = false
  ∧ (∀ trigger allTriggers, completeTrigger d trigger allTriggers w' = w')
  ∧ (∀ o c, armCondition o = Some c → cond_type c = afterTrigger →
            triggerId c = Some d → d ≠ "" →
            evaluateArmCondition o w' = (false, w')).
Proof.
  intros [Hs Hst Ht] Hes.
  set (S := λ st : option TriggerStatus, reached st = false).
  assert (Harm : ∀ st, S st → default idle st = idle → S (Some armed)) by done.
  assert (Hdone : ∀ st, S st → default idle st = triggered →
                        S (Some armed) ∧ S (Some completed)).
  { intros [s|] Hr Hd; simpl in *; [subst s|]; discriminate. }
  assert (Hw : confined d S w).
  { split; [done| |].
    - intros _ snap. apply Hst.
    - intros t [due cb] Hcb. specialize (Ht t due cb Hcb). simpl.
      destruct cb as [k' s| | |obj]; simpl; try done.
      by apply unconditioned_notifiable. }
  assert (Hev : Forall (confinedEvent d S) es).
  { eapply Forall_impl; [exact Hes|]. intros e He.
    destruct e; simpl in *; try done;
      try (eapply Forall_impl; [exact He|]; intros obj Hobj);
      try (by apply unconditioned_notifiable). }
  pose proof (confined_run d S Harm Hdone es w Hev Hw) as [Hs' _ _].
  simpl. split; [exact Hs'|]. split.
  - intros trigger allTriggers. unfold completeTrigger.
    rewrite decide_False; [done|]. unfold getTriggerStatus. unfold S in Hs'.
    destruct (triggerStatus (sessionState (run es w)) !! d) as [[]|]; simpl in *; congruence.
  - intros o c Hc Hty Hd Hne.
    by apply (armOk_afterTrigger_unreached o c d).
Qed.

Lemma unconditioned_object_never_fires_witness :
  callsTo 7%nat (activations (host (run plainSession freshWorld))) = [objPlain; objPlain]
  ∧ getTriggerStatus "P" (run plainSession freshWorld) = armed
  ∧ evaluateArmCondition objAfterPlain (run plainSession freshWorld)
    = (false, run plainSession freshWorld).
Proof.
  destruct (unconditioned_object_never_fires "P" plainSession freshWorld)
    as (_ & _ & He).
  - split; [reflexivity | intros snap Hs; discriminate Hs |].
    intros t due cb Hcb. vm_compute in Hcb. discriminate Hcb.
  - assert (Hobjs : Forall (unconditioned "P") [objPlain; objAfterPlain]).
    { apply Forall_cons_2; [by intros _|].
      apply Forall_cons_2; [intros Hid; discriminate Hid|]. apply Forall_nil_2. }
    unfold plainSession.
    repeat (apply Forall_cons_2; [simpl; first [exact Hobjs | exact I]|]).
    apply Forall_nil_2.
  - split; [vm_compute; reflexivity|]. split; [vm_compute; reflexivity|].
    apply (He objAfterPlain {| cond_type := afterTrigger; triggerId := Some "P";
                               triggerIds := None; delayMs := None |});
      (reflexivity || discriminate).
Defined.

(** ** Activation observers *)

Lemma hears_quiet w w' :
  listeners (state w') = listeners (state w) →
  activations (host w') = activations (host w) → hears w w'.
Proof.
  intros Hl Ha. split; [done|]. exists []. by rewrite app_nil_r.
Qed.

Lemma hears_refl w : hears w w.
Proof. by apply hears_quiet. Qed.

Lemma hears_trans w1 w2 w3 : hears w1 w2 → hears w2 w3 → hears w1 w3.
Proof.
  intros [Hl1 (n1 & Ha1 & Hf1)] [Hl2 (n2 & Ha2 & Hf2)]. split; [congruence|].
  exists (n1 ++ n2). rewrite Ha2, Ha1, app_assoc. split; [done|].
  apply Forall_app. split; [done|]. by rewrite <- Hl1.
Qed.

Lemma hears_sameFrame w w' : sameFrame w w' → hears w w'.
Proof. intros [Hs _ _ _ _ Ha]. apply hears_quiet; [by rewrite Hs|done]. Qed.

Lemma hears_persist w : hears w (persistSessionState w).
Proof.
  apply hears_quiet; [by rewrite persistSessionState_state|].
  apply persistSessionState_host_rest.
Qed.

Lemma hears_evaluateArmCondition x w : hears w (evaluateArmCondition x w).2.
Proof.
  destruct (evaluateArmCondition_retime x w) as (pt & n & q & ->).
  apply hears_sameFrame, sameFrame_retime.
Qed.

Lemma hears_clearTimeouts {K} `{Countable K} (m : gmap K positive) (w : World) :
  hears w (map_fold (λ _ t acc, clearTimeout t acc) w m).
Proof.
  destruct (clearTimeouts_queue m w) as ([_ Hst _ _ _ _ _ Ha] & _).
  apply hears_quiet; [by rewrite Hst|done].
Qed.

Lemma hears_processTriggerActivation trigger allTriggers w :
  hears w (processTriggerActivation trigger allTriggers w).2.
Proof.
  destruct (processTriggerActivation_coordinator trigger allTriggers w) as [Hs Ha].
  apply hears_quiet; [by rewrite Hs|done].
Qed.

Lemma hears_completeTrigger k trigger allTriggers w :
  hears w (completeTrigger k trigger allTriggers w).
Proof.
  unfold completeTrigger. case_decide; [|apply hears_refl].
  eapply hears_trans; [|apply hears_persist].
  eapply hears_trans; [|apply hears_sameFrame, updateDependentTriggers_frame].
  apply hears_sameFrame, resetOrComplete_frame.
Qed.

Lemma hears_notifyActivation object allObjects w :
  hears w (notifyActivation object allObjects w).
Proof.
  destruct (passesGate object w) eqn:Hg.
  - destruct (notifyActivation_passed object allObjects w Hg) as (_ & _ & Hl & _ & Ha).
    split; [done|]. eexists. split; [exact Ha|].
    apply Forall_forall. intros e [cb [-> Hcb]]%(list_elem_of_fmap_1 (λ cb, (cb, object))).
    done.
  - rewrite notifyActivation_blocked by done. apply hears_refl.
Qed.

Lemma hears_forEach (body : MediaObject → World → World) objs w :
  (∀ obj w', hears w' (body obj w')) → hears w (forEach body objs w).
Proof.
  intros Hbody. revert w. induction objs as [|obj objs IH]; intros w; [apply hears_refl|].
  eapply hears_trans; [apply (Hbody obj)|]. apply IH.
Qed.

Lemma hears_initialStatus x w : hears w (initialStatus x w).
Proof.
  unfold initialStatus.
  pose proof (hears_evaluateArmCondition x w) as Hh.
  destruct (evaluateArmCondition x w) as [ok w1]. simpl in Hh.
  eapply hears_trans; [exact Hh|]. by apply hears_quiet.
Qed.

Lemma hears_clearAllTimers w : hears w (clearAllTimers w).
Proof.
  unfold clearAllTimers.
  eapply hears_trans; [apply (hears_clearTimeouts (pendingTimers (sessionState w)))|].
  by apply hears_quiet.
Qed.

Lemma hears_initializeSession objs w : hears w (initializeSession objs w).
Proof.
  unfold initializeSession.
  set (w1 := with_session _ w).
  assert (H1 : hears w w1) by (by apply hears_quiet).
  pose proof (hears_clearAllTimers w1) as H2.
  set (w2 := clearAllTimers w1) in *. clearbody w2.
  assert (H3 : hears w2 (restoreSessionState w2).2).
  { unfold restoreSessionState. destruct (localStorage (host w2)); [|apply hears_refl].
    case_decide; by apply hears_quiet. }
  destruct (restoreSessionState w2) as [restored w3]. simpl in H3.
  assert (H123 : hears w w3) by (eapply hears_trans; [|exact H3]; by eapply hears_trans).
  destruct restored; [done|].
  eapply hears_trans; [exact H123|]. clear.
  revert w3. induction objs as [|x l IH]; intros w; [apply hears_refl|].
  simpl. eapply hears_trans; [apply hears_initialStatus | apply IH].
Qed.

Lemma hears_clearSessionState w : hears w (clearSessionState w).
Proof.
  unfold clearSessionState.
  set (w1 := with_session _ w).
  assert (H1 : hears w w1) by (by apply hears_quiet).
  pose proof (hears_clearAllTimers w1) as H2.
  set (w2 := clearAllTimers w1) in *. clearbody w2.
  eapply hears_trans; [exact H1|]. eapply hears_trans; [exact H2|].
  by apply hears_quiet.
Qed.

Lemma hears_runTimer t w : hears w (runTimer t w).
Proof.
  unfold runTimer.
  destruct (timers (host w) !! t) as [[due cb]|]; [|apply hears_refl].
  case_decide; [|apply hears_refl].
  eapply hears_trans; [apply (hears_quiet w (clearTimeout t w)); done|].
  set (w1 := clearTimeout t w). clearbody w1.
  destruct cb as [k s|k|k|x]; simpl.
  - eapply hears_trans; [|apply hears_persist].
    eapply hears_trans; [apply hears_sameFrame, (sameFrame_setTriggerStatus k s)|].
    by apply hears_quiet.
  - match goal with |- hears _ (with_session _ ?w2) =>
      eapply (hears_trans _ w2); [|by apply hears_quiet] end.
    destruct (findObject k w1) as [x|]; [|apply hears_refl].
    case_decide; [|apply hears_refl].
    pose proof (hears_evaluateArmCondition x w1) as Hh.
    destruct (evaluateArmCondition x w1) as [ok w2]. simpl in Hh.
    destruct ok; [|done].
    eapply hears_trans; [exact Hh|].
    eapply hears_trans; [|apply hears_persist].
    apply hears_sameFrame, sameFrame_setTriggerStatus.
  - by apply hears_quiet.
  - eapply hears_trans; [apply hears_notifyActivation|]. by apply hears_quiet.
Qed.

Lemma hears_handle e w :
  (∀ cb, e ≠ Subscribe cb) → (∀ cb, e ≠ Unsubscribe cb) → hears w (handle e w).
Proof.
  intros Hsub Hunsub.
  destruct e; simpl.
  - apply hears_initializeSession.
  - apply hears_clearSessionState.
  - apply hears_processTriggerActivation.
  - apply hears_completeTrigger.
  - apply hears_sameFrame, updateDependentTriggers_frame.
  - apply hears_notifyActivation.
  - unfold checkGPSTrigger. apply hears_forEach. intros obj w'. cbv zeta.
    repeat (match goal with |- hears _ (if ?b then _ else _) => destruct b end);
      (apply hears_refl || apply hears_notifyActivation).
  - unfold checkQRTrigger. apply hears_forEach. intros obj w'.
    repeat (match goal with |- hears _ (if ?b then _ else _) => destruct b end);
      (apply hears_refl || apply hears_notifyActivation).
  - unfold checkShakeTrigger. apply hears_forEach. intros obj w'. cbv zeta.
    repeat (match goal with |- hears _ (if ?b then _ else _) => destruct b end);
      (apply hears_refl || apply hears_notifyActivation).
  - unfold checkTiltTrigger. apply hears_forEach. intros obj w'. cbv zeta.
    repeat (match goal with |- hears _ (if ?b then _ else _) => destruct b end);
      (apply hears_refl || apply hears_notifyActivation).
  - unfold checkCompassTrigger. apply hears_forEach. intros obj w'.
    repeat (match goal with |- hears _ (if ?b then _ else _) => destruct b end);
      (apply hears_refl || apply hears_notifyActivation).
  - unfold checkTapTrigger. apply hears_forEach. intros obj w'.
    repeat (match goal with |- hears _ (if ?b then _ else _) => destruct b end);
      (apply hears_refl || apply hears_notifyActivation).
  - by apply hears_quiet.
  - unfold checkHoldTrigger.
    destruct (touchStartTime (state w)); [|apply hears_refl].
    case_decide; [apply hears_refl|].
    match goal with |- hears _ (with_state _ ?w2) =>
      apply (hears_trans _ w2); [|by apply hears_quiet] end.
    apply hears_forEach. intros obj w'. cbv zeta.
    repeat (match goal with |- hears _ (if ?b then _ else _) => destruct b end);
      (apply hears_refl || apply hears_notifyActivation).
  - apply hears_forEach. intros obj w'. unfold startTimer.
    repeat (match goal with |- hears _ (if ?b then _ else _) => destruct b end);
      try apply hears_refl.
    by apply hears_quiet.
  - unfold clearTimerTriggers.
    eapply hears_trans; [apply (hears_clearTimeouts (timerTimeouts (state w)))|].
    by apply hears_quiet.
  - unfold checkProximityTrigger. apply hears_forEach. intros obj w'. cbv zeta.
    repeat (match goal with |- hears _ (if ?b then _ else _) => destruct b end);
      (apply hears_refl || apply hears_notifyActivation).
  - unfold manuallyActivate, invokeListeners. split; [done|]. simpl.
    eexists. split; [done|].
    apply Forall_forall. intros x [cb [-> Hcb]]%(list_elem_of_fmap_1 (λ cb, (cb, object))).
    done.
  - by apply hears_quiet.
  - by apply hears_quiet.
  - by apply hears_quiet.
  - by destruct (Hsub callback).
  - by destruct (Hunsub callback).
  - apply hears_runTimer.
  - by apply hears_quiet.
Qed.

Lemma callsTo_others cb (new : list (nat * MediaObject)) (ls : list nat) :
  cb ∉ ls → Forall (λ x, x.1 ∈ ls) new → callsTo cb new = [].
Proof.
  intros Hcb Hnew. unfold callsTo.
  induction Hnew as [|x new Hx Hnew IH]; [done|].
  rewrite filter_cons_False; [done|]. intros Heq. apply Hcb. by rewrite <- Heq.
Qed.

(** An observer that is not subscribed is not called: after [unsubscribe],
    whatever the session goes through, until the same observer subscribes
    again, it receives no call. *)
Theorem unsubscribed_observer_is_silent (cb : nat) (es : list Event) (w : World) :
  Forall (λ e, e ≠ Subscribe cb) es →
  let w' := run es (unsubscribe cb w) in
  (cb ∉ listeners (state w'))
  ∧ (callsTo cb (activations (host w')) = callsTo cb (activations (host w))).
Proof.
  intros Hes.
  assert (Hgen : ∀ w0, cb ∉ listeners (state w0) →
            (cb ∉ listeners (state (run es w0)))
            ∧ (callsTo cb (activations (host (run es w0)))
               = callsTo cb (activations (host w0)))).
  { induction Hes as [|e es He Hes IH]; intros w0 Hcb; [done|].
    simpl.
    assert (Hstep : (cb ∉ listeners (state (handle e w0)))
                    ∧ (callsTo cb (activations (host (handle e w0)))
                       = callsTo cb (activations (host w0)))).
    { assert (Hcases : (∃ c, e = Subscribe c) ∨ (∃ c, e = Unsubscribe c)
                       ∨ ((∀ c, e ≠ Subscribe c) ∧ (∀ c, e ≠ Unsubscribe c))).
      { destruct e; eauto; right; right; split; intros c; discriminate. }
      destruct Hcases as [[c ->] | [[c ->] | [Hs Hu]]]; simpl.
      - unfold onTriggerActivation. case_decide; [done|]. simpl. split; [|done].
        rewrite elem_of_app, list_elem_of_singleton. intros [?| ->]; [done|].
        by apply He.
      - split; [|done]. intros [_ ?]%list_elem_of_filter. done.
      - destruct (hears_handle e w0 Hs Hu) as [Hl (new & Ha & Hf)].
        rewrite Hl, Ha, callsTo_app, (callsTo_others cb new _ Hcb Hf).
        by rewrite app_nil_r. }
    destruct Hstep as [Hcb' Hcalls].
    destruct (IH (handle e w0) Hcb') as [H1 H2].
    split; [exact H1|]. by rewrite H2. }
  destruct (Hgen (unsubscribe cb w)) as [H1 H2]; [|by split].
  unfold unsubscribe. simpl. intros [Hne _]%list_elem_of_filter. done.
Qed.

Lemma unsubscribed_observer_is_silent_witness :
  callsTo 7%nat (activations (host
    (run [CheckTap touch [objA; objB]; Manual objB; Elapse 31000; TimerDue 1]
       (unsubscribe 7%nat chainWorld)))) = [].
Proof.
  apply (unsubscribed_observer_is_silent 7%nat
           [CheckTap touch [objA; objB]; Manual objB; Elapse 31000; TimerDue 1] chainWorld).
  repeat constructor; discriminate.
Defined.

(** The activation observers form a set: whatever the session goes through,
    no observer is registered twice (subscribing an observer again changes
    nothing), so every activation that passes the gate calls every
    subscribed observer exactly once. *)
Theorem observers_form_a_set (es : list Event) (w : World) (cb : nat) :
  NoDup (listeners (state w)) →
  let w' := run es w in
  NoDup (listeners (state w'))
  ∧ onTriggerActivation cb (onTriggerActivation cb w') = onTriggerActivation cb w'
  ∧ (∀ object allObjects, passesGate object w' = true → cb ∈ listeners (state w') →
       callsTo cb (activations (host (notifyActivation object allObjects w')))
       = callsTo cb (activations (host w')) ++ [object]).
Proof.
  intros Hnd.
  assert (Hrun : NoDup (listeners (state (run es w)))).
  { revert w Hnd. induction es as [|e es IH]; intros w Hnd; [done|].
    simpl. apply IH.
    assert (Hcases : (∃ c, e = Subscribe c) ∨ (∃ c, e = Unsubscribe c)
                     ∨ ((∀ c, e ≠ Subscribe c) ∧ (∀ c, e ≠ Unsubscribe c))).
    { destruct e; eauto; right; right; split; intros c; discriminate. }
    destruct Hcases as [[c ->] | [[c ->] | [Hs Hu]]]; simpl.
    - unfold onTriggerActivation. case_decide as Hc; [done|]. simpl.
      apply NoDup_app. split; [done|]. split; [|apply NoDup_singleton].
      intros x Hx ->%list_elem_of_singleton. done.
    - by apply NoDup_filter.
    - by rewrite (hears_listeners _ _ (hears_handle e w Hs Hu)). }
  simpl. split; [exact Hrun|]. split.
  - unfold onTriggerActivation at 1.
    rewrite decide_True; [done|].
    unfold onTriggerActivation. case_decide; [done|]. simpl.
    apply elem_of_app. right. by apply list_elem_of_singleton.
  - intros object allObjects Hg Hcb.
    destruct (notifyActivation_passed object allObjects _ Hg) as (_ & _ & _ & _ & Ha).
    rewrite Ha, callsTo_app. by rewrite callsTo_broadcast.
Qed.

Lemma observers_form_a_set_witness :
  NoDup (listeners (state (run [Subscribe 7%nat; Subscribe 8%nat; Subscribe 7%nat] chainWorld)))
  ∧ callsTo 8%nat (activations (host
      (notifyActivation objA None
         (run [Subscribe 7%nat; Subscribe 8%nat; Subscribe 7%nat] chainWorld)))) = [objA].
Proof.
  destruct (observers_form_a_set [Subscribe 7%nat; Subscribe 8%nat; Subscribe 7%nat]
              chainWorld 8%nat) as (Hnd & _ & Hc).
  - vm_compute. apply NoDup_singleton.
  - split; [exact Hnd|]. apply (Hc objA None); [vm_compute; reflexivity|].
    vm_compute. apply list_elem_of_In. right. left. reflexivity.
Defined.

(** ** The active set *)

(** An object without arm condition that is not active is shown by
    [notifyActivation], and one removal from the active set is queued for
    it, due after [resetTimeout] ms (30000 when the field is absent) as the
    host reads them: that many ms later for a timeout below 2^31 ms, at
    once for one from 2^31 up to 2^32 ms.  Until the removal is due a
    further notification is ignored; from then on the object is out of the
    active set and can be shown again.  With a timeout of 0 or less no
    removal is queued, and the object stays active. *)
Theorem activation_expires (object : MediaObject)
    (allObjects : option (list MediaObject)) (w : World) :
  armCondition object = None → id object ∉ activeObjects (state w) →
  let timeout := default 30000 (resetTimeout object) in
  let h := nextTimerId (host w) in
  let w1 := notifyActivation object allObjects w in
  id object ∈ activeObjects (state w1)
  ∧ (timeout ≤ 0 → timers (host w1) = timers (host w))
  ∧ (timeout > 0 →
     timers (host w1)
     = <[h := (now (host w) + hostDelay timeout, DeactivateTimer (id object))]>
         (timers (host w))
     ∧ (timeout < 2147483648 → hostDelay timeout = timeout)
     ∧ (2147483648 ≤ timeout < 4294967296 → hostDelay timeout = 0)
     ∧ ∀ dt, 0 ≤ dt →
         (dt < hostDelay timeout →
            runTimer h (advance dt w1) = advance dt w1
            ∧ passesGate object (advance dt w1) = false)
         ∧ (hostDelay timeout ≤ dt →
            activeObjects (state (runTimer h (advance dt w1))) = activeObjects (state w)
            ∧ passesGate object (runTimer h (advance dt w1)) = true)).
Proof.
  intros Hc Ha. unfold notifyActivation. rewrite decide_False by done. rewrite Hc.
  assert (Hin : id object ∈ {[id object]} ∪ activeObjects (state w)).
  { apply elem_of_union_l. by apply elem_of_singleton. }
  cbv zeta. destruct (decide (default 30000 (resetTimeout object) > 0)) as [Hpos|Hneg].
  - split; [done|]. split; [lia|]. intros _. simpl.
    split; [done|]. split; [intros Hsmall; apply hostDelay_small; lia|].
    split; [apply hostDelay_overflow|].
    intros dt Hdt. unfold runTimer. simpl. rewrite lookup_insert_eq.
    split; intros Hd.
    + rewrite decide_False by lia. split; [done|].
      unfold passesGate. simpl. by rewrite bool_decide_eq_true_2.
    + rewrite decide_True by lia. simpl.
      assert (Hset : ({[id object]} ∪ activeObjects (state w)) ∖ {[id object]}
                     = activeObjects (state w)).
      { apply set_eq. intros x. rewrite elem_of_difference, elem_of_union, elem_of_singleton.
        split; [intros [[?|?] ?]; done|]. intros Hx. split; [by right|]. by intros ->. }
      rewrite Hset. split; [done|].
      unfold passesGate. simpl. rewrite Hset, Hc.
      by rewrite bool_decide_eq_false_2.
  - split; [done|]. split; [done|]. lia.
Qed.

Lemma activation_expires_witness :
  runTimer 1 (advance 29999 (notifyActivation objA None chainWorld))
  = advance 29999 (notifyActivation objA None chainWorld)
  ∧ passesGate objA (runTimer 1 (advance 30000 (notifyActivation objA None chainWorld)))
    = true.
Proof.
  destruct (activation_expires objA None chainWorld) as (_ & _ & Hp);
    [reflexivity | vm_compute; set_solver |].
  destruct Hp as (_ & Hsmall & _ & Hrun); [vm_compute; reflexivity|].
  rewrite Hsmall in Hrun by (by vm_compute).
  split.
  - apply (Hrun 29999); [lia | vm_compute; reflexivity].
  - apply (Hrun 30000); [lia | vm_compute; discriminate].
Defined.

(** ** Delayed arming *)

Lemma evaluateArmCondition_deferred (trigger : MediaObject) (dep : string) (d c : Z)
    (w : World) :
  armsAfter dep d trigger → dep ≠ "" → d ≠ 0 →
  reached (triggerStatus (sessionState w) !! dep) = true →
  default 0 (statusChangedAt (sessionState w) !! dep) = c →
  evaluateArmCondition trigger w
  = if decide (now (host w) - c < d)
    then (false, scheduleArmEvaluation (id trigger) (d - (now (host w) - c)) w)
    else (true, w).
Proof.
  intros (cnd & Hc & Ht & Hi & Hd) Hne Hd0 Hr Hat.
  unfold evaluateArmCondition. rewrite Hc, Ht, Hi, Hd, Hr, Hat. simpl.
  rewrite decide_False by done. by rewrite decide_False by done.
Qed.

(** An idle object of the session that waits [d] ms after [dep], looked at
    while [dep] is reached but the delay has not elapsed, is refused and one
    re-evaluation is queued, due after the remaining delay as the host
    reads it: at the moment the delay ends when less than 2^31 ms remain,
    at once when from 2^31 up to 2^32 ms remain.  Looking again queues
    nothing more.  The queued timer does nothing before it is due.  Run
    when the delay has ended, it arms the object and removes its entries;
    run when it is due but the delay has not ended, it leaves the object
    idle and removes its entries all the same. *)
Theorem delayed_arming (trigger : MediaObject) (dep : string) (d c : Z) (w : World) :
  armsAfter dep d trigger → dep ≠ "" → 0 < d →
  reached (triggerStatus (sessionState w) !! dep) = true →
  default 0 (statusChangedAt (sessionState w) !! dep) = c →
  now (host w) - c < d →
  pendingTimers (sessionState w) !! armKey (id trigger) = None →
  findObject (id trigger) w = Some trigger →
  getTriggerStatus (id trigger) w = idle →
  let h := nextTimerId (host w) in
  let remaining := d - (now (host w) - c) in
  let w1 := (evaluateArmCondition trigger w).2 in
  armOk trigger w = false
  ∧ timers (host w1)
    = <[h := (now (host w) + hostDelay remaining, ArmEvaluationTimer (id trigger))]>
        (timers (host w))
  ∧ (remaining < 2147483648 → now (host w) + hostDelay remaining = c + d)
  ∧ (2147483648 ≤ remaining < 4294967296 → hostDelay remaining = 0)
  ∧ pendingTimers (sessionState w1)
    = <[armKey (id trigger) := h]> (pendingTimers (sessionState w))
  ∧ evaluateArmCondition trigger w1 = (false, w1)
  ∧ ∀ dt, 0 ≤ dt →
      let w2 := runTimer h (advance dt w1) in
      (dt < hostDelay remaining → w2 = advance dt w1)
      ∧ (hostDelay remaining ≤ dt →
         getTriggerStatus (id trigger) w2 = (if decide (remaining ≤ dt) then armed else idle)
         ∧ timers (host w2) = delete h (timers (host w1))
         ∧ pendingTimers (sessionState w2)
           = delete (armKey (id trigger)) (pendingTimers (sessionState w1))).
Proof.
  intros Harm Hne Hd Hr Hat Hlt Hpt Hfind Hidle h remaining w1.
  assert (Hd0 : d ≠ 0) by lia.
  pose proof (evaluateArmCondition_deferred trigger dep d c w Harm Hne Hd0 Hr Hat) as He.
  rewrite decide_True in He by done.
  assert (Hw1 : w1 = scheduleArmEvaluation (id trigger) remaining w).
  { subst w1. by rewrite He. }
  unfold scheduleArmEvaluation in Hw1. rewrite Hpt in Hw1. simpl in Hw1.
  fold h in Hw1.
  assert (Hq : timers (host w1)
               = <[h := (now (host w) + hostDelay remaining, ArmEvaluationTimer (id trigger))]>
                   (timers (host w)))
    by (by rewrite Hw1).
  assert (Hp : pendingTimers (sessionState w1)
               = <[armKey (id trigger) := h]> (pendingTimers (sessionState w)))
    by (by rewrite Hw1).
  assert (Hs : triggerStatus (sessionState w1) = triggerStatus (sessionState w))
    by (by rewrite Hw1).
  assert (Hca : statusChangedAt (sessionState w1) = statusChangedAt (sessionState w))
    by (by rewrite Hw1).
  assert (Hn : now (host w1) = now (host w)) by (by rewrite Hw1).
  assert (Ho : objects (sessionState w1) = objects (sessionState w)) by (by rewrite Hw1).
  split; [unfold armOk; by rewrite He|]. split; [done|].
  split; [intros Hsmall; rewrite hostDelay_small; subst remaining; lia|].
  split; [apply hostDelay_overflow|]. split; [done|]. split.
  { rewrite (evaluateArmCondition_deferred trigger dep d c w1 Harm Hne Hd0)
      by (by rewrite ?Hs, ?Hca).
    rewrite Hn, decide_True by done. unfold scheduleArmEvaluation.
    by rewrite Hp, lookup_insert_eq. }
  clear Hw1 He. intros dt Hdt. cbv zeta. unfold runTimer. simpl.
  rewrite Hq, lookup_insert_eq.
  rewrite Hn, Z.max_r by lia. split; intros Hdue.
  - by rewrite decide_False by lia.
  - rewrite decide_True by lia. unfold runCallback.
    remember (clearTimeout h (advance dt w1)) as w3 eqn:E3.
    assert (Hs3 : triggerStatus (sessionState w3) = triggerStatus (sessionState w))
      by (by rewrite E3).
    assert (Hca3 : statusChangedAt (sessionState w3) = statusChangedAt (sessionState w))
      by (by rewrite E3).
    assert (Hn3 : now (host w3) = now (host w) + dt)
      by (rewrite E3; simpl; rewrite Hn; lia).
    assert (Hq3 : timers (host w3) = delete h (timers (host w1))) by (by rewrite E3).
    assert (Hp3 : pendingTimers (sessionState w3) = pendingTimers (sessionState w1))
      by (by rewrite E3).
    assert (Hf3 : findObject (id trigger) w3 = Some trigger).
    { unfold findObject. rewrite E3. simpl. rewrite Ho. exact Hfind. }
    assert (Hi3 : getTriggerStatus (id trigger) w3 = idle).
    { unfold getTriggerStatus. rewrite Hs3. exact Hidle. }
    clear E3. rewrite Hf3, Hi3. rewrite decide_True by done.
    rewrite (evaluateArmCondition_deferred trigger dep d c w3 Harm Hne Hd0)
      by (by rewrite ?Hs3, ?Hca3).
    rewrite Hn3. destruct (decide (remaining ≤ dt)) as [Hended|Hearly].
    + rewrite decide_False by (subst remaining; lia).
      split; [|split].
      * unfold getTriggerStatus. simpl. rewrite persistSessionState_session.
        by rewrite setTriggerStatus_lookup, decide_True.
      * simpl. destruct (persistSessionState_host_rest (setTriggerStatus (id trigger) armed w3))
          as (_ & _ & -> & _).
        destruct (setTriggerStatus_timers (id trigger) armed w3) as (_ & -> & _).
        by rewrite Hq3, Hq.
      * simpl. rewrite persistSessionState_session.
        destruct (setTriggerStatus_timers (id trigger) armed w3) as (-> & _).
        by rewrite Hp3.
    + rewrite decide_True by (subst remaining; lia).
      unfold scheduleArmEvaluation. rewrite Hp3, Hp, lookup_insert_eq.
      split; [|split].
      * unfold getTriggerStatus in *. simpl. exact Hi3.
      * simpl. by rewrite Hq3, Hq.
      * simpl. by rewrite Hp3, Hp.
Qed.

Lemma delayed_arming_witness :
  getTriggerStatus "D"
    (runTimer 1 (advance 5000
       (evaluateArmCondition objDelayed
          (setTriggerStatus "A" triggered
             (initializeSession [objA; objDelayed] freshWorld))).2)) = armed.
Proof.
  destruct (delayed_arming objDelayed "A" 5000 1000
              (setTriggerStatus "A" triggered
                 (initializeSession [objA; objDelayed] freshWorld)))
    as (_ & _ & _ & _ & _ & _ & Hrun);
    [eexists; repeat split | discriminate | lia | reflexivity | reflexivity
    | vm_compute; reflexivity | reflexivity | reflexivity | reflexivity |].
  destruct (Hrun 5000 ltac:(lia)) as [_ Hdue].
  destruct Hdue as (Hs & _); [vm_compute; discriminate|].
  refine (eq_trans Hs _). vm_compute. reflexivity.
Defined.

(** When the re-evaluation timer of a delayed object runs while the delay
    counts as not elapsed (the dependency's status, and with it its
    timestamp, changed again after the timer was queued), the object stays
    idle and the timer only removes itself: the attempt to queue a new
    re-evaluation finds the old entry still in place and gives up, and the
    entry is deleted afterwards. *)
Theorem delayed_arming_missed (trigger : MediaObject) (dep : string) (d c due : Z)
    (h : positive) (w : World) :
  armsAfter dep d trigger → dep ≠ "" → d ≠ 0 →
  reached (triggerStatus (sessionState w) !! dep) = true →
  default 0 (statusChangedAt (sessionState w) !! dep) = c →
  pendingTimers (sessionState w) !! armKey (id trigger) = Some h →
  timers (host w) !! h = Some (due, ArmEvaluationTimer (id trigger)) →
  due ≤ now (host w) → now (host w) - c < d →
  findObject (id trigger) w = Some trigger →
  getTriggerStatus (id trigger) w = idle →
  runTimer h w
  = with_session (λ s, set_pendingTimers (delete (armKey (id trigger)) (pendingTimers s)) s)
      (clearTimeout h w)
  ∧ getTriggerStatus (id trigger) (runTimer h w) = idle
  ∧ pendingTimers (sessionState (runTimer h w)) !! armKey (id trigger) = None
  ∧ timers (host (runTimer h w)) !! h = None.
Proof.
  intros Harm Hne Hd0 Hr Hat Hpt Hq Hdue Hlt Hfind Hidle.
  assert (Hrun : runTimer h w
    = with_session (λ s, set_pendingTimers (delete (armKey (id trigger)) (pendingTimers s)) s)
        (clearTimeout h w)).
  { unfold runTimer. rewrite Hq, decide_True by done. unfold runCallback.
    change (findObject (id trigger) (clearTimeout h w)) with (findObject (id trigger) w).
    change (getTriggerStatus (id trigger) (clearTimeout h w))
      with (getTriggerStatus (id trigger) w).
    rewrite Hfind, Hidle, decide_True by done.
    rewrite (evaluateArmCondition_deferred trigger dep d c (clearTimeout h w) Harm Hne Hd0)
      by done.
    change (now (host (clearTimeout h w))) with (now (host w)).
    rewrite decide_True by done. unfold scheduleArmEvaluation.
    change (pendingTimers (sessionState (clearTimeout h w)))
      with (pendingTimers (sessionState w)).
    by rewrite Hpt. }
  rewrite Hrun. split; [done|]. split; [exact Hidle|]. simpl.
  by rewrite !lookup_delete_eq.
Qed.

Lemma delayed_arming_missed_witness :
  getTriggerStatus "D" (runTimer 1 lateWorld) = idle
  ∧ timers (host (runTimer 1 lateWorld)) !! 1%positive = None.
Proof.
  destruct (delayed_arming_missed objDelayed "A" 5000 4000 6000 1 lateWorld)
    as (_ & Hi & _ & Hq);
    [eexists; repeat split | discriminate | lia | reflexivity | reflexivity
    | reflexivity | reflexivity | vm_compute; discriminate | vm_compute; reflexivity
    | reflexivity | reflexivity |].
  split; [exact Hi | exact Hq].
Defined.

(** ** QR codes *)

Lemma notifyActivation_grows object allObjects w i :
  i ∈ activeObjects (state w) →
  i ∈ activeObjects (state (notifyActivation object allObjects w)).
Proof.
  intros Hi. destruct (passesGate object w) eqn:Hg.
  - destruct (notifyActivation_passed object allObjects w Hg) as (-> & _).
    by apply elem_of_union_r.
  - by rewrite notifyActivation_blocked.
Qed.

Lemma notifyActivation_shows object allObjects w :
  armCondition object = None →
  id object ∈ activeObjects (state (notifyActivation object allObjects w)).
Proof.
  intros Hc. destruct (passesGate object w) eqn:Hg.
  - destruct (notifyActivation_passed object allObjects w Hg) as (-> & _).
    apply elem_of_union_l. by apply elem_of_singleton.
  - rewrite notifyActivation_blocked by done.
    unfold passesGate in Hg. rewrite Hc, andb_true_r in Hg.
    by apply negb_false_iff, bool_decide_eq_true in Hg.
Qed.

Lemma checkQRTrigger_grows objs scannedCode w i :
  i ∈ activeObjects (state w) →
  i ∈ activeObjects (state (checkQRTrigger objs scannedCode w)).
Proof.
  unfold checkQRTrigger, forEach. revert w.
  induction objs as [|x objs IH]; intros w Hi; [done|].
  simpl. apply IH. repeat case_match; try done. by apply notifyActivation_grows.
Qed.

(** The text that [generateQRData] gives for an active QR object without arm
    condition makes [checkQRTrigger] show that object, wherever it stands in
    the list and whatever else the scan shows; so does the object's id,
    whether or not the object has a code of its own. *)
Theorem scanning_generated_code_activates (objs : list MediaObject) (o : MediaObject)
    (w : World) :
  o ∈ objs → ofKind qr o = true → armCondition o = None →
  id o ∈ activeObjects (state (checkQRTrigger objs (generateQRData o) w))
  ∧ id o ∈ activeObjects (state (checkQRTrigger objs (id o) w)).
Proof.
  intros Hin Hk Hc.
  assert (Hscan : ∀ scannedCode,
    bool_decide (code (params (trigger o)) = Some scannedCode)
    || bool_decide (id o = scannedCode) = true →
    id o ∈ activeObjects (state (checkQRTrigger objs scannedCode w))).
  { intros scannedCode Hm. revert w.
    induction objs as [|x objs IH]; intros w; [by apply elem_of_nil in Hin|].
    apply elem_of_cons in Hin as [<-|Hin].
    - change (checkQRTrigger (o :: objs) scannedCode w)
        with (checkQRTrigger objs scannedCode
                (if negb (ofKind qr o) then w
                 else if bool_decide (code (params (trigger o)) = Some scannedCode)
                         || bool_decide (id o = scannedCode)
                      then notifyActivation o None w else w)).
      rewrite Hk, Hm. simpl. apply checkQRTrigger_grows.
      by apply notifyActivation_shows.
    - by apply IH. }
  split; apply Hscan.
  - unfold generateQRData. destruct (code (params (trigger o))) as [c|] eqn:Ec.
    + destruct (decide (c = "")) as [->|Hne].
      * rewrite (bool_decide_eq_true_2 (id o = id o)) by done. apply orb_true_r.
      * by rewrite bool_decide_eq_true_2.
    + rewrite (bool_decide_eq_true_2 (id o = id o)) by done. apply orb_true_r.
  - rewrite (bool_decide_eq_true_2 (id o = id o)) by done. apply orb_true_r.
Qed.

Lemma scanning_generated_code_activates_witness :
  "Q1" ∈ activeObjects (state (checkQRTrigger [objA; objQR] "door-7" freshWorld)).
Proof.
  destruct (scanning_generated_code_activates [objA; objQR] objQR freshWorld) as [H _];
    [apply elem_of_cons; right; apply elem_of_cons; by left | reflexivity | reflexivity |].
  exact H.
Defined.

(** ** Status announcements *)

Lemma orderly_same w w' :
  statusEvents (host w') = statusEvents (host w) →
  timers (host w') = timers (host w) →
  orderly w → orderly w'.
Proof. intros He Ht [H1 H2]. split; by rewrite ?He, ?Ht. Qed.

Lemma orderly_setTriggerStatus i s w :
  match s with
  | idle => False
  | armed => True
  | triggered => triggerStatus (sessionState w) !! i = Some armed
  | completed => triggerStatus (sessionState w) !! i = Some triggered
  end →
  orderly w → orderly (setTriggerStatus i s w).
Proof.
  intros Hs [H1 H2]. split.
  - rewrite setTriggerStatus_events. case_decide as Hp; [by rewrite app_nil_r|].
    apply Forall_app. split; [done|]. apply Forall_cons_2; [|apply Forall_nil_2].
    split; [exact Hp|exact Hs].
  - by rewrite (proj1 (proj2 (setTriggerStatus_timers i s w))).
Qed.

Lemma orderly_setTimeout cb d w :
  armingTimer cb → orderly w → orderly (setTimeout cb d w).2.
Proof. intros Hcb [H1 H2]. split; [done|]. simpl. by apply map_Forall_insert_2. Qed.

Lemma orderly_clearTimeout t w : orderly w → orderly (clearTimeout t w).
Proof. intros [H1 H2]. split; [done|]. simpl. by apply map_Forall_delete. Qed.

Lemma orderly_clearTimeouts {K} `{Countable K} (m : gmap K positive) (w : World) :
  orderly w → orderly (map_fold (λ _ t acc, clearTimeout t acc) w m).
Proof.
  intros Hw. apply (map_fold_weak_ind (λ r _, orderly r)); [done|].
  intros i t m' r _ Hr. by apply orderly_clearTimeout.
Qed.

Lemma orderly_with_state f w : orderly w → orderly (with_state f w).
Proof. by apply orderly_same. Qed.

Lemma orderly_with_session f w : orderly w → orderly (with_session f w).
Proof. by apply orderly_same. Qed.

Lemma orderly_invokeListeners x w : orderly w → orderly (invokeListeners x w).
Proof. by apply orderly_same. Qed.

Lemma orderly_persist w : orderly w → orderly (persistSessionState w).
Proof.
  destruct (persistSessionState_host_rest w) as (_ & _ & Ht & _ & He & _).
  by apply orderly_same.
Qed.

Lemma orderly_scheduleArmEvaluation i d w :
  orderly w → orderly (scheduleArmEvaluation i d w).
Proof.
  intros Hw. unfold scheduleArmEvaluation.
  destruct (pendingTimers (sessionState w) !! armKey i); [done|].
  apply (orderly_with_session _ (setTimeout (ArmEvaluationTimer i) d w).2).
  by apply orderly_setTimeout.
Qed.

Lemma orderly_evaluateArmCondition x w :
  orderly w → orderly (evaluateArmCondition x w).2.
Proof.
  intros Hw. unfold evaluateArmCondition.
  repeat (case_match || case_decide); simpl;
    (exact Hw || by apply orderly_scheduleArmEvaluation).
Qed.

Lemma orderly_updateDependent changed x w :
  orderly w → orderly (updateDependent changed x w).
Proof.
  intros Hw. unfold updateDependent.
  case_decide; [done|]. case_decide as Hi; [|done].
  pose proof (orderly_evaluateArmCondition x w Hw) as Hw1.
  destruct (evaluateArmCondition x w) as [ok w1]. simpl in Hw1.
  destruct ok; [|done]. by apply orderly_setTriggerStatus.
Qed.

Lemma orderly_updateDependentTriggers changed l w :
  orderly w → orderly (updateDependentTriggers changed l w).
Proof.
  revert w. induction l as [|x l IH]; intros w Hw; [done|].
  simpl. by apply IH, orderly_updateDependent.
Qed.

Lemma getTriggerStatus_lookup i s w :
  s ≠ idle → getTriggerStatus i w = s → triggerStatus (sessionState w) !! i = Some s.
Proof.
  unfold getTriggerStatus. intros Hs. destruct (triggerStatus (sessionState w) !! i); simpl.
  - by intros ->.
  - by intros <-.
Qed.

Lemma orderly_processTriggerActivation trigger allTriggers w :
  orderly w → orderly (processTriggerActivation trigger allTriggers w).2.
Proof.
  intros Hw.
  destruct (decide (getTriggerStatus (id trigger) w = armed)) as [Hs|Hs].
  - rewrite processTriggerActivation_armed by done. simpl.
    apply orderly_persist, orderly_updateDependentTriggers, orderly_setTriggerStatus;
      [|done].
    by apply getTriggerStatus_lookup.
  - unfold processTriggerActivation. by rewrite decide_False.
Qed.

Lemma orderly_scheduleStatusChange i d w :
  orderly w → orderly (scheduleStatusChange i armed d w).
Proof.
  intros Hw. unfold scheduleStatusChange.
  set (w1 := match pendingTimers (sessionState w) !! i with
             | Some existingTimer => clearTimeout existingTimer w
             | None => w
             end).
  assert (Hw1 : orderly w1).
  { subst w1. destruct (pendingTimers (sessionState w) !! i); [|done].
    by apply orderly_clearTimeout. }
  apply (orderly_with_session _ (setTimeout (StatusChangeTimer i armed) d w1).2).
  by apply orderly_setTimeout.
Qed.

Lemma orderly_completeTrigger i trigger allTriggers w :
  orderly w → orderly (completeTrigger i trigger allTriggers w).
Proof.
  intros Hw. unfold completeTrigger.
  case_decide as Hs; [|done].
  apply getTriggerStatus_lookup in Hs; [|done].
  apply orderly_persist, orderly_updateDependentTriggers.
  unfold resetOrComplete.
  repeat (case_match || case_decide);
    first [ by apply orderly_setTriggerStatus | by apply orderly_scheduleStatusChange ].
Qed.

Lemma orderly_notifyActivation object allObjects w :
  orderly w → orderly (notifyActivation object allObjects w).
Proof.
  intros Hw. unfold notifyActivation.
  destruct (decide (id object ∈ activeObjects (state w))); [done|].
  set (gate := match armCondition object with
               | Some _ =>
                 if decide (getTriggerStatus (id object) w = armed)
                 then processTriggerActivation object allObjects w
                 else (false, w)
               | None => (true, w)
               end).
  assert (Hg : orderly gate.2).
  { subst gate. destruct (armCondition object); [|done].
    case_decide; [|done]. by apply orderly_processTriggerActivation. }
  destruct gate as [proceed w1]. simpl in Hg.
  destruct proceed; [|done].
  assert (Hw3 : orderly (invokeListeners object
            (with_state (λ s, set_activeObjects ({[id object]} ∪ activeObjects s) s) w1))).
  { by apply orderly_invokeListeners, orderly_with_state. }
  case_decide; [|done]. by apply orderly_setTimeout.
Qed.

Lemma orderly_forEach (body : MediaObject → World → World) objs w :
  (∀ obj w', orderly w' → orderly (body obj w')) →
  orderly w → orderly (forEach body objs w).
Proof.
  intros Hbody. revert w. unfold forEach.
  induction objs as [|obj objs IH]; intros w Hw; [done|].
  simpl. apply IH, Hbody, Hw.
Qed.

Lemma orderly_runTimer t w : orderly w → orderly (runTimer t w).
Proof.
  intros Hw. unfold runTimer.
  destruct (timers (host w) !! t) as [[due cb]|] eqn:Et; [|done].
  case_decide; [|done].
  pose proof (ord_timers _ Hw t (due, cb) Et) as Hcb. simpl in Hcb.
  pose proof (orderly_clearTimeout t w Hw) as Hw1.
  set (w1 := clearTimeout t w) in *.
  destruct cb as [i s|i|i|x]; simpl.
  - apply orderly_persist.
    apply (orderly_with_session _ (setTriggerStatus i s w1)).
    apply orderly_setTriggerStatus; [|done]. by rewrite Hcb.
  - apply orderly_with_session.
    destruct (findObject i w1) as [x|]; [|done].
    case_decide as Hi; [|done].
    pose proof (orderly_evaluateArmCondition x w1 Hw1) as Hw2.
    destruct (evaluateArmCondition x w1) as [ok w2]. simpl in Hw2.
    destruct ok; [|done].
    by apply orderly_persist, orderly_setTriggerStatus.
  - by apply orderly_with_state.
  - apply orderly_with_state. by apply orderly_notifyActivation.
Qed.

Lemma orderly_initialStatus x w : orderly w → orderly (initialStatus x w).
Proof.
  intros Hw. unfold initialStatus.
  pose proof (orderly_evaluateArmCondition x w Hw) as Hw1.
  destruct (evaluateArmCondition x w) as [ok w1]. simpl in Hw1.
  by apply orderly_with_session.
Qed.

Lemma orderly_clearAllTimers w : orderly w → orderly (clearAllTimers w).
Proof.
  intros Hw. unfold clearAllTimers. by apply orderly_with_session, orderly_clearTimeouts.
Qed.

Lemma orderly_initializeSession objs w :
  orderly w → orderly (initializeSession objs w).
Proof.
  intros Hw. unfold initializeSession.
  remember (with_session (λ s, set_objects objs
              (set_statusChangedAt ∅ (set_triggerStatus ∅ s))) w) as w1 eqn:Ew1.
  assert (Hw1 : orderly w1) by (subst w1; by apply orderly_with_session).
  clear Ew1 Hw.
  pose proof (orderly_clearAllTimers w1 Hw1) as Hw2.
  set (w2 := clearAllTimers w1) in *. clearbody w2. clear Hw1 w1.
  assert (Hcold : ∀ w3, orderly w3 →
            orderly (fold_left (λ acc trigger, initialStatus trigger acc) objs w3)).
  { clear. induction objs as [|x l IH]; intros w Hw; [done|].
    simpl. by apply IH, orderly_initialStatus. }
  unfold restoreSessionState.
  destruct (localStorage (host w2)) as [data|] eqn:Hst; [|by apply Hcold].
  case_decide.
  - apply Hcold. by apply (orderly_same w2).
  - by apply orderly_with_session.
Qed.

Lemma orderly_clearSessionState w : orderly w → orderly (clearSessionState w).
Proof.
  intros Hw. unfold clearSessionState.
  remember (with_session (λ s, set_objects []
              (set_statusChangedAt ∅ (set_triggerStatus ∅ s))) w) as w1 eqn:Ew1.
  assert (Hw1 : orderly w1) by (subst w1; by apply orderly_with_session).
  clear Ew1 Hw.
  pose proof (orderly_clearAllTimers w1 Hw1) as Hw2.
  by apply (orderly_same (clearAllTimers w1)).
Qed.

Lemma orderly_handle e w : orderly w → orderly (handle e w).
Proof.
  intros Hw.
  assert (Hn : ∀ obj l w', orderly w' → orderly (notifyActivation obj l w'))
    by (intros; by apply orderly_notifyActivation).
  destruct e; simpl.
  - by apply orderly_initializeSession.
  - by apply orderly_clearSessionState.
  - by apply orderly_processTriggerActivation.
  - by apply orderly_completeTrigger.
  - by apply orderly_updateDependentTriggers.
  - by apply Hn.
  - unfold checkGPSTrigger. apply orderly_forEach; [|done]. intros obj w' Hw'. cbv zeta.
    repeat (match goal with |- orderly (if ?b then _ else _) => destruct b end);
      try done; by apply Hn.
  - unfold checkQRTrigger. apply orderly_forEach; [|done]. intros obj w' Hw'. cbv zeta.
    repeat (match goal with |- orderly (if ?b then _ else _) => destruct b end);
      try done; by apply Hn.
  - unfold checkShakeTrigger. apply orderly_forEach; [|done]. intros obj w' Hw'. cbv zeta.
    repeat (match goal with |- orderly (if ?b then _ else _) => destruct b end);
      try done; by apply Hn.
  - unfold checkTiltTrigger. apply orderly_forEach; [|done]. intros obj w' Hw'. cbv zeta.
    repeat (match goal with |- orderly (if ?b then _ else _) => destruct b end);
      try done; by apply Hn.
  - unfold checkCompassTrigger. apply orderly_forEach; [|done]. intros obj w' Hw'. cbv zeta.
    repeat (match goal with |- orderly (if ?b then _ else _) => destruct b end);
      try done; by apply Hn.
  - unfold checkTapTrigger. apply orderly_forEach; [|done]. intros obj w' Hw'. cbv zeta.
    repeat (match goal with |- orderly (if ?b then _ else _) => destruct b end);
      try done; by apply Hn.
  - by apply orderly_with_state.
  - unfold checkHoldTrigger.
    destruct (touchStartTime (state w)) as [start|]; [|done].
    case_decide; [done|].
    apply orderly_with_state, orderly_forEach; [|done]. intros obj w' Hw'. cbv zeta.
    repeat (match goal with |- orderly (if ?b then _ else _) => destruct b end);
      try done; by apply Hn.
  - apply orderly_forEach; [|done]. intros obj w' Hw'. unfold startTimer.
    destruct (negb (ofKind timer obj)); [done|]. case_decide; [done|].
    apply (orderly_with_state _
      (setTimeout (TimerTrigger obj) (numberOr (delay (params (trigger obj))) 5000) w').2).
    by apply orderly_setTimeout.
  - unfold clearTimerTriggers. by apply orderly_with_state, orderly_clearTimeouts.
  - unfold checkProximityTrigger. apply orderly_forEach; [|done]. intros obj w' Hw'. cbv zeta.
    repeat (match goal with |- orderly (if ?b then _ else _) => destruct b end);
      try done; by apply Hn.
  - unfold manuallyActivate.
    by apply orderly_with_state, orderly_invokeListeners, orderly_with_state.
  - by apply orderly_with_state.
  - by apply orderly_with_state.
  - by apply orderly_with_state.
  - unfold onTriggerActivation. case_decide; [done|]. by apply orderly_with_state.
  - by apply orderly_with_state.
  - by apply orderly_runTimer.
  - by apply (orderly_same w).
Qed.

(** Whatever the application does, in any order, the status changes
    announced to the status listeners follow the state machine: every
    announcement is a change; none is to [idle]; [triggered] is only
    announced from [armed], and [completed] only from [triggered].  The only
    status that a queued status change ever sets is [armed]. *)
Theorem announcements_follow_the_state_machine (es : list Event) (w : World) :
  orderly w →
  orderly (run es w)
  ∧ ∀ i s previous, (i, s, previous) ∈ statusEvents (host (run es w)) →
      previous ≠ Some s ∧ s ≠ idle
      ∧ (s = triggered → previous = Some armed)
      ∧ (s = completed → previous = Some triggered).
Proof.
  intros Hw.
  assert (Hrun : orderly (run es w)).
  { revert w Hw. induction es as [|e es IH]; intros w Hw; [done|].
    simpl. by apply IH, orderly_handle. }
  split; [done|]. intros i s previous Hin.
  destruct Hrun as [Hlog _].
  rewrite Forall_forall in Hlog. destruct (Hlog _ Hin) as [Hne Hs]. simpl in *.
  split; [done|]. destruct s; try done; repeat split; try done.
Qed.

Lemma announcements_follow_the_state_machine_witness :
  statusEvents (host (run chainSession freshWorld))
  = [("A", triggered, Some armed); ("B", armed, Some idle);
     ("A", completed, Some triggered); ("B", triggered, Some armed);
     ("B", completed, Some triggered)]
  ∧ orderly (run chainSession freshWorld).
Proof.
  split; [vm_compute; reflexivity|].
  apply (announcements_follow_the_state_machine chainSession freshWorld).
  split; [apply Forall_nil_2 | apply map_Forall_empty].
Defined.

(** ** Signals and thresholds *)

Lemma forEach_grows (body : MediaObject → World → World) objs w i :
  (∀ obj w', i ∈ activeObjects (state w') → i ∈ activeObjects (state (body obj w'))) →
  i ∈ activeObjects (state w) → i ∈ activeObjects (state (forEach body objs w)).
Proof.
  intros Hbody. revert w. unfold forEach.
  induction objs as [|x objs IH]; intros w Hi; [done|].
  simpl. by apply IH, Hbody.
Qed.

Lemma forEach_shows (body : MediaObject → World → World) objs o w :
  (∀ obj w' i, i ∈ activeObjects (state w') → i ∈ activeObjects (state (body obj w'))) →
  (∀ w', id o ∈ activeObjects (state (body o w'))) →
  o ∈ objs → id o ∈ activeObjects (state (forEach body objs w)).
Proof.
  intros Hgrow Hshow Hin. revert w.
  induction objs as [|x objs IH]; intros w; [by apply elem_of_nil in Hin|].
  apply elem_of_cons in Hin as [<-|Hin].
  - change (forEach body (o :: objs) w) with (forEach body objs (body o w)).
    apply forEach_grows; [intros; by apply Hgrow|apply Hshow].
  - change (forEach body (x :: objs) w) with (forEach body objs (body x w)).
    by apply IH.
Qed.

Lemma tilt_other_direction (s : string) (a b c d : bool) :
  s ≠ "forward" → s ≠ "back" → s ≠ "left" → s ≠ "right" →
  match Some s with
  | Some "forward" => a
  | Some "back" => b
  | Some "left" => c
  | Some "right" => d
  | _ => false
  end = false.
Proof.
  intros H1 H2 H3 H4.
  repeat (case_match; try done); subst; congruence.
Qed.

Lemma within_abs (x t : Z) :
  bool_decide (t - 15 ≤ x) && bool_decide (x ≤ t + 15) = bool_decide (Z.abs (x - t) ≤ 15).
Proof.
  destruct (decide (Z.abs (x - t) ≤ 15)) as [H|H].
  - rewrite !bool_decide_eq_true_2 by lia. done.
  - rewrite (bool_decide_eq_false_2 (Z.abs (x - t) ≤ 15)) by done.
    apply andb_false_iff.
    destruct (decide (t - 15 ≤ x)); [right|left]; apply bool_decide_eq_false_2; lia.
Qed.

(** The test of [checkTiltTrigger] on one object is [tiltHit]. *)
Lemma tilt_test (o : MediaObject) (beta gamma : Z) :
  let t := numberOr (angle (params (trigger o))) 30 in
  match direction (params (trigger o)) with
  | Some "forward" => bool_decide (t - 15 ≤ beta) && bool_decide (beta ≤ t + 15)
  | Some "back" => bool_decide (- t - 15 ≤ beta) && bool_decide (beta ≤ - t + 15)
  | Some "left" => bool_decide (- t - 15 ≤ gamma) && bool_decide (gamma ≤ - t + 15)
  | Some "right" => bool_decide (t - 15 ≤ gamma) && bool_decide (gamma ≤ t + 15)
  | _ => false
  end = true ↔ tiltHit o beta gamma.
Proof.
  intros t. unfold tiltHit. fold t.
  destruct (direction (params (trigger o))) as [s|]; [|split; [done|]].
  2: { intros [[? _]|[[? _]|[[? _]|[? _]]]]; done. }
  destruct (decide (s = "forward")) as [->|H1].
  { rewrite within_abs, bool_decide_eq_true.
    split; [by left|]. intros [[_ ?]|[[? _]|[[? _]|[? _]]]]; done. }
  destruct (decide (s = "back")) as [->|H2].
  { replace (beta + t) with (beta - - t) by lia.
    rewrite within_abs, bool_decide_eq_true.
    split; [by right; left|]. intros [[? _]|[[_ ?]|[[? _]|[? _]]]]; done. }
  destruct (decide (s = "left")) as [->|H3].
  { replace (gamma + t) with (gamma - - t) by lia.
    rewrite within_abs, bool_decide_eq_true.
    split; [by right; right; left|]. intros [[? _]|[[? _]|[[_ ?]|[? _]]]]; done. }
  destruct (decide (s = "right")) as [->|H4].
  { rewrite within_abs, bool_decide_eq_true.
    split; [by right; right; right|]. intros [[? _]|[[? _]|[[? _]|[_ ?]]]]; done. }
  rewrite tilt_other_direction by done. split; [done|].
  intros [[? _]|[[? _]|[[? _]|[? _]]]]; congruence.
Qed.

(** An active object without arm condition whose signal is satisfied is in
    the active set after its evaluator has run, wherever it stands in the
    list: acceleration at or above the shake threshold (15 when absent or
    0), at least [minDevices] devices nearby (2), a tap of its kind, a tilt
    within 15 degrees of its angle (30) on its axis, a hold of at least its
    duration (2000 ms). *)
Theorem satisfied_objects_are_shown (objs : list MediaObject) (o : MediaObject)
    (w : World) :
  o ∈ objs → active o = true → armCondition o = None →
  (type (trigger o) = shake → ∀ a, numberOr (threshold (params (trigger o))) 15 ≤ a →
     id o ∈ activeObjects (state (checkShakeTrigger objs a w)))
  ∧ (type (trigger o) = proximity → ∀ n, numberOr (minDevices (params (trigger o))) 2 ≤ n →
     id o ∈ activeObjects (state (checkProximityTrigger objs n w)))
  ∧ id o ∈ activeObjects (state (checkTapTrigger (type (trigger o)) objs w))
  ∧ (type (trigger o) = tilt → ∀ beta gamma, tiltHit o beta gamma →
     id o ∈ activeObjects (state (checkTiltTrigger objs beta gamma w)))
  ∧ (type (trigger o) = hold → ∀ dt, now (host w) ≠ 0 →
     numberOr (duration (params (trigger o))) 2000 ≤ dt →
     id o ∈ activeObjects (state (checkHoldTrigger objs (advance dt (startHoldDetection w))))).
Proof.
  intros Hin Hact Hc.
  assert (Hkind : ∀ k, type (trigger o) = k → ofKind k o = true).
  { intros k Hk. unfold ofKind. by rewrite Hact, bool_decide_eq_true_2. }
  assert (Hshow : ∀ w', id o ∈ activeObjects (state (notifyActivation o None w')))
    by (intros; by apply notifyActivation_shows).
  assert (Hgrow : ∀ obj w' i, i ∈ activeObjects (state w') →
            i ∈ activeObjects (state (notifyActivation obj None w')))
    by (intros; by apply notifyActivation_grows).
  split; [|split; [|split; [|split]]].
  - intros Hk a Ha. unfold checkShakeTrigger. apply forEach_shows; [| |done].
    + intros obj w' i Hi. cbv zeta.
      repeat (match goal with |- context [if ?b then _ else _] => destruct b end);
        try done; by apply Hgrow.
    + intros w'. cbv zeta. rewrite (Hkind _ Hk). simpl.
      rewrite decide_True by lia. apply Hshow.
  - intros Hk n Hn. unfold checkProximityTrigger. apply forEach_shows; [| |done].
    + intros obj w' i Hi. cbv zeta.
      repeat (match goal with |- context [if ?b then _ else _] => destruct b end);
        try done; by apply Hgrow.
    + intros w'. cbv zeta. rewrite (Hkind _ Hk). simpl.
      rewrite decide_True by lia. apply Hshow.
  - unfold checkTapTrigger. apply forEach_shows; [| |done].
    + intros obj w' i Hi.
      destruct (negb (ofKind (type (trigger o)) obj)); [done|]. by apply Hgrow.
    + intros w'. rewrite (Hkind _ eq_refl). simpl. apply Hshow.
  - intros Hk beta gamma Hhit. unfold checkTiltTrigger. apply forEach_shows; [| |done].
    + intros obj w' i Hi. cbv zeta.
      destruct (negb (ofKind tilt obj)); [done|].
      match goal with |- context [if ?b then _ else _] => destruct b end;
        [by apply Hgrow|done].
    + intros w'. cbv zeta. rewrite (Hkind _ Hk). simpl negb. cbv iota.
      apply (tilt_test o beta gamma) in Hhit. cbv zeta in Hhit.
      rewrite Hhit. apply Hshow.
  - intros Hk dt Hnow Hdt. unfold checkHoldTrigger.
    change (touchStartTime (state (advance dt (startHoldDetection w))))
      with (Some (now (host w))).
    cbv beta iota. rewrite decide_False by done. simpl.
    apply (forEach_shows _ objs o); [| |done].
    + intros obj w' i Hi. cbv zeta.
      repeat (match goal with |- context [if ?b then _ else _] => destruct b end);
        try done; by apply Hgrow.
    + intros w'. rewrite (Hkind _ Hk). simpl negb. cbv iota.
      rewrite decide_True by lia. apply Hshow.
Qed.

Lemma satisfied_objects_are_shown_witness :
  "T1" ∈ activeObjects (state (checkTiltTrigger [objA; objTilt] (-50) 3 freshWorld))
  ∧ "H1" ∈ activeObjects (state
      (checkHoldTrigger [objHold] (advance 2000 (startHoldDetection freshWorld)))).
Proof.
  split.
  - destruct (satisfied_objects_are_shown [objA; objTilt] objTilt freshWorld)
      as (_ & _ & _ & Ht & _);
      [apply elem_of_cons; right; apply elem_of_cons; by left | reflexivity | reflexivity |].
    apply (Ht eq_refl (-50) 3). right. left. split; [reflexivity | vm_compute; discriminate].
  - destruct (satisfied_objects_are_shown [objHold] objHold freshWorld)
      as (_ & _ & _ & _ & Hh);
      [apply elem_of_cons; by left | reflexivity | reflexivity |].
    apply (Hh eq_refl 2000); [vm_compute; discriminate | vm_compute; discriminate].
Defined.

(** A signal that satisfies no object of the list changes nothing:
    acceleration below every shake threshold, fewer devices than every
    proximity object asks for, a tilt reading that is no hit (in
    particular for a direction other than forward, back, left and right).
    A hold shorter than every required duration only ends the hold; and a
    hold is consumed by the first check, whatever its outcome. *)
Theorem unsatisfied_signals_change_nothing (objs : list MediaObject) (w : World) :
  (∀ a, Forall (λ o, ofKind shake o = true →
                     a < numberOr (threshold (params (trigger o))) 15) objs →
        checkShakeTrigger objs a w = w)
  ∧ (∀ n, Forall (λ o, ofKind proximity o = true →
                       n < numberOr (minDevices (params (trigger o))) 2) objs →
          checkProximityTrigger objs n w = w)
  ∧ (∀ beta gamma, Forall (λ o, ofKind tilt o = true → ¬ tiltHit o beta gamma) objs →
       checkTiltTrigger objs beta gamma w = w)
  ∧ (∀ dt, Forall (λ o, ofKind hold o = true →
                        dt < numberOr (duration (params (trigger o))) 2000) objs →
       0 ≤ dt → now (host w) ≠ 0 →
       checkHoldTrigger objs (advance dt (startHoldDetection w))
       = with_state (set_touchStartTime None) (advance dt w))
  ∧ (∀ objs', checkHoldTrigger objs' (checkHoldTrigger objs w) = checkHoldTrigger objs w).
Proof.
  split; [|split; [|split; [|split]]].
  - intros a Hall. apply forEach_skip. eapply Forall_impl; [exact Hall|].
    intros o Ho w'. cbv zeta. destruct (ofKind shake o) eqn:Ek; [|done]. simpl.
    rewrite decide_False; [done|]. specialize (Ho Ek). lia.
  - intros n Hall. apply forEach_skip. eapply Forall_impl; [exact Hall|].
    intros o Ho w'. cbv zeta. destruct (ofKind proximity o) eqn:Ek; [|done]. simpl.
    rewrite decide_False; [done|]. specialize (Ho Ek). lia.
  - intros beta gamma Hall. apply forEach_skip. eapply Forall_impl; [exact Hall|].
    intros o Ho w'. cbv zeta. destruct (ofKind tilt o) eqn:Ek; [|done]. simpl negb. cbv iota.
    specialize (Ho Ek). rewrite <- (tilt_test o beta gamma) in Ho. cbv zeta in Ho.
    apply not_true_is_false in Ho. by rewrite Ho.
  - intros dt Hall Hdt Hnow. unfold checkHoldTrigger.
    change (touchStartTime (state (advance dt (startHoldDetection w))))
      with (Some (now (host w))).
    cbv beta iota. rewrite decide_False by done. cbv zeta.
    rewrite forEach_skip; [done|]. eapply Forall_impl; [exact Hall|].
    intros o Ho w'. cbv zeta. destruct (ofKind hold o) eqn:Ek; [|done]. simpl negb. cbv iota.
    rewrite decide_False; [done|]. specialize (Ho Ek). simpl. lia.
  - intros objs'.
    assert (Hcases : checkHoldTrigger objs w = w
                     ∧ (touchStartTime (state w) = None ∨ touchStartTime (state w) = Some 0)
                     ∨ touchStartTime (state (checkHoldTrigger objs w)) = None).
    { unfold checkHoldTrigger. destruct (touchStartTime (state w)) as [start|] eqn:Et.
      - destruct (decide (start = 0)) as [->|Hs]; [left; split; [done|by right]|by right].
      - left. split; [done|by left]. }
    destruct Hcases as [[-> [Et|Et]]|Et].
    + unfold checkHoldTrigger. by rewrite Et.
    + unfold checkHoldTrigger. rewrite Et. by rewrite decide_True.
    + unfold checkHoldTrigger at 1. by rewrite Et.
Qed.

Lemma unsatisfied_signals_change_nothing_witness :
  checkTiltTrigger [objTilt] 45 0 freshWorld = freshWorld
  ∧ checkHoldTrigger [objHold] (advance 1999 (startHoldDetection freshWorld))
    = with_state (set_touchStartTime None) (advance 1999 freshWorld).
Proof.
  destruct (unsatisfied_signals_change_nothing [objTilt] freshWorld)
    as (_ & _ & Ht & _).
  destruct (unsatisfied_signals_change_nothing [objHold] freshWorld)
    as (_ & _ & _ & Hh & _).
  split.
  - apply Ht. apply Forall_cons_2; [|apply Forall_nil_2].
    intros _ [[H _]|[[_ H]|[[H _]|[H _]]]]; try discriminate H.
    vm_compute in H. by apply H.
  - apply Hh; [|lia|vm_compute; discriminate].
    apply Forall_cons_2; [|apply Forall_nil_2]. intros _. vm_compute. reflexivity.
Defined.

(** ** Geofences and the dismissed set *)

Lemma notifyActivation_dismissed object allObjects w :
  dismissedObjects (state (notifyActivation object allObjects w))
  = dismissedObjects (state w).
Proof.
  destruct (passesGate object w) eqn:Hg.
  - by destruct (notifyActivation_passed object allObjects w Hg) as (_ & -> & _).
  - by rewrite notifyActivation_blocked.
Qed.

(** An active GPS object without arm condition that is within its radius (10
    when absent or 0) and not dismissed is active after [checkGPSTrigger],
    wherever it stands in the list.  [resetAllActivations] forgets the
    dismissals, so that after it the object is shown whether or not it had
    been dismissed; [resetActivation] and [dismissTrigger] take an id out
    of the active set. *)
Theorem gps_shows_undismissed (calculateDistance : Location → Location → Z)
    (objs : list MediaObject) (userLocation : Location) (o : MediaObject) (w : World) :
  o ∈ objs → ofKind gps o = true → armCondition o = None →
  calculateDistance userLocation (location o) ≤ numberOr (radius (params (trigger o))) 10 →
  (id o ∉ dismissedObjects (state w) →
   isActivated (id o) (checkGPSTrigger calculateDistance objs userLocation w) = true)
  ∧ isActivated (id o)
      (checkGPSTrigger calculateDistance objs userLocation (resetAllActivations w)) = true
  ∧ isActivated (id o) (resetActivation (id o) w) = false
  ∧ isActivated (id o) (dismissTrigger (id o) w) = false.
Proof.
  intros Hin Hk Hc Hnear.
  assert (Hshow : ∀ w', id o ∉ dismissedObjects (state w') →
            isActivated (id o) (checkGPSTrigger calculateDistance objs userLocation w')
            = true).
  { intros w' Hnd. apply bool_decide_eq_true_2. unfold checkGPSTrigger.
    generalize (Some objs) as allObjects. intros allObjects.
    revert w' Hnd. induction objs as [|x objs IH]; intros w' Hnd;
      [by apply elem_of_nil in Hin|].
    set (body := λ (obj : MediaObject) (w0 : World),
           if negb (ofKind gps obj) then w0
           else if decide (id obj ∈ dismissedObjects (state w0)) then w0
           else if decide (calculateDistance userLocation (location obj)
                           ≤ numberOr (radius (params (trigger obj))) 10)
                then notifyActivation obj allObjects w0 else w0).
    change (id o ∈ activeObjects (state (forEach body objs (body x w')))).
    assert (Hgrow : ∀ obj w0 i, i ∈ activeObjects (state w0) →
              i ∈ activeObjects (state (body obj w0))).
    { intros obj w0 i Hi. subst body. cbv beta.
      repeat (match goal with |- context [if ?b then _ else _] => destruct b end);
        try done; by apply notifyActivation_grows. }
    apply elem_of_cons in Hin as [<-|Hin].
    - apply forEach_grows; [intros; by apply Hgrow|].
      subst body. cbv beta. rewrite Hk. simpl negb. cbv iota.
      rewrite decide_False by done. rewrite decide_True by done.
      by apply notifyActivation_shows.
    - apply IH; [done|].
      assert (Hd : dismissedObjects (state (body x w')) = dismissedObjects (state w')).
      { subst body. cbv beta.
        repeat (match goal with |- context [if ?b then _ else _] => destruct b end);
          try done; by apply notifyActivation_dismissed. }
      by rewrite Hd. }
  split; [exact (Hshow w)|]. split; [apply Hshow; simpl; apply not_elem_of_empty|].
  split; apply bool_decide_eq_false_2; simpl; rewrite elem_of_difference;
    intros [_ Hn]; apply Hn; by apply elem_of_singleton.
Qed.

Lemma gps_shows_undismissed_witness :
  isActivated "G1"
    (checkGPSTrigger latitudeGap [objA; objGPS] {| lat := 7; lng := 0 |}
       (resetAllActivations (dismissTrigger "G1" freshWorld))) = true.
Proof.
  destruct (gps_shows_undismissed latitudeGap [objA; objGPS] {| lat := 7; lng := 0 |}
              objGPS (dismissTrigger "G1" freshWorld)) as (_ & H & _);
    [apply elem_of_cons; right; apply elem_of_cons; by left | reflexivity | reflexivity
    | vm_compute; discriminate |].
  exact H.
Defined.

(** ** The experience screen *)

Lemma checkHoldTrigger_shows objs o dt w :
  o ∈ objs → ofKind hold o = true → armCondition o = None → now (host w) ≠ 0 →
  numberOr (duration (params (trigger o))) 2000 ≤ dt →
  id o ∈ activeObjects (state (checkHoldTrigger objs (advance dt (startHoldDetection w)))).
Proof.
  intros Hin Hk Hc Hnow Hdt. unfold checkHoldTrigger.
  change (touchStartTime (state (advance dt (startHoldDetection w))))
    with (Some (now (host w))).
  cbv beta iota. rewrite decide_False by done. simpl.
  apply (forEach_shows _ objs o); [| |done].
  - intros obj w' i Hi. cbv zeta.
    repeat (match goal with |- context [if ?b then _ else _] => destruct b end);
      try done; by apply notifyActivation_grows.
  - intros w'. rewrite Hk. simpl negb. cbv iota.
    rewrite decide_True by lia. by apply notifyActivation_shows.
Qed.

Lemma checkHoldTrigger_short objs dt w :
  Forall (λ o, ofKind hold o = true →
               dt < numberOr (duration (params (trigger o))) 2000) objs →
  0 ≤ dt → now (host w) ≠ 0 →
  checkHoldTrigger objs (advance dt (startHoldDetection w))
  = with_state (set_touchStartTime None) (advance dt w).
Proof.
  intros Hall Hdt Hnow. unfold checkHoldTrigger.
  change (touchStartTime (state (advance dt (startHoldDetection w))))
    with (Some (now (host w))).
  cbv beta iota. rewrite decide_False by done. cbv zeta.
  rewrite forEach_skip; [done|]. eapply Forall_impl; [exact Hall|].
  intros o Ho w'. cbv zeta. destruct (ofKind hold o) eqn:Ek; [|done]. simpl negb. cbv iota.
  rewrite decide_False; [done|]. specialize (Ho Ek). simpl. lia.
Qed.

(** A press on the screen is a tap when it is released within 300 ms and a
    hold otherwise.  A tap evaluates no hold object: on a list of hold
    objects it changes nothing, whatever durations they ask for.  A longer
    press shows every active hold object without arm condition whose
    duration (2000 ms when absent or 0) it reaches, so that a hold object
    asking for less than 300 ms is shown from 300 ms on; a press that
    reaches no duration only ends the hold. *)
Theorem press_is_tap_or_hold (objs : list MediaObject) (dt : Z) (w : World) :
  0 ≤ dt → now (host w) ≠ 0 →
  let w1 := advance dt (handleTouchStart w).2 in
  let w2 := handleTouchEnd (handleTouchStart w).1 objs w1 in
  (dt < 300 → Forall (λ o, type (trigger o) = hold) objs → w2 = w1)
  ∧ (300 ≤ dt → ∀ o, o ∈ objs → ofKind hold o = true → armCondition o = None →
       numberOr (duration (params (trigger o))) 2000 ≤ dt →
       id o ∈ activeObjects (state w2))
  ∧ (300 ≤ dt →
     Forall (λ o, ofKind hold o = true →
                  dt < numberOr (duration (params (trigger o))) 2000) objs →
     w2 = with_state (set_touchStartTime None) (advance dt w)).
Proof.
  intros Hdt Hnow w1 w2.
  assert (Hdur : now (host w1) - (handleTouchStart w).1 = dt).
  { subst w1. simpl. lia. }
  subst w2. unfold handleTouchEnd. cbv zeta. rewrite Hdur.
  split; [|split].
  - intros Hshort Hall. rewrite decide_True by done.
    assert (Hskip : ∀ k w', k ≠ hold → checkTapTrigger k objs w' = w').
    { intros k w' Hk. apply forEach_skip. eapply Forall_impl; [exact Hall|].
      intros o Ho w''. unfold ofKind. rewrite Ho.
      rewrite (bool_decide_eq_false_2 (hold = k)) by done.
      by rewrite andb_false_r. }
    unfold checkAITrigger, checkSpinnerTrigger, checkDiceTrigger, checkTouchTrigger.
    by rewrite !Hskip.
  - intros Hlong o Hin Hk Hc Hreach. rewrite decide_False by lia.
    subst w1. by apply checkHoldTrigger_shows.
  - intros Hlong Hall. rewrite decide_False by lia.
    subst w1. by apply checkHoldTrigger_short.
Qed.

Lemma press_is_tap_or_hold_witness :
  handleTouchEnd 1000 [objQuickHold] (advance 250 (startHoldDetection freshWorld))
  = advance 250 (startHoldDetection freshWorld)
  ∧ "H2" ∈ activeObjects (state
      (handleTouchEnd 1000 [objQuickHold] (advance 300 (startHoldDetection freshWorld)))).
Proof.
  split.
  - destruct (press_is_tap_or_hold [objQuickHold] 250 freshWorld) as (H & _);
      [lia | vm_compute; discriminate |].
    apply H; [lia|]. apply Forall_cons_2; [reflexivity | apply Forall_nil_2].
  - destruct (press_is_tap_or_hold [objQuickHold] 300 freshWorld) as (_ & H & _);
      [lia | vm_compute; discriminate |].
    apply (H ltac:(lia) objQuickHold);
      [apply elem_of_cons; by left | reflexivity | reflexivity | vm_compute; discriminate].
Defined.

(** Closing the overlay of a chained object that has fired and is not
    repeatable takes it out of the active set, puts it into the dismissed
    set and completes it; from then on [notifyActivation] does nothing for
    it, whichever evaluator calls it.  With no object on display the handler
    does nothing. *)
Theorem closed_chained_object_stays_closed (o : MediaObject) (objs : list MediaObject)
    (w : World) :
  is_Some (armCondition o) → repeatable o ≠ Some true →
  getTriggerStatus (id o) w = triggered →
  let w' := handleCloseOverlay (Some o) objs w in
  isActivated (id o) w' = false
  ∧ id o ∈ dismissedObjects (state w')
  ∧ getTriggerStatus (id o) w' = completed
  ∧ (∀ allObjects, notifyActivation o allObjects w' = w')
  ∧ handleCloseOverlay None objs w = w.
Proof.
  intros [c Hc] Hrep Hs w'.
  assert (Hw' : w' = persistSessionState
            (updateDependentTriggers (id o) objs
               (setTriggerStatus (id o) completed (dismissTrigger (id o) w)))).
  { subst w'. unfold handleCloseOverlay, completeTrigger.
    change (getTriggerStatus (id o) (dismissTrigger (id o) w))
      with (getTriggerStatus (id o) w).
    rewrite decide_True by done. unfold resetOrComplete.
    by rewrite decide_False by done. }
  assert (Hst : state w' = state (dismissTrigger (id o) w)).
  { rewrite Hw', persistSessionState_state.
    rewrite (frame_state _ _ (updateDependentTriggers_frame _ _ _)).
    by rewrite (frame_state _ _ (sameFrame_setTriggerStatus _ _ _)). }
  assert (Hdone : getTriggerStatus (id o) w' = completed).
  { rewrite Hw', getTriggerStatus_persist, getTriggerStatus_sweep_changed.
    rewrite getTriggerStatus_set. by rewrite decide_True. }
  split; [|split; [|split; [|split]]].
  - apply bool_decide_eq_false_2. rewrite Hst. simpl. rewrite elem_of_difference.
    intros [_ Hn]. apply Hn. by apply elem_of_singleton.
  - rewrite Hst. simpl. apply elem_of_union_l. by apply elem_of_singleton.
  - exact Hdone.
  - intros allObjects. apply notifyActivation_blocked. unfold passesGate.
    rewrite Hc, Hdone. rewrite (bool_decide_eq_false_2 (completed = armed)) by done.
    apply andb_false_r.
  - done.
Qed.

Lemma closed_chained_object_stays_closed_witness :
  getTriggerStatus "B"
    (handleCloseOverlay (Some objB) [objA; objB]
       (run [Activate objA None; Notify objB None] chainWorld)) = completed.
Proof.
  destruct (closed_chained_object_stays_closed objB [objA; objB]
              (run [Activate objA None; Notify objB None] chainWorld))
    as (_ & _ & H & _);
    [by eexists | discriminate | vm_compute; reflexivity |].
  exact H.
Defined.

(** ** Chains *)

Section ChainQueries.
Variable chainId : MediaObject → option string.
Variable chainOrder : MediaObject → option Z.

Lemma insertByOrder_Permutation x l : insertByOrder chainOrder x l ≡ₚ x :: l.
Proof.
  induction l as [|y l IH]; simpl; [done|].
  case_decide; [done|]. rewrite IH. apply Permutation_swap.
Qed.

Lemma sortByOrder_Permutation l : sortByOrder chainOrder l ≡ₚ l.
Proof.
  induction l as [|x l IH]; simpl; [done|].
  by rewrite insertByOrder_Permutation, IH.
Qed.

Lemma insertByOrder_sorted x l :
  StronglySorted (byOrder chainOrder) l →
  StronglySorted (byOrder chainOrder) (insertByOrder chainOrder x l).
Proof.
  induction 1 as [|y l Hl IH Hy]; simpl.
  - apply SSorted_cons; [apply SSorted_nil|apply Forall_nil_2].
  - case_decide as Hxy.
    + apply SSorted_cons; [by apply SSorted_cons|].
      apply Forall_cons_2; [done|]. eapply Forall_impl; [exact Hy|].
      intros z Hz. unfold byOrder in *. lia.
    + apply SSorted_cons; [done|].
      rewrite insertByOrder_Permutation.
      apply Forall_cons_2; [unfold byOrder; lia|done].
Qed.

Lemma sortByOrder_sorted l : StronglySorted (byOrder chainOrder) (sortByOrder chainOrder l).
Proof.
  induction l as [|x l IH]; simpl; [apply SSorted_nil|].
  by apply insertByOrder_sorted.
Qed.

Lemma insertByOrder_stable v x l :
  filter (λ o, orderOf chainOrder o = v) (insertByOrder chainOrder x l) = filter (λ o, orderOf chainOrder o = v) (x :: l).
Proof.
  induction l as [|y l IH]; simpl; [done|].
  case_decide as Hxy; [done|].
  destruct (decide (orderOf chainOrder x = v)) as [Hx|Hx].
  - rewrite (filter_cons_True _ x) by done.
    rewrite !(filter_cons_False _ y) by lia.
    rewrite IH. by rewrite filter_cons_True.
  - rewrite (filter_cons_False _ x) by done.
    destruct (decide (orderOf chainOrder y = v)) as [Hy|Hy].
    + rewrite !(filter_cons_True _ y) by done. rewrite IH.
      by rewrite filter_cons_False.
    + rewrite !(filter_cons_False _ y) by done. rewrite IH.
      by rewrite filter_cons_False.
Qed.

Lemma sortByOrder_stable v l :
  filter (λ o, orderOf chainOrder o = v) (sortByOrder chainOrder l) = filter (λ o, orderOf chainOrder o = v) l.
Proof.
  induction l as [|x l IH]; simpl; [done|].
  rewrite insertByOrder_stable.
  destruct (decide (orderOf chainOrder x = v)).
  - rewrite !(filter_cons_True _ x) by done. by rewrite IH.
  - rewrite !(filter_cons_False _ x) by done. by rewrite IH.
Qed.

(** [getChainTriggers] returns the objects of the session that belong to
    the chain, each as often as the session has it, in ascending
    [chainOrder] (an absent order counts as 0); objects of equal order keep
    the order they have in the session. *)
Theorem getChainTriggers_sorted (c : string) (w : World) :
  let l := getChainTriggers chainId chainOrder c w in
  let members := filter (λ o, chainId o = Some c) (objects (sessionState w)) in
  l ≡ₚ members
  ∧ (∀ o, o ∈ l ↔ o ∈ objects (sessionState w) ∧ chainId o = Some c)
  ∧ StronglySorted (byOrder chainOrder) l
  ∧ (∀ v, filter (λ o, orderOf chainOrder o = v) l = filter (λ o, orderOf chainOrder o = v) members).
Proof.
  intros l members. subst l. unfold getChainTriggers. fold members.
  split; [apply sortByOrder_Permutation|]. split; [|split].
  - intros o. rewrite sortByOrder_Permutation. subst members.
    rewrite list_elem_of_filter. tauto.
  - apply sortByOrder_sorted.
  - intros v. apply sortByOrder_stable.
Qed.

Lemma filter_all_length {A} (P : A → Prop) `{∀ x, Decision (P x)} (l : list A) :
  length (filter P l) = length l ↔ Forall P l.
Proof.
  induction l as [|x l IH]; [split; [intros; apply Forall_nil_2|done]|].
  destruct (decide (P x)) as [Hx|Hx].
  - rewrite filter_cons_True by done. simpl. rewrite Forall_cons.
    split; [intros [= Hl]; split; [done|by apply IH]|].
    intros [_ Hl]. f_equal. by apply IH.
  - rewrite filter_cons_False by done. simpl. rewrite Forall_cons.
    pose proof (length_filter P l). split; [lia|]. by intros [? _].
Qed.

(** [getChainProgress] is a fraction between 0 and 1.  It is 0 for a chain
    without objects in the session (no division takes place), and it is 1
    exactly when the chain has objects in the session and the status of each
    of them is [completed]. *)
Theorem getChainProgress_bounds (c : string) (w : World) :
  let p := getChainProgress chainId chainOrder c w in
  let l := getChainTriggers chainId chainOrder c w in
  QArith_base.Qle (QArith_base.Qmake 0 1) p
  ∧ QArith_base.Qle p (QArith_base.Qmake 1 1)
  ∧ (l = [] → p = QArith_base.Qmake 0 1)
  ∧ (QArith_base.Qeq p (QArith_base.Qmake 1 1)
     ↔ l ≠ [] ∧ Forall (λ t, getTriggerStatus (id t) w = completed) l).
Proof.
  intros p l. subst p. unfold getChainProgress. fold l.
  destruct (decide (length l = 0%nat)) as [Hz|Hz].
  - apply nil_length_inv in Hz. unfold QArith_base.Qle, QArith_base.Qeq. simpl.
    split; [lia|]. split; [lia|]. split; [done|]. split; [lia|]. by intros [? _].
  - cbv zeta.
    pose proof (length_filter (λ t, getTriggerStatus (id t) w = completed) l) as Hle.
    assert (Hpos : Z.pos (Pos.of_nat (length l)) = Z.of_nat (length l)).
    { rewrite <- positive_nat_Z. by rewrite Nat2Pos.id. }
    unfold QArith_base.Qle, QArith_base.Qeq. simpl. rewrite Hpos.
    split; [lia|]. split; [lia|]. split; [by intros ->|].
    rewrite Z.mul_1_r, Z.mul_1_l, Nat2Z.inj_iff, filter_all_length.
    split; [|by intros [_ ?]]. intros Hall. split; [by intros ->|done].
Qed.

End ChainQueries.
